(** * Incremental ETL with data-quality gates: a shallow embedding

    The pipeline of [scripts/ingest.py], [scripts/data_quality.py] and
    [scripts/load_fact.py] over a value model of pandas dataframes.

    Modelling conventions.
    - A dataframe is its list of column labels and its rows, in row order.
      A row carries the seven columns of the transaction schema; a cell is
      [None] when pandas holds a null there (None, NaN or NaT).  The value
      of a field whose column is not listed in [columns] is never read: the
      code that would read it raises [KeyError] first.
    - A cell that is not null holds a value of its column's type (a string,
      a number, a date, a timestamp), as in the frames that [pd.read_csv] and
      [pd.read_sql] build for the transaction schema.  The columns of
      strings are object columns, nulls included, so that the [.str]
      accessor applies to them; a frame whose status column holds numbers
      only (all of it NaN, say), on which [.str] raises [AttributeError], is
      not a value of this model.
    - In a frame that [pd.read_csv] parsed, the null of a column of strings
      or numbers is NaN and the null of a parsed date column is NaT; the
      difference shows where the values are sent to the database.
    - A table with a unique key is a finite map from the key; the rows of a
      table have no order.
    - Strings are byte strings without the NUL byte, at which the CSV parser
      ends a field and which a text value of the database cannot hold;
      [str_lower] lowers the ASCII letters.
    - An amount is a rational number: the code only compares it with zero.
    - A timestamp is the UTC instant it denotes, so that
      [pd.to_datetime(..., utc=True)] is the identity on it; a date is a
      day number.
    - Exceptions are values of [result], by the class the code can tell them
      apart with: [EmptyDataError] is a [ValueError], and the errors of the
      database are [DatabaseError], with the name of their class or of the
      statement that failed.
      Logging is left out. *)

From stdpp Require Import gmap strings list sorting.
From Stdlib Require Import QArith Qcanon.

Open Scope Z_scope.

(** ** Data model *)

Record Row := mkRow {
  transaction_id : option string;
  customer_id : option string;
  product_id : option string;
  amount : option Qc;
  transaction_date : option Z;
  status : option string;
  updated_at : option Z
}.

Record DataFrame := mkDF {
  columns : list string;
  rows : list Row
}.

#[export] Instance Row_eq_dec : EqDecision Row.
Proof. solve_decision. Defined.

#[export] Instance DataFrame_eq_dec : EqDecision DataFrame.
Proof. solve_decision. Defined.

Inductive Exn :=
  | ValueError (msg : string)
  | KeyError (key : string)
  | FileNotFoundError (path : string)
  | DatabaseError (msg : string).

Inductive result (A : Type) :=
  | Ok (a : A)
  | Raise (e : Exn).
Arguments Ok {A} a.
Arguments Raise {A} e.

(** One line of the error frame: [transaction_id], [error_message] and
    [error_timestamp]. *)
Record ErrorRow := mkErr {
  err_transaction_id : option string;
  error_message : string;
  error_timestamp : Z
}.

#[export] Instance ErrorRow_eq_dec : EqDecision ErrorRow.
Proof. solve_decision. Defined.

(** ** Column primitives *)

Definition ascii_lower (c : Ascii.ascii) : Ascii.ascii :=
  let n := Ascii.nat_of_ascii c in
  if ((65 <=? n) && (n <=? 90))%nat then Ascii.ascii_of_nat (n + 32) else c.

Fixpoint str_lower (s : string) : string :=
  match s with
  | EmptyString => EmptyString
  | String c s' => String (ascii_lower c) (str_lower s')
  end.

(** [df[col].isnull()] on one row. *)
Definition isnull (col : string) (r : Row) : bool :=
  if decide (col = "transaction_id") then bool_decide (transaction_id r = None)
  else if decide (col = "customer_id") then bool_decide (customer_id r = None)
  else if decide (col = "product_id") then bool_decide (product_id r = None)
  else if decide (col = "amount") then bool_decide (amount r = None)
  else if decide (col = "transaction_date") then bool_decide (transaction_date r = None)
  else if decide (col = "status") then bool_decide (status r = None)
  else if decide (col = "updated_at") then bool_decide (updated_at r = None)
  else false.

Definition notnull (col : string) (r : Row) : bool := negb (isnull col r).

(** [df.duplicated("transaction_id", keep=False)]: the mask of the rows whose
    key occurs more than once.  Nulls compare equal to each other here. *)
Definition occurrences (k : option string) (l : list Row) : list Row :=
  filter (λ r, transaction_id r = k) l.

Definition duplicated (l : list Row) (r : Row) : bool :=
  bool_decide (1 < length (occurrences (transaction_id r) l))%nat.

(** [df.drop_duplicates("transaction_id", keep="first")]. *)
Fixpoint drop_duplicates_from (seen : list (option string)) (l : list Row) : list Row :=
  match l with
  | [] => []
  | r :: l' =>
      if bool_decide (transaction_id r ∈ seen) then drop_duplicates_from seen l'
      else r :: drop_duplicates_from (transaction_id r :: seen) l'
  end.

Definition drop_duplicates (l : list Row) : list Row := drop_duplicates_from [] l.

(** ** scripts/data_quality.py *)

Module DataQuality.

Definition EXPECTED_COLUMNS : list string :=
  ["transaction_id"; "customer_id"; "product_id"; "amount";
   "transaction_date"; "status"; "updated_at"].

Definition NOT_NULL_COLUMNS : list string :=
  ["transaction_id"; "customer_id"; "product_id"; "amount"; "transaction_date"].

Definition VALID_STATUS : gset string :=
  {[ "completed"; "pending"; "cancelled"; "success" ]}.

(** The first column of [expected] that [cols] lacks. *)
Fixpoint first_missing (cols expected : list string) : option string :=
  match expected with
  | [] => None
  | c :: rest => if bool_decide (c ∈ cols) then first_missing cols rest else Some c
  end.

(** [valid_df["status"] = valid_df["status"].str.lower()] on one row of an
    object column: a string is lowered and a null stays. *)
Definition normalize_status (r : Row) : Row :=
  mkRow (transaction_id r) (customer_id r) (product_id r) (amount r)
        (transaction_date r) (str_lower <$> status r) (updated_at r).

(** The two masks and the message of one block of the function: the rows under
    [reject] are reported, the rows under [keep] stay. *)
Record Pass := mkPass {
  reject : Row → bool;
  keep : Row → bool;
  reason : string
}.

Definition State : Type := list Row * list (option string * string).

Definition removal_pass (p : Pass) (st : State) : State :=
  let '(valid_df, errors) := st in
  let invalid := filter (λ r, reject p r) valid_df in
  (filter (λ r, keep p r) valid_df,
   errors ++ ((λ r, (transaction_id r, reason p)) <$> invalid)).

Definition not_null_check (col : string) : Pass :=
  mkPass (isnull col) (notnull col) ("NULL value in " +:+ col).

Definition amount_le_0 (r : Row) : bool :=
  match amount r with Some a => bool_decide (a <= 0)%Qc | None => false end.

Definition amount_gt_0 (r : Row) : bool :=
  match amount r with Some a => bool_decide (0 < a)%Qc | None => false end.

Definition amount_check : Pass :=
  mkPass amount_le_0 amount_gt_0 "Amount must be > 0".

Definition status_isin (r : Row) : bool :=
  match status r with Some s => bool_decide (s ∈ VALID_STATUS) | None => false end.

Definition status_check : Pass :=
  mkPass (λ r, negb (status_isin r)) status_isin "Invalid status value".

Definition product_isin (products_set : gset string) (r : Row) : bool :=
  match product_id r with Some p => bool_decide (p ∈ products_set) | None => false end.

Definition product_check (products_set : gset string) : Pass :=
  mkPass (λ r, negb (product_isin products_set r)) (product_isin products_set)
         "Invalid product_id".

(** The duplicate block: every row of a repeated key is reported, the first
    row of each key stays. *)
Definition duplicate_check (valid_df : list Row) : State :=
  let dupes := filter (λ r, duplicated valid_df r) valid_df in
  (drop_duplicates valid_df,
   (λ r, (transaction_id r, "Duplicate transaction_id")) <$> dupes).

Definition not_null_checks (st : State) : State :=
  foldl (λ st col, removal_pass (not_null_check col) st) st NOT_NULL_COLUMNS.

Definition referential_check (products_set : gset string) (st : State) : State :=
  if bool_decide (products_set = ∅) then st
  else removal_pass (product_check products_set) st.

(** [pd.DataFrame(errors, ...)] with [error_timestamp] set to the clock's
    reading [now] on every line. *)
Definition error_frame (now : Z) (errors : list (option string * string)) : list ErrorRow :=
  (λ e, mkErr e.1 e.2 now) <$> errors.

Definition apply_data_quality_checks (now : Z) (df : DataFrame)
    (products_set : gset string) : result (DataFrame * list ErrorRow) :=
  match first_missing (columns df) EXPECTED_COLUMNS with
  | Some col => Raise (ValueError ("Missing required column: " +:+ col))
  | None =>
      let valid_df := normalize_status <$> rows df in
      let st := duplicate_check valid_df in
      let st := not_null_checks st in
      let st := removal_pass amount_check st in
      let st := removal_pass status_check st in
      let st := referential_check products_set st in
      Ok (mkDF (columns df) st.1, error_frame now st.2)
  end.

(** *** The rule chain, for stating what the function computes

    The blocks after the duplicate block, in the order in which the function
    runs them. *)
Definition rule_chain (products_set : gset string) : list Pass :=
  (not_null_check <$> NOT_NULL_COLUMNS) ++ [amount_check; status_check] ++
  (if bool_decide (products_set = ∅) then [] else [product_check products_set]).

Definition run_chain (ch : list Pass) (st : State) : State :=
  foldl (λ st p, removal_pass p st) st ch.

(** A row violates a rule when the rule's [keep] mask is false on it. *)
Definition violates (r : Row) (p : Pass) : bool := negb (keep p r).

(** The row passes every rule of the chain. *)
Definition passes (ch : list Pass) (r : Row) : bool := forallb (λ p, keep p r) ch.

(** The reason of the earliest rule of the chain that the row violates. *)
Definition earliest_violation (ch : list Pass) (r : Row) : option string :=
  reason <$> List.find (violates r) ch.

(** The entries the chain appends for the candidates [l], block by block. *)
Fixpoint chain_errors (ch : list Pass) (l : list Row) : list (option string * string) :=
  match ch with
  | [] => []
  | p :: ch' =>
      ((λ r, (transaction_id r, reason p)) <$> filter (λ r, reject p r) l) ++
      chain_errors ch' (filter (λ r, keep p r) l)
  end.

(** The entries of the duplicate block for the frame [l]. *)
Definition duplicate_entries (l : list Row) : list (option string * string) :=
  (λ r, (transaction_id r, "Duplicate transaction_id")) <$> filter (λ r, duplicated l r) l.

(** The input record [r] is among the accepted rows (with its status in lower
    case), respectively has an entry in the error frame. *)
Definition accepted (valid : DataFrame) (r : Row) : Prop :=
  normalize_status r ∈ rows valid.

Definition rejected (errors : list ErrorRow) (r : Row) : Prop :=
  ∃ e, e ∈ errors ∧ err_transaction_id e = transaction_id r.

(** The entries of the error frame for the key [k]. *)
Definition entries_of (k : option string) (errors : list ErrorRow) : list ErrorRow :=
  filter (λ e, err_transaction_id e = k) errors.

End DataQuality.

(** ** scripts/ingest.py *)

Module Ingest.

Definition DATA_DIR : string := "/opt/airflow/data/raw".

(** [os.path.join(DATA_DIR, f)] for an entry name [f]. *)
Definition path_join (d f : string) : string := d +:+ "/" +:+ f.

Definition endswith (s suffix : string) : bool :=
  let n := String.length s in
  let m := String.length suffix in
  (m <=? n)%nat && bool_decide (String.substring (n - m) m s = suffix).

(** The landing directory: entry name to the table that the file holds, its
    header line and its records.  [os.listdir] returns the names in no
    particular order. *)
Definition listdir (dir : gmap string DataFrame) : list string := elements (dom dir).

Definition path_le (a b : string) : Prop := String.leb a b = true.

#[export] Instance path_le_dec : RelDecision path_le.
Proof. intros a b. unfold path_le. apply _. Defined.

(** [sorted(...)] on strings. *)
Definition sorted (paths : list string) : list string := merge_sort path_le paths.

(** [pd.read_csv(..., parse_dates=cols)] on a file that holds the table
    [df].  A file without a header line has no columns to parse
    ([EmptyDataError], a [ValueError]); a column of [parse_dates] that the
    header lacks is a [ValueError] that lists the missing ones. *)
Definition parse_csv (parse_dates : list string) (df : DataFrame) : result DataFrame :=
  if bool_decide (columns df = []) then Raise (ValueError "No columns to parse from file")
  else
    match filter (λ c, c ∉ columns df) (sorted parse_dates) with
    | [] => Ok df
    | missing =>
        Raise (ValueError ("Missing column provided to 'parse_dates': '"
                           +:+ String.concat ", " missing +:+ "'"))
    end.

(** [pd.read_csv(f, parse_dates=["updated_at", "transaction_date"])] for a
    path of the landing directory. *)
Definition read_csv (dir : gmap string DataFrame) (path : string) : result DataFrame :=
  match list_find (λ e, path_join DATA_DIR e.1 = path) (map_to_list dir) with
  | Some (_, (_, df)) => parse_csv ["updated_at"; "transaction_date"] df
  | None => Raise (FileNotFoundError path)
  end.

(** A list comprehension over a call that may raise: the first exception
    ends it. *)
Fixpoint comprehension {A B} (f : A → result B) (l : list A) : result (list B) :=
  match l with
  | [] => Ok []
  | x :: l' =>
      match f x with
      | Raise e => Raise e
      | Ok y =>
          match comprehension f l' with
          | Raise e => Raise e
          | Ok ys => Ok (y :: ys)
          end
      end
  end.

(** [pd.concat(frames, ignore_index=True)]: the union of the column labels in
    order of first appearance, and the rows one frame after the other. *)
Definition concat_frames (frames : list DataFrame) : DataFrame :=
  mkDF (foldl (λ acc df, acc ++ filter (λ c, c ∉ acc) (columns df)) [] frames)
       (concat (rows <$> frames)).

(** The local list [files] of [load_csv_files]. *)
Definition csv_files (dir : gmap string DataFrame) : list string :=
  sorted (path_join DATA_DIR <$> filter (λ f, endswith f ".csv") (listdir dir)).

Definition load_csv_files (dir : gmap string DataFrame) : result DataFrame :=
  let files := csv_files dir in
  if bool_decide (files = []) then Ok (mkDF [] [])
  else
    match comprehension (read_csv dir) files with
    | Raise e => Raise e
    | Ok frames => Ok (concat_frames frames)
    end.

(** [df.empty]: no column or no row. *)
Definition df_empty (df : DataFrame) : bool :=
  bool_decide (columns df = [] ∨ rows df = []).

(** The mask [df["updated_at"] > max_updated_at]; a null timestamp compares
    false. *)
Definition newer_than (max_updated_at : Z) (r : Row) : bool :=
  match updated_at r with Some t => bool_decide (max_updated_at < t) | None => false end.

(** [df.drop_duplicates(subset=["transaction_id"])]: an empty frame comes
    back at once, before the subset is looked up. *)
Definition drop_duplicates_subset (df : DataFrame) : result DataFrame :=
  if df_empty df then Ok df
  else if bool_decide ("transaction_id" ∈ columns df)
  then Ok (mkDF (columns df) (drop_duplicates (rows df)))
  else Raise (KeyError "transaction_id").

Definition filter_incremental (df : DataFrame) (max_updated_at : option Z)
    : result DataFrame :=
  if df_empty df then Ok df
  else if bool_decide ("updated_at" ∈ columns df) then
    match max_updated_at with
    | None => drop_duplicates_subset df
    | Some w =>
        let filtered := mkDF (columns df) (filter (λ r, newer_than w r) (rows df)) in
        drop_duplicates_subset filtered
    end
  else Raise (KeyError "updated_at").

End Ingest.

(** ** scripts/load_fact.py *)

Module LoadFact.

(** Modelled from the spec: the declaration of the fact table, which is not
    part of the sources.  Its columns have the types of the spec's data
    model: text for transaction_id, customer_id, product_id and status, a
    decimal for amount, a calendar date for transaction_date and a timestamp
    for updated_at.  The composite key (transaction_id, transaction_date),
    which the ON CONFLICT clause names, is unique: a table is a finite map
    from the key to the other five columns, and its rows have no order. *)
Inductive Numeric :=
  | Number (q : Qc)
  | NaN.

Record Payload := mkPayload {
  fact_customer_id : string;
  fact_product_id : string;
  fact_amount : Numeric;
  fact_status : string;
  fact_updated_at : Z
}.

Abbreviation Key := (string * Z)%type.

Abbreviation Table := (gmap (string * Z) Payload).

(** The local list [columns] of the function. *)
Definition insert_columns : list string :=
  ["transaction_id"; "customer_id"; "product_id"; "amount";
   "transaction_date"; "status"; "updated_at"].

Definition page_size : nat := 1000.

(** The values that psycopg2 sends for the cells of a frame that
    [pd.read_csv] parsed.  A null cell of a text or number column is the
    float NaN, which a text column stores as the text NaN and a decimal
    column as NaN. *)
Definition text_value (cell : option string) : string := default "NaN" cell.

Definition numeric_value (cell : option Qc) : Numeric :=
  match cell with Some q => Number q | None => NaN end.

(** One tuple of [values] as the statement takes it: its key and the other
    columns.  A null cell of one of the two parsed date columns is NaT,
    which is sent as a timestamp that reads NaT: no statement with such a
    tuple goes through, and the tuple is [None] here. *)
Definition sent (r : Row) : option (Key * Payload) :=
  match transaction_date r, updated_at r with
  | Some d, Some u =>
      Some ((text_value (transaction_id r), d),
            mkPayload (text_value (customer_id r)) (text_value (product_id r))
                      (numeric_value (amount r)) (text_value (status r)) u)
  | _, _ => None
  end.

(** The composite key of a record, as it is sent. *)
Definition key (r : Row) : string * option Z :=
  (text_value (transaction_id r), transaction_date r).

(** [DO UPDATE SET ...]: the five columns of the stored row take the values
    of the proposed row. *)
Definition on_conflict_update (stored excluded : Payload) : Payload :=
  mkPayload (fact_customer_id excluded) (fact_product_id excluded)
            (fact_amount excluded) (fact_status excluded) (fact_updated_at excluded).

(** [INSERT ... ON CONFLICT (transaction_id, transaction_date) DO UPDATE] of
    one proposed row. *)
Definition upsert_row (x : Key * Payload) (t : Table) : Table :=
  match t !! x.1 with
  | Some stored => <[x.1 := on_conflict_update stored x.2]> t
  | None => <[x.1 := x.2]> t
  end.

Definition upsert_rows (page : list (Key * Payload)) (t : Table) : Table :=
  foldl (λ t x, upsert_row x t) t page.

(** One INSERT statement with the rows of one page.  It fails on a NaT
    (invalid input for a timestamp), and when two of its rows have the same
    key (the command would affect a row a second time). *)
Definition execute_statement (page : list Row) (t : Table) : result Table :=
  match mapM sent page with
  | None => Raise (DatabaseError "InvalidDatetimeFormat")
  | Some xs =>
      if bool_decide (NoDup xs.*1) then Ok (upsert_rows xs t)
      else Raise (DatabaseError "CardinalityViolation")
  end.

(** The values cut in pages of [page_size]; [fuel] bounds the number of
    pages, and [length values] pages are enough. *)
Fixpoint paginate (fuel : nat) (values : list Row) : list (list Row) :=
  match fuel, values with
  | 0%nat, _ | _, [] => []
  | S fuel', _ => take page_size values :: paginate fuel' (drop page_size values)
  end.

(** [execute_values(cur, insert_sql, values, page_size=1000)]: one statement
    per page, in order. *)
Fixpoint execute_pages (pages : list (list Row)) (t : Table) : result Table :=
  match pages with
  | [] => Ok t
  | page :: pages' =>
      match execute_statement page t with
      | Ok t' => execute_pages pages' t'
      | Raise e => Raise e
      end
  end.

Definition execute_values (values : list Row) (t : Table) : result Table :=
  execute_pages (paginate (length values) values) t.

(** The function on the table [t]: what it returns or raises, and the table
    afterwards.  The transaction is committed only when every statement went
    through. *)
Definition upsert_fact_table (df : DataFrame) (t : Table) : result nat * Table :=
  if Ingest.df_empty df then (Ok 0%nat, t)
  else
    match DataQuality.first_missing (columns df) insert_columns with
    | Some col => (Raise (KeyError col), t)
    | None =>
        match execute_values (rows df) t with
        | Ok t' => (Ok (length (rows df)), t')
        | Raise e => (Raise e, t)
        end
    end.

(** The rows of a table, as a query lists them, in some order. *)
Definition table_rows (t : Table) : list (Key * Payload) := map_to_list t.

End LoadFact.

(** ** Dataframes as objects

    [apply_data_quality_checks] once more, this time over a store of
    dataframe objects, to follow which object each statement reads, creates or
    changes in place.  A variable of the function holds a location. *)

Module Heap.

Abbreviation loc := nat.
Abbreviation heap := (list DataFrame).

Definition M (A : Type) : Type := heap → result A * heap.

Definition ret {A} (a : A) : M A := λ h, (Ok a, h).

Definition raise {A} (e : Exn) : M A := λ h, (Raise e, h).

Definition bind {A B} (m : M A) (k : A → M B) : M B :=
  λ h, match m h with
       | (Ok a, h') => k a h'
       | (Raise e, h') => (Raise e, h')
       end.

Notation "'let*' x ':=' m 'in' k" := (bind m (λ x, k))
  (at level 10, x name, m at level 99, k at level 200).

Fixpoint foldM {A B} (f : A → B → M A) (a : A) (l : list B) : M A :=
  match l with
  | [] => ret a
  | b :: l' => let* a' := f a b in foldM f a' l'
  end.

(** A fresh object. *)
Definition new (df : DataFrame) : M loc := λ h, (Ok (length h), h ++ [df]).

Definition get (l : loc) : M DataFrame :=
  λ h, match h !! l with
       | Some df => (Ok df, h)
       | None => (Raise (KeyError "no such object"), h)
       end.

(** The object at [l] is overwritten: every holder of [l] sees the change. *)
Definition put (l : loc) (df : DataFrame) : M unit := λ h, (Ok (), <[l:=df]> h).

(** [df.copy()] *)
Definition copy (l : loc) : M loc := let* df := get l in new df.

(** [df[mask]]: a new frame with the rows under the mask. *)
Definition select (l : loc) (mask : list Row → Row → bool) : M loc :=
  let* df := get l in
  new (mkDF (columns df) (filter (λ r, mask (rows df) r) (rows df))).

(** [df["status"] = df["status"].str.lower()]: the column of the object at
    [l] is replaced. *)
Definition setitem_status_lower (l : loc) : M unit :=
  let* df := get l in
  put l (mkDF (columns df) (DataQuality.normalize_status <$> rows df)).

(** [df.drop_duplicates("transaction_id", keep="first")]: a new frame. *)
Definition drop_duplicates_first (l : loc) : M loc :=
  let* df := get l in new (mkDF (columns df) (drop_duplicates (rows df))).

(** [for _, row in frame.iterrows(): errors.append((row["transaction_id"], msg))] *)
Definition report (l : loc) (msg : string) (errors : list (option string * string))
    : M (list (option string * string)) :=
  let* df := get l in
  ret (errors ++ ((λ r, (transaction_id r, msg)) <$> rows df)).

Definition removal_pass (p : DataQuality.Pass)
    (st : loc * list (option string * string))
    : M (loc * list (option string * string)) :=
  let* invalid := select st.1 (λ _, DataQuality.reject p) in
  let* errors := report invalid (DataQuality.reason p) st.2 in
  let* valid_df := select st.1 (λ _, DataQuality.keep p) in
  ret (valid_df, errors).

Definition apply_data_quality_checks (now : Z) (df : loc)
    (products_set : gset string) : M (loc * list ErrorRow) :=
  let* valid_df := copy df in
  let* frame := get valid_df in
  match DataQuality.first_missing (columns frame) DataQuality.EXPECTED_COLUMNS with
  | Some col => raise (ValueError ("Missing required column: " +:+ col))
  | None =>
      let* _ := setitem_status_lower valid_df in
      let* dupes := select valid_df duplicated in
      let* errors := report dupes "Duplicate transaction_id" [] in
      let* valid_df := drop_duplicates_first valid_df in
      let* st :=
        foldM (λ st col, removal_pass (DataQuality.not_null_check col) st)
              (valid_df, errors) DataQuality.NOT_NULL_COLUMNS in
      let* st := removal_pass DataQuality.amount_check st in
      let* st := removal_pass DataQuality.status_check st in
      let* st :=
        if bool_decide (products_set = ∅) then ret st
        else removal_pass (DataQuality.product_check products_set) st in
      ret (st.1, DataQuality.error_frame now st.2)
  end.

(** What holds in the store [h] still holds in [h']. *)
Definition preserved (h h' : heap) : Prop :=
  ∀ l df, h !! l = Some df → h' !! l = Some df.

(** The state [st] of the function on objects stands for the state [vst] of
    the function on values: its location holds the candidate rows, under the
    columns [cols], and its entries are the same. *)
Definition stands_for (cols : list string) (h : heap)
    (st : loc * list (option string * string)) (vst : DataQuality.State) : Prop :=
  h !! st.1 = Some (mkDF cols vst.1) ∧ st.2 = vst.2.

End Heap.

(** ** The stores behind the scripts

    The tables that the scripts read and write through SQL, and the functions
    of the three scripts that work on them.  A table that does not exist yet
    is [None]. *)

Module Store.

(** [staging.transactions] with the columns it was created with,
    [public.products] by its key column [product_id] (which holds no null),
    [quarantine.transactions_errors] and [public.fact_transactions]. *)
Record DB := mkDB {
  staging : option DataFrame;
  products : option (list string);
  quarantine : option (list ErrorRow);
  fact : LoadFact.Table
}.

(** [MAX(c)] over a column: nulls are skipped, and the result is null when no
    value is left. *)
Definition sql_max (column : list (option Z)) : option Z :=
  foldr (λ c acc,
           match c, acc with
           | Some t, Some m => Some (Z.max t m)
           | Some t, None => Some t
           | None, _ => acc
           end) None column.

(** The row as [to_sql] writes it: the columns of the frame, and null in the
    others. *)
Definition restrict (cols : list string) (r : Row) : Row :=
  mkRow (if bool_decide ("transaction_id" ∈ cols) then transaction_id r else None)
        (if bool_decide ("customer_id" ∈ cols) then customer_id r else None)
        (if bool_decide ("product_id" ∈ cols) then product_id r else None)
        (if bool_decide ("amount" ∈ cols) then amount r else None)
        (if bool_decide ("transaction_date" ∈ cols) then transaction_date r else None)
        (if bool_decide ("status" ∈ cols) then status r else None)
        (if bool_decide ("updated_at" ∈ cols) then updated_at r else None).

(** [df.to_sql(..., if_exists="append", index=False)]: the table is created
    with the columns of the frame when it does not exist; otherwise the rows
    are added at its end, which fails when the frame has a column that the
    table lacks. *)
Definition to_sql_append (df : DataFrame) (table : option DataFrame) : result DataFrame :=
  match table with
  | None => Ok (mkDF (columns df) (restrict (columns df) <$> rows df))
  | Some t =>
      if bool_decide (columns df ⊆ columns t)
      then Ok (mkDF (columns t) (rows t ++ (restrict (columns df) <$> rows df)))
      else Raise (DatabaseError "INSERT failed")
  end.

End Store.

(** *** scripts/ingest.py on the staging table *)

Module IngestRun.
Import Store.

Definition get_max_updated_at (db : DB) : result (option Z) :=
  match staging db with
  | None => Ok None
  | Some t =>
      if bool_decide ("updated_at" ∈ columns t)
      then Ok (sql_max (updated_at <$> rows t))
      else Raise (DatabaseError "SELECT failed")
  end.

Definition load_to_staging (df : DataFrame) (db : DB) : result nat * DB :=
  if Ingest.df_empty df then (Ok 0%nat, db)
  else
    match to_sql_append df (staging db) with
    | Ok t => (Ok (length (rows df)),
               mkDB (Some t) (products db) (quarantine db) (fact db))
    | Raise e => (Raise e, db)
    end.

(** [main], with the landing directory [dir]: what it logs as inserted, or
    what it raises, and the stores afterwards.  [ensure_staging_schema]
    creates the schema, no table. *)
Definition main (dir : gmap string DataFrame) (db : DB) : result nat * DB :=
  match get_max_updated_at db with
  | Raise e => (Raise e, db)
  | Ok max_updated_at =>
      match Ingest.load_csv_files dir with
      | Raise e => (Raise e, db)
      | Ok source_df =>
          match Ingest.filter_incremental source_df max_updated_at with
          | Raise e => (Raise e, db)
          | Ok incremental_df => load_to_staging incremental_df db
          end
      end
  end.

(** The rows of the staging table, none while it does not exist. *)
Definition staged (db : DB) : list Row :=
  match staging db with Some t => rows t | None => [] end.

End IngestRun.

(** *** scripts/data_quality.py on the stores *)

Module DataQualityRun.
Import Store.

(** [CREATE TABLE IF NOT EXISTS quarantine.transactions_errors]. *)
Definition ensure_quarantine (db : DB) : DB :=
  mkDB (staging db) (products db)
       (Some (match quarantine db with Some q => q | None => [] end)) (fact db).

(** [pd.read_sql] of the whole staging table, then the two date columns
    converted. *)
Definition load_staging (db : DB) : result DataFrame :=
  match staging db with
  | None => Raise (DatabaseError "SELECT failed")
  | Some t =>
      if bool_decide ("updated_at" ∈ columns t) then
        if bool_decide ("transaction_date" ∈ columns t) then Ok t
        else Raise (KeyError "transaction_date")
      else Raise (KeyError "updated_at")
  end.

(** The set of the product ids, and the empty set when the query fails. *)
Definition load_products (db : DB) : gset string :=
  match products db with
  | Some ids => list_to_set ids
  | None => ∅
  end.

Definition load_quarantine (error_df : list ErrorRow) (db : DB) : nat * DB :=
  if bool_decide (error_df = []) then (0%nat, db)
  else (length error_df,
        mkDB (staging db) (products db)
             (Some (match quarantine db with Some q => q | None => [] end ++ error_df))
             (fact db)).

(** What one run of [main] leaves outside the stores: the frame written to
    valid_transactions.csv and the two numbers it logs. *)
Record Report := mkReport {
  written : DataFrame;
  valid_records : nat;
  quarantined : nat
}.

(** [main] at the time [now]. *)
Definition main (now : Z) (db : DB) : result Report * DB :=
  let db := ensure_quarantine db in
  match load_staging db with
  | Raise e => (Raise e, db)
  | Ok staging_df =>
      let products_set := load_products db in
      match DataQuality.apply_data_quality_checks now staging_df products_set with
      | Raise e => (Raise e, db)
      | Ok (valid_df, error_df) =>
          let '(quarantined, db) := load_quarantine error_df db in
          (Ok (mkReport valid_df (length (rows valid_df)) quarantined), db)
      end
  end.

(** The entries of the quarantine table, none while it does not exist. *)
Definition quarantined_entries (db : DB) : list ErrorRow :=
  match quarantine db with Some q => q | None => [] end.

End DataQualityRun.

(** *** scripts/load_fact.py on the fact table *)

Module LoadFactRun.
Import Store.

(** [file] is the table that valid_transactions.csv holds, [None] when the
    file does not exist. *)
Definition load_valid_data (file : option DataFrame) : result DataFrame :=
  match file with
  | None => Ok (mkDF [] [])
  | Some df => Ingest.parse_csv ["transaction_date"; "updated_at"] df
  end.

Definition main (file : option DataFrame) (db : DB) : result nat * DB :=
  match load_valid_data file with
  | Raise e => (Raise e, db)
  | Ok df =>
      let '(loaded, t) := LoadFact.upsert_fact_table df (fact db) in
      (loaded, mkDB (staging db) (products db) (quarantine db) t)
  end.

End LoadFactRun.

(** ** Sample frames

    The rows of tests/test_data_quality.py and tests/test_ingest.py, and a few
    more of the same shape. *)

Module Samples.

Definition schema : list string := DataQuality.EXPECTED_COLUMNS.

(** 2026-01-01 and 2026-01-02, 00:00 UTC, in seconds; day 20454 is 2026-01-01. *)
Definition jan_1 : Z := 1767225600.
Definition jan_2 : Z := 1767312000.

Definition row_t1 : Row :=
  mkRow (Some "t1") (Some "c1") (Some "p1") (Some (Q2Qc 100)) (Some 20454)
        (Some "SUCCESS") (Some jan_1).

Definition row_t2 : Row :=
  mkRow (Some "t2") (Some "c2") (Some "p1") (Some (Q2Qc (-10))) (Some 20454)
        (Some "FAILED") (Some jan_2).

Definition row_dup_first : Row :=
  mkRow (Some "dup") (Some "c1") (Some "p1") (Some (Q2Qc 100)) (Some 20454)
        (Some "SUCCESS") (Some jan_1).

Definition row_dup_second : Row :=
  mkRow (Some "dup") (Some "c2") (Some "p1") (Some (Q2Qc 250)) (Some 20454)
        (Some "pending") (Some jan_2).

Definition row_dup_negative : Row :=
  mkRow (Some "dup") (Some "c1") (Some "p1") (Some (Q2Qc (-10))) (Some 20454)
        (Some "SUCCESS") (Some jan_1).

Definition row_no_updated_at : Row :=
  mkRow (Some "t3") (Some "c1") (Some "p1") (Some (Q2Qc 100)) (Some 20454)
        (Some "SUCCESS") None.

Definition row_no_status : Row :=
  mkRow (Some "t4") (Some "c1") (Some "p1") (Some (Q2Qc 100)) (Some 20454)
        None (Some jan_1).

Definition row_no_customer : Row :=
  mkRow (Some "t5") None (Some "p1") (Some (Q2Qc 100)) (Some 20454)
        (Some "SUCCESS") (Some jan_1).

Definition products : gset string := {[ "p1" ]}.

(** The frame of tests/test_ingest.py: two columns only. *)
Definition ingest_columns : list string := ["transaction_id"; "updated_at"].

Definition row_i1 : Row := mkRow (Some "t1") None None None None None (Some jan_1).
Definition row_i2 : Row := mkRow (Some "t2") None None None None None (Some jan_2).

(** A landing directory with one batch that repeats a key, and one with two
    batches and a file that is not a batch. *)
Definition dir_one_batch : gmap string DataFrame :=
  {[ "a.csv" := mkDF schema [row_dup_first; row_dup_second] ]}.

Definition dir_two_batches : gmap string DataFrame :=
  <[ "b.csv" := mkDF schema [row_t2; row_dup_second] ]>
    (<[ "notes.txt" := mkDF [] [] ]>
       {[ "a.csv" := mkDF schema [row_t1; row_dup_first] ]}).

End Samples.

(** Stores for the runs of the scripts. *)
Module RunSamples.

Definition db_new : Store.DB := Store.mkDB None None None ∅.

Definition db_staged : Store.DB :=
  Store.mkDB (Some (mkDF Samples.schema [Samples.row_t1])) (Some ["p1"]) None ∅.

(** One batch, with the staged row and a newer one. *)
Definition dir_next : gmap string DataFrame :=
  {[ "a.csv" := mkDF Samples.schema [Samples.row_t1; Samples.row_t2] ]}.

(** The first copy of the repeated key is staged. *)
Definition db_first_copy : Store.DB :=
  Store.mkDB (Some (mkDF Samples.schema [Samples.row_dup_first])) None None ∅.

End RunSamples.

(** * Properties *)

(** ** Keys and duplicates *)

Lemma occurrences_cons k r l :
  occurrences k (r :: l) =
  if decide (transaction_id r = k) then r :: occurrences k l else occurrences k l.
Proof. unfold occurrences. rewrite filter_cons. reflexivity. Qed.

Lemma occurrences_drop_duplicates_from k seen l :
  occurrences k (drop_duplicates_from seen l) =
  if bool_decide (k ∈ seen) then [] else take 1 (occurrences k l).
Proof.
  revert seen. induction l as [|r l IH]; intros seen; simpl.
  - destruct (bool_decide (k ∈ seen)); reflexivity.
  - rewrite (occurrences_cons k r l).
    destruct (bool_decide (transaction_id r ∈ seen)) eqn:Hseen.
    + apply bool_decide_eq_true in Hseen. rewrite IH.
      destruct (decide (transaction_id r = k)) as [Heq|Hne]; [subst k|reflexivity].
      rewrite bool_decide_eq_true_2 by assumption. reflexivity.
    + apply bool_decide_eq_false in Hseen.
      rewrite occurrences_cons, IH.
      destruct (decide (transaction_id r = k)) as [Heq|Hne].
      * subst k. rewrite bool_decide_eq_true_2 by (left; reflexivity).
        rewrite bool_decide_eq_false_2 by assumption. reflexivity.
      * destruct (decide (k ∈ seen)) as [Hin|Hnin].
        -- rewrite !bool_decide_eq_true_2; [reflexivity|assumption|right; assumption].
        -- rewrite !bool_decide_eq_false_2; [reflexivity|assumption|].
           intros [?|?]%elem_of_cons; congruence.
Qed.

Lemma occurrences_drop_duplicates k l :
  occurrences k (drop_duplicates l) = take 1 (occurrences k l).
Proof. apply (occurrences_drop_duplicates_from k [] l). Qed.

Lemma occurrences_key k l r : r ∈ occurrences k l → transaction_id r = k ∧ r ∈ l.
Proof. unfold occurrences. rewrite list_elem_of_filter. tauto. Qed.

Lemma elem_of_occurrences l r : r ∈ l → r ∈ occurrences (transaction_id r) l.
Proof. intros H. unfold occurrences. apply list_elem_of_filter. split; [reflexivity|assumption]. Qed.

Lemma NoDup_occurrences l :
  NoDup (transaction_id <$> l) ↔ ∀ k, (length (occurrences k l) ≤ 1)%nat.
Proof.
  induction l as [|r l IH]; simpl.
  - split; [intros _ k; simpl; lia | intros _; constructor].
  - rewrite NoDup_cons, IH. split.
    + intros [Hnin Hall] k. rewrite occurrences_cons.
      destruct (decide (transaction_id r = k)) as [Heq|Hne]; [subst k|apply Hall].
      destruct (occurrences (transaction_id r) l) as [|x xs] eqn:Hocc; [simpl; lia|].
      exfalso. apply Hnin.
      assert (Hx : x ∈ occurrences (transaction_id r) l) by (rewrite Hocc; left).
      apply occurrences_key in Hx as [Hk Hx]. rewrite <- Hk.
      apply list_elem_of_fmap. eauto.
    + intros Hall. split.
      * intros (x & Hk & Hx)%list_elem_of_fmap.
        specialize (Hall (transaction_id r)). rewrite occurrences_cons in Hall.
        rewrite decide_True in Hall by reflexivity. simpl in Hall.
        apply elem_of_occurrences in Hx. rewrite <- Hk in Hx.
        destruct (occurrences (transaction_id r) l); [inversion Hx | simpl in Hall; lia].
      * intros k. specialize (Hall k). rewrite occurrences_cons in Hall.
        destruct (decide (transaction_id r = k)); simpl in Hall; lia.
Qed.

Lemma NoDup_drop_duplicates l : NoDup (transaction_id <$> drop_duplicates l).
Proof.
  apply NoDup_occurrences. intros k. rewrite occurrences_drop_duplicates.
  rewrite length_take. lia.
Qed.

Lemma drop_duplicates_from_sublist seen l : drop_duplicates_from seen l `sublist_of` l.
Proof.
  revert seen. induction l as [|r l IH]; intros seen; simpl; [constructor|].
  destruct (bool_decide (transaction_id r ∈ seen)).
  - apply sublist_cons, IH.
  - apply sublist_skip, IH.
Qed.

Lemma drop_duplicates_from_NoDup seen l :
  NoDup (transaction_id <$> l) →
  (∀ r, r ∈ l → transaction_id r ∉ seen) →
  drop_duplicates_from seen l = l.
Proof.
  revert seen. induction l as [|r l IH]; intros seen Hnd Hseen; [reflexivity|].
  rewrite fmap_cons in Hnd. apply NoDup_cons in Hnd as [Hr Hnd]. simpl.
  rewrite bool_decide_eq_false_2 by (apply Hseen; left).
  f_equal. apply IH; [exact Hnd|].
  intros x Hx [Heq|Hin]%elem_of_cons.
  - apply Hr. rewrite <- Heq. apply list_elem_of_fmap. eauto.
  - apply (Hseen x); [right|]; assumption.
Qed.

Lemma drop_duplicates_NoDup l :
  NoDup (transaction_id <$> l) → drop_duplicates l = l.
Proof.
  intros Hnd. apply drop_duplicates_from_NoDup; [exact Hnd|].
  intros r _ Hin. inversion Hin.
Qed.

(** ** Masks *)

Section Masks.
Context {A : Type}.
Implicit Types (P Q : A → Prop) (l : list A).

Lemma filter_ext_in P Q `{!∀ x, Decision (P x), !∀ x, Decision (Q x)} l :
  (∀ x, x ∈ l → P x ↔ Q x) → filter P l = filter Q l.
Proof.
  induction l as [|x l IH]; intros Hl; [reflexivity|].
  rewrite !filter_cons.
  rewrite IH by (intros y Hy; apply Hl; right; assumption).
  destruct (decide (P x)) as [HP|HP], (decide (Q x)) as [HQ|HQ]; try reflexivity.
  - exfalso. apply HQ, Hl; [left|assumption].
  - exfalso. apply HP, Hl; [left|assumption].
Qed.

Lemma filter_comm P Q `{!∀ x, Decision (P x), !∀ x, Decision (Q x)} l :
  filter P (filter Q l) = filter Q (filter P l).
Proof. rewrite !list_filter_filter. apply list_filter_iff. tauto. Qed.

Lemma filter_all P `{!∀ x, Decision (P x)} l :
  (∀ x, x ∈ l → P x) → filter P l = l.
Proof.
  induction l as [|x l IH]; intros Hl; [reflexivity|].
  rewrite filter_cons_True by (apply Hl; left).
  f_equal. apply IH. intros y Hy. apply Hl. right. assumption.
Qed.

Lemma filter_none P `{!∀ x, Decision (P x)} l :
  (∀ x, x ∈ l → ¬ P x) → filter P l = [].
Proof.
  induction l as [|x l IH]; intros Hl; [reflexivity|].
  rewrite filter_cons_False by (apply Hl; left).
  apply IH. intros y Hy. apply Hl. right. assumption.
Qed.
End Masks.

(** ** The rule chain *)

Module ChainFacts.
Import DataQuality.

Lemma run_chain_cons p ch st :
  run_chain (p :: ch) st = run_chain ch (removal_pass p st).
Proof. reflexivity. Qed.

(** Running the blocks one after the other keeps the rows that pass every
    rule and appends [chain_errors]. *)
Lemma run_chain_spec ch valid errors :
  run_chain ch (valid, errors) =
  (filter (λ r, passes ch r) valid, errors ++ chain_errors ch valid).
Proof.
  revert valid errors. induction ch as [|p ch IH]; intros valid errors.
  - simpl. rewrite app_nil_r. f_equal. symmetry. apply filter_all. intros; exact I.
  - rewrite run_chain_cons. unfold removal_pass. rewrite IH. simpl chain_errors.
    rewrite <- app_assoc. f_equal.
    rewrite list_filter_filter. apply list_filter_iff. intros r. simpl.
    destruct (keep p r), (forallb (λ p0, keep p0 r) ch); simpl; tauto.
Qed.

Lemma chain_errors_nil ch : chain_errors ch [] = [].
Proof. induction ch as [|p ch IH]; [reflexivity|]. simpl. exact IH. Qed.

Lemma entries_fmap_key k (msg : string) (l : list Row) :
  filter (λ e : option string * string, e.1 = k) ((λ r, (transaction_id r, msg)) <$> l)
  = (λ r, (transaction_id r, msg)) <$> occurrences k l.
Proof.
  induction l as [|r l IH]; [reflexivity|].
  rewrite fmap_cons, filter_cons, occurrences_cons. simpl.
  destruct (decide (transaction_id r = k)); rewrite IH; reflexivity.
Qed.

(** The entries for one key come from the candidates with that key. *)
Lemma chain_errors_key k ch l :
  filter (λ e : option string * string, e.1 = k) (chain_errors ch l)
  = chain_errors ch (occurrences k l).
Proof.
  revert l. induction ch as [|p ch IH]; intros l; [reflexivity|].
  simpl. rewrite filter_app, entries_fmap_key, IH.
  unfold occurrences. rewrite !(filter_comm (λ r, transaction_id r = k)). reflexivity.
Qed.

Lemma chain_errors_key_only k ch l e :
  e ∈ chain_errors ch (occurrences k l) → e.1 = k.
Proof.
  rewrite <- chain_errors_key. rewrite list_elem_of_filter. tauto.
Qed.

(** One candidate, one rule whose masks are complementary on it. *)
Lemma chain_errors_step p ch r :
  reject p r = negb (keep p r) →
  chain_errors (p :: ch) [r] =
  if keep p r then chain_errors ch [r] else [(transaction_id r, reason p)].
Proof.
  intros Hc. simpl. rewrite !filter_cons, !filter_nil. rewrite Hc.
  destruct (keep p r); simpl.
  - reflexivity.
  - rewrite chain_errors_nil. reflexivity.
Qed.

Lemma earliest_violation_cons p ch r :
  earliest_violation (p :: ch) r =
  if keep p r then earliest_violation ch r else Some (reason p).
Proof.
  unfold earliest_violation, violates. simpl. destruct (keep p r); reflexivity.
Qed.

Lemma passes_cons p ch r : passes (p :: ch) r = keep p r && passes ch r.
Proof. reflexivity. Qed.

End ChainFacts.

(** ** The quality gate *)

Module GateFacts.
Import DataQuality ChainFacts.

Lemma earliest_violation_None ch r :
  earliest_violation ch r = None ↔ passes ch r = true.
Proof.
  induction ch as [|p ch IH]; [simpl; tauto|].
  rewrite earliest_violation_cons, passes_cons.
  destruct (keep p r); simpl; [exact IH | split; discriminate].
Qed.

Lemma chain_errors_app ch1 ch2 l :
  chain_errors (ch1 ++ ch2) l =
  chain_errors ch1 l ++ chain_errors ch2 (filter (λ r, passes ch1 r) l).
Proof.
  revert l. induction ch1 as [|p ch1 IH]; intros l; simpl.
  - f_equal. symmetry. apply filter_all. intros; exact I.
  - rewrite IH, <- app_assoc. do 3 f_equal.
    rewrite list_filter_filter. apply list_filter_iff. intros r.
    destruct (keep p r), (forallb (λ p0, keep p0 r) ch1); simpl; tauto.
Qed.

Lemma chain_errors_origin ch l e :
  e ∈ chain_errors ch l → ∃ r, r ∈ l ∧ e.1 = transaction_id r.
Proof.
  revert l. induction ch as [|p ch IH]; intros l; simpl; [inversion 1|].
  rewrite elem_of_app. intros [Hin|Hin].
  - apply list_elem_of_fmap in Hin as (r & -> & Hr).
    apply list_elem_of_filter in Hr as [_ Hr]. eauto.
  - apply IH in Hin as (r & Hr & He).
    apply list_elem_of_filter in Hr as [_ Hr]. eauto.
Qed.

Lemma amount_masks_complementary r :
  amount r ≠ None → amount_le_0 r = negb (amount_gt_0 r).
Proof.
  unfold amount_le_0, amount_gt_0. destruct (amount r) as [a|]; [intros _|congruence].
  destruct (decide (a <= 0)%Qc) as [Hle|Hgt].
  - rewrite bool_decide_eq_true_2 by assumption.
    rewrite bool_decide_eq_false_2; [reflexivity|]. apply Qcle_not_lt. assumption.
  - rewrite bool_decide_eq_false_2 by assumption.
    rewrite bool_decide_eq_true_2; [reflexivity|]. apply Qcnot_le_lt. assumption.
Qed.

Lemma amount_masks_disjoint r : amount_le_0 r = true → amount_gt_0 r = false.
Proof.
  unfold amount_le_0, amount_gt_0. destruct (amount r) as [a|]; [|discriminate].
  intros Hle%bool_decide_eq_true. apply bool_decide_eq_false.
  apply Qcle_not_lt. assumption.
Qed.

Lemma not_null_masks_complementary col r :
  reject (not_null_check col) r = negb (keep (not_null_check col) r).
Proof. cbn [reject keep not_null_check]. unfold notnull. symmetry. apply negb_involutive. Qed.

Lemma notnull_amount r : notnull "amount" r = true → amount r ≠ None.
Proof.
  unfold notnull, isnull. simpl. intros H Hn. rewrite Hn in H. discriminate.
Qed.

(** On one candidate the chain of the function reports the earliest rule
    that the candidate violates, and nothing else. *)
Lemma rule_chain_errors products_set r :
  chain_errors (rule_chain products_set) [r] =
  match earliest_violation (rule_chain products_set) r with
  | Some msg => [(transaction_id r, msg)]
  | None => []
  end.
Proof.
  unfold rule_chain, NOT_NULL_COLUMNS.
  cbn [fmap list_fmap app].
  repeat (rewrite chain_errors_step, earliest_violation_cons
            by apply not_null_masks_complementary;
          match goal with
          | |- context [keep (not_null_check ?c) r] =>
              destruct (keep (not_null_check c) r) eqn:?; [|reflexivity]
          end).
  rewrite chain_errors_step, earliest_violation_cons
    by (apply amount_masks_complementary, notnull_amount; assumption).
  destruct (keep amount_check r); [|reflexivity].
  rewrite chain_errors_step, earliest_violation_cons by reflexivity.
  destruct (keep status_check r); [|reflexivity].
  destruct (bool_decide (products_set = ∅)); [reflexivity|].
  rewrite chain_errors_step, earliest_violation_cons by reflexivity.
  destruct (keep (product_check products_set) r); reflexivity.
Qed.

(** The blocks after the duplicate block are the rule chain. *)
Lemma checks_are_rule_chain products_set st :
  referential_check products_set
    (removal_pass status_check (removal_pass amount_check (not_null_checks st)))
  = run_chain (rule_chain products_set) st.
Proof.
  unfold rule_chain, run_chain, referential_check, not_null_checks.
  rewrite !foldl_app. simpl.
  destruct (bool_decide (products_set = ∅)); reflexivity.
Qed.

(** What the function returns on a frame that has the expected columns. *)
Lemma apply_data_quality_checks_Ok now df products_set :
  first_missing (columns df) EXPECTED_COLUMNS = None →
  let l := normalize_status <$> rows df in
  apply_data_quality_checks now df products_set =
  Ok (mkDF (columns df) (filter (λ r, passes (rule_chain products_set) r) (drop_duplicates l)),
      error_frame now
        (duplicate_entries l ++ chain_errors (rule_chain products_set) (drop_duplicates l))).
Proof.
  intros Hs l. unfold apply_data_quality_checks. rewrite Hs.
  rewrite checks_are_rule_chain. unfold duplicate_check. fold l.
  rewrite run_chain_spec. reflexivity.
Qed.

Lemma chain_errors_length_app ch l1 l2 :
  length (chain_errors ch (l1 ++ l2)) =
  (length (chain_errors ch l1) + length (chain_errors ch l2))%nat.
Proof.
  revert l1 l2. induction ch as [|p ch IH]; intros l1 l2; [reflexivity|].
  cbn [chain_errors]. rewrite !filter_app, fmap_app, !length_app, IH. lia.
Qed.

(** Every candidate is kept by the chain or reported by it, once. *)
Lemma rule_chain_count products_set l :
  (length (filter (λ r, passes (rule_chain products_set) r) l) +
   length (chain_errors (rule_chain products_set) l))%nat = length l.
Proof.
  induction l as [|r l IH]; [simpl; rewrite chain_errors_nil; reflexivity|].
  change (r :: l) with ([r] ++ l) at 2.
  rewrite chain_errors_length_app, rule_chain_errors, filter_cons.
  pose proof (earliest_violation_None (rule_chain products_set) r) as Hev.
  destruct (earliest_violation (rule_chain products_set) r) as [msg|].
  - destruct (passes (rule_chain products_set) r).
    + destruct Hev as [_ Hev]. specialize (Hev eq_refl). discriminate.
    + rewrite decide_False by (intros []). cbn [length]. lia.
  - destruct Hev as [Hev _]. rewrite (Hev eq_refl).
    rewrite decide_True by exact I. cbn [length]. lia.
Qed.

Lemma duplicate_entries_NoDup l :
  NoDup (transaction_id <$> l) → duplicate_entries l = [].
Proof.
  intros Hnd. unfold duplicate_entries. rewrite filter_none; [reflexivity|].
  intros r _ Hdup. unfold duplicated in Hdup. apply bool_decide_unpack in Hdup.
  apply NoDup_occurrences with (k := transaction_id r) in Hnd. lia.
Qed.

Lemma normalize_status_keys (l : list Row) :
  transaction_id <$> (normalize_status <$> l) = transaction_id <$> l.
Proof. rewrite <- list_fmap_compose. reflexivity. Qed.

End GateFacts.

(** ** The gate, key by key *)

Module KeyFacts.
Import DataQuality ChainFacts GateFacts.

Lemma occurrences_normalize k l :
  occurrences k (normalize_status <$> l) = normalize_status <$> occurrences k l.
Proof.
  induction l as [|r l IH]; [reflexivity|].
  rewrite fmap_cons, !occurrences_cons. simpl.
  destruct (decide (transaction_id r = k)); rewrite IH; reflexivity.
Qed.

Lemma entries_of_error_frame k now errors :
  entries_of k (error_frame now errors) =
  error_frame now (filter (λ e : option string * string, e.1 = k) errors).
Proof.
  unfold entries_of, error_frame.
  induction errors as [|e errors IH]; [reflexivity|].
  rewrite fmap_cons, !filter_cons. simpl.
  destruct (decide (e.1 = k)); rewrite IH; reflexivity.
Qed.

Lemma key_entries_replicate k (msg : string) l :
  (λ r, (transaction_id r, msg)) <$> occurrences k l
  = replicate (length (occurrences k l)) (k, msg).
Proof.
  induction l as [|r l IH]; [reflexivity|].
  rewrite occurrences_cons.
  destruct (decide (transaction_id r = k)) as [Hk|Hk]; [|exact IH].
  rewrite fmap_cons, IH, Hk. reflexivity.
Qed.

(** The duplicate block reports every row of a key that occurs more than once,
    and no row of a key that occurs once. *)
Lemma duplicate_entries_key k l :
  filter (λ e : option string * string, e.1 = k) (duplicate_entries l) =
  if bool_decide (1 < length (occurrences k l))%nat
  then replicate (length (occurrences k l)) (k, "Duplicate transaction_id")
  else [].
Proof.
  unfold duplicate_entries. rewrite entries_fmap_key.
  unfold occurrences at 1. rewrite filter_comm. fold (occurrences k l).
  destruct (bool_decide (1 < length (occurrences k l))%nat) eqn:Hn.
  - rewrite filter_all; [apply key_entries_replicate|].
    intros r [Hk _]%occurrences_key. unfold duplicated. rewrite Hk, Hn. exact I.
  - rewrite filter_none; [reflexivity|].
    intros r [Hk _]%occurrences_key. unfold duplicated. rewrite Hk, Hn. simpl. tauto.
Qed.

Lemma take_1_head {A} (l : list A) :
  take 1 l = match head l with Some x => [x] | None => [] end.
Proof. destruct l; reflexivity. Qed.

(** The accepted rows of one key: the first-seen row, when it passes. *)
Lemma gate_valid_key products_set k l :
  occurrences k
    (filter (λ r, passes (rule_chain products_set) r)
            (drop_duplicates (normalize_status <$> l)))
  = match head (occurrences k l) with
    | Some r =>
        if passes (rule_chain products_set) (normalize_status r)
        then [normalize_status r] else []
    | None => []
    end.
Proof.
  unfold occurrences at 1. rewrite filter_comm. fold (occurrences k (drop_duplicates (normalize_status <$> l))).
  rewrite occurrences_drop_duplicates, occurrences_normalize.
  destruct (occurrences k l) as [|r occ]; [reflexivity|].
  rewrite fmap_cons. cbn [take head]. rewrite take_0, filter_cons, filter_nil.
  destruct (passes (rule_chain products_set) (normalize_status r)); reflexivity.
Qed.

(** The entries of one key: one per row when the key is repeated, then the
    earliest rule that the first-seen row violates. *)
Lemma gate_errors_key now products_set k l :
  entries_of k
    (error_frame now
       (duplicate_entries (normalize_status <$> l) ++
        chain_errors (rule_chain products_set) (drop_duplicates (normalize_status <$> l))))
  = (if bool_decide (1 < length (occurrences k l))%nat
     then replicate (length (occurrences k l)) (mkErr k "Duplicate transaction_id" now)
     else []) ++
    match head (occurrences k l) with
    | Some r =>
        match earliest_violation (rule_chain products_set) (normalize_status r) with
        | Some msg => [mkErr k msg now]
        | None => []
        end
    | None => []
    end.
Proof.
  rewrite entries_of_error_frame, filter_app, duplicate_entries_key, chain_errors_key.
  rewrite occurrences_drop_duplicates, occurrences_normalize, length_fmap.
  unfold error_frame. rewrite fmap_app. f_equal.
  - destruct (bool_decide (1 < length (occurrences k l))%nat); [|reflexivity].
    rewrite fmap_replicate. reflexivity.
  - destruct (occurrences k l) as [|r occ] eqn:Hocc.
    + simpl. rewrite chain_errors_nil. reflexivity.
    + rewrite fmap_cons. cbn [take head]. rewrite take_0, rule_chain_errors.
      assert (Hk : transaction_id r = k).
      { apply (occurrences_key k l r). rewrite Hocc. left. }
      destruct (earliest_violation _ _); simpl; [rewrite Hk|]; reflexivity.
Qed.

Lemma elem_of_drop_duplicates l r : r ∈ drop_duplicates l → r ∈ l.
Proof.
  intros Hr. apply elem_of_occurrences in Hr.
  rewrite occurrences_drop_duplicates in Hr.
  apply (subseteq_take 1) in Hr.
  apply occurrences_key in Hr. tauto.
Qed.

End KeyFacts.

(** ** Claims on the quality gate *)

Module Gate.
Import DataQuality ChainFacts GateFacts KeyFacts.

Lemma first_missing_None cols expected :
  first_missing cols expected = None ↔ expected ⊆ cols.
Proof.
  induction expected as [|c expected IH]; simpl.
  - split; [intros _ x Hx; inversion Hx | reflexivity].
  - destruct (decide (c ∈ cols)) as [Hc|Hc].
    + rewrite bool_decide_eq_true_2 by assumption. rewrite IH. split.
      * intros Hsub x [->|Hx]%elem_of_cons; [assumption | apply Hsub, Hx].
      * intros Hsub x Hx. apply Hsub. right. assumption.
    + rewrite bool_decide_eq_false_2 by assumption. split; [discriminate|].
      intros Hsub. exfalso. apply Hc, Hsub. left.
Qed.

Lemma first_missing_Some cols expected c :
  first_missing cols expected = Some c → c ∈ expected ∧ c ∉ cols.
Proof.
  induction expected as [|c' expected IH]; simpl; [discriminate|].
  destruct (decide (c' ∈ cols)) as [Hc|Hc].
  - rewrite bool_decide_eq_true_2 by assumption.
    intros [? ?]%IH. split; [right|]; assumption.
  - rewrite bool_decide_eq_false_2 by assumption.
    intros [= <-]. split; [left | assumption].
Qed.

Lemma gate_Ok now df products_set :
  EXPECTED_COLUMNS ⊆ columns df →
  apply_data_quality_checks now df products_set =
  Ok (mkDF (columns df)
           (filter (λ r, passes (rule_chain products_set) r)
                   (drop_duplicates (normalize_status <$> rows df))),
      error_frame now
        (duplicate_entries (normalize_status <$> rows df) ++
         chain_errors (rule_chain products_set)
                      (drop_duplicates (normalize_status <$> rows df)))).
Proof.
  intros Hs. apply apply_data_quality_checks_Ok, first_missing_None, Hs.
Qed.

(** C8.  When a column of [EXPECTED_COLUMNS] is absent from the frame, the
    function raises [ValueError] for the first absent column, whatever the
    rows are: it returns no accepted frame and no error frame. *)
Theorem missing_column_aborts now df products_set c :
  c ∈ EXPECTED_COLUMNS → c ∉ columns df →
  (∃ col, col ∈ EXPECTED_COLUMNS ∧ (col ∉ columns df) ∧
     apply_data_quality_checks now df products_set
     = Raise (ValueError ("Missing required column: " +:+ col))) ∧
  (∀ valid errors,
     apply_data_quality_checks now df products_set ≠ Ok (valid, errors)).
Proof.
  intros Hc Hmiss. unfold apply_data_quality_checks.
  destruct (first_missing (columns df) EXPECTED_COLUMNS) as [col|] eqn:Hfm.
  - apply first_missing_Some in Hfm as [Hin Hnin]. split; [eauto|discriminate].
  - exfalso. apply first_missing_None in Hfm. apply Hmiss, Hfm, Hc.
Qed.

Lemma missing_column_aborts_witness :
  (∃ col, col ∈ EXPECTED_COLUMNS ∧ (col ∉ Samples.ingest_columns) ∧
     apply_data_quality_checks 0 (mkDF Samples.ingest_columns [Samples.row_i1])
       Samples.products
     = Raise (ValueError ("Missing required column: " +:+ col))) ∧
  (∀ valid errors,
     apply_data_quality_checks 0 (mkDF Samples.ingest_columns [Samples.row_i1])
       Samples.products ≠ Ok (valid, errors)).
Proof.
  apply (missing_column_aborts 0 (mkDF Samples.ingest_columns [Samples.row_i1])
           Samples.products "customer_id").
  - apply (bool_decide_unpack _). vm_compute. exact I.
  - apply (bool_decide_unpack _). vm_compute. exact I.
Defined.

(** The outcome of the gate, key by key. *)
Lemma gate_by_key now df products_set :
  EXPECTED_COLUMNS ⊆ columns df →
  ∃ valid errors,
    apply_data_quality_checks now df products_set = Ok (valid, errors) ∧
    rows valid = filter (λ r, passes (rule_chain products_set) r)
                        (drop_duplicates (normalize_status <$> rows df)) ∧
    errors = error_frame now
               (duplicate_entries (normalize_status <$> rows df) ++
                chain_errors (rule_chain products_set)
                             (drop_duplicates (normalize_status <$> rows df))) ∧
    ∀ k,
      occurrences k (rows valid) =
        match head (occurrences k (rows df)) with
        | Some r =>
            if passes (rule_chain products_set) (normalize_status r)
            then [normalize_status r] else []
        | None => []
        end ∧
      entries_of k errors =
        (if bool_decide (1 < length (occurrences k (rows df)))%nat
         then replicate (length (occurrences k (rows df)))
                        (mkErr k "Duplicate transaction_id" now)
         else []) ++
        match head (occurrences k (rows df)) with
        | Some r =>
            match earliest_violation (rule_chain products_set) (normalize_status r) with
            | Some msg => [mkErr k msg now]
            | None => []
            end
        | None => []
        end.
Proof.
  intros Hs. eexists _, _. split; [apply gate_Ok, Hs|].
  cbn [rows]. split; [reflexivity|]. split; [reflexivity|]. intros k. split.
  - apply gate_valid_key.
  - apply gate_errors_key.
Qed.

Lemma entries_of_elem k errors e :
  e ∈ entries_of k errors ↔ err_transaction_id e = k ∧ e ∈ errors.
Proof. unfold entries_of. rewrite list_elem_of_filter. reflexivity. Qed.

Lemma occurrences_single l r :
  r ∈ l → (length (occurrences (transaction_id r) l) ≤ 1)%nat →
  occurrences (transaction_id r) l = [r].
Proof.
  intros Hr Hlen. apply elem_of_occurrences in Hr.
  destruct (occurrences (transaction_id r) l) as [|x [|y occ]]; simpl in Hlen.
  - inversion Hr.
  - apply list_elem_of_singleton in Hr. congruence.
  - lia.
Qed.

(** C3, as the code has it.  The entries of a key are: one
    "Duplicate transaction_id" entry per row when the key occurs more than
    once, followed by at most one entry, with the reason of the earliest rule
    of the chain that the first-seen row of the key violates.  A record whose
    key occurs once has at most one entry, with that reason. *)
Theorem rejection_entries_by_key now df products_set k :
  EXPECTED_COLUMNS ⊆ columns df →
  ∃ valid errors,
    apply_data_quality_checks now df products_set = Ok (valid, errors) ∧
    entries_of k errors =
      (if bool_decide (1 < length (occurrences k (rows df)))%nat
       then replicate (length (occurrences k (rows df)))
                      (mkErr k "Duplicate transaction_id" now)
       else []) ++
      match head (occurrences k (rows df)) with
      | Some r =>
          match earliest_violation (rule_chain products_set) (normalize_status r) with
          | Some msg => [mkErr k msg now]
          | None => []
          end
      | None => []
      end ∧
    ∀ r, occurrences k (rows df) = [r] →
      entries_of k errors =
        match earliest_violation (rule_chain products_set) (normalize_status r) with
        | Some msg => [mkErr k msg now]
        | None => []
        end.
Proof.
  intros Hs. destruct (gate_by_key now df products_set Hs) as (valid & errors & Hrun & _ & _ & Hk).
  exists valid, errors. split; [exact Hrun|].
  destruct (Hk k) as [_ He]. split; [exact He|].
  intros r Hocc. rewrite He, Hocc. reflexivity.
Qed.

(** C1, as the code has it.  When a key occurs more than once, every one of
    its rows gets a "Duplicate transaction_id" entry, and the first-seen row
    stays a candidate: it is the only row of the key that can be accepted, and
    it is accepted exactly when it passes the rules that follow. *)
Theorem duplicates_reported_first_kept now df products_set k :
  EXPECTED_COLUMNS ⊆ columns df →
  (1 < length (occurrences k (rows df)))%nat →
  ∃ valid errors first,
    apply_data_quality_checks now df products_set = Ok (valid, errors) ∧
    head (occurrences k (rows df)) = Some first ∧
    (∃ rest,
       entries_of k errors =
         replicate (length (occurrences k (rows df)))
                   (mkErr k "Duplicate transaction_id" now) ++ rest ∧
       (length rest ≤ 1)%nat) ∧
    occurrences k (rows valid) =
      if passes (rule_chain products_set) (normalize_status first)
      then [normalize_status first] else [].
Proof.
  intros Hs Hn. destruct (gate_by_key now df products_set Hs) as (valid & errors & Hrun & _ & _ & Hk).
  destruct (Hk k) as [Hv He].
  destruct (occurrences k (rows df)) as [|first occ] eqn:Hocc; [simpl in Hn; lia|].
  exists valid, errors, first. split; [exact Hrun|]. split; [reflexivity|].
  split; [|exact Hv].
  rewrite bool_decide_eq_true_2 in He by exact Hn.
  eexists. split; [exact He|].
  simpl. destruct (earliest_violation _ _); simpl; lia.
Qed.

(** C2, as the code has it.  Every input record is accepted or has an entry in
    the error frame, the accepted rows and the entries come from input
    records only, and a record is both accepted and rejected only when its key
    occurs more than once: on an input with pairwise distinct keys the two
    outputs partition the input, and their sizes add up to its size. *)
Theorem gate_partition now df products_set :
  EXPECTED_COLUMNS ⊆ columns df →
  ∃ valid errors,
    apply_data_quality_checks now df products_set = Ok (valid, errors) ∧
    (∀ r, r ∈ rows df → accepted valid r ∨ rejected errors r) ∧
    (∀ v, v ∈ rows valid → ∃ r, r ∈ rows df ∧ v = normalize_status r) ∧
    (∀ e, e ∈ errors → ∃ r, r ∈ rows df ∧ err_transaction_id e = transaction_id r) ∧
    (∀ r, r ∈ rows df → accepted valid r → rejected errors r →
       (1 < length (occurrences (transaction_id r) (rows df)))%nat) ∧
    (NoDup (transaction_id <$> rows df) →
       (∀ r, r ∈ rows df → ¬ (accepted valid r ∧ rejected errors r)) ∧
       (length (rows valid) + length errors)%nat = length (rows df)).
Proof.
  intros Hs.
  destruct (gate_by_key now df products_set Hs) as (valid & errors & Hrun & Hrows & Herrs & Hk).
  assert (Hboth : ∀ r, r ∈ rows df → accepted valid r → rejected errors r →
            (1 < length (occurrences (transaction_id r) (rows df)))%nat).
  { intros r Hr Hacc (e & He & Hke).
    destruct (decide (1 < length (occurrences (transaction_id r) (rows df)))%nat)
      as [|Hle]; [assumption|exfalso].
    assert (Hocc := occurrences_single (rows df) r Hr ltac:(lia)).
    destruct (Hk (transaction_id r)) as [_ Hent].
    rewrite Hocc in Hent. cbn [head length] in Hent.
    rewrite bool_decide_eq_false_2 in Hent by lia.
    unfold accepted in Hacc. rewrite Hrows in Hacc.
    apply list_elem_of_filter in Hacc as [Hp _].
    apply Is_true_true, earliest_violation_None in Hp. rewrite Hp in Hent.
    assert (Hin : e ∈ entries_of (transaction_id r) errors)
      by (apply entries_of_elem; split; assumption).
    rewrite Hent in Hin. inversion Hin. }
  exists valid, errors. split; [exact Hrun|].
  split; [|split; [|split; [|split]]].
  - intros r Hr. destruct (Hk (transaction_id r)) as [Hv He].
    destruct (decide (1 < length (occurrences (transaction_id r) (rows df)))%nat)
      as [Hn|Hn].
    + right. rewrite bool_decide_eq_true_2 in He by exact Hn.
      destruct (length (occurrences (transaction_id r) (rows df))) as [|n];
        [lia|].
      exists (mkErr (transaction_id r) "Duplicate transaction_id" now).
      split; [|reflexivity].
      apply (entries_of_elem (transaction_id r)). rewrite He. left.
    + assert (Hocc := occurrences_single (rows df) r Hr ltac:(lia)).
      rewrite Hocc in Hv, He. cbn [head length] in Hv, He.
      destruct (passes (rule_chain products_set) (normalize_status r)) eqn:Hp.
      * left. unfold accepted.
        apply (occurrences_key (transaction_id r)). rewrite Hv. left.
      * right.
        destruct (earliest_violation (rule_chain products_set) (normalize_status r))
          as [msg|] eqn:Hev.
        -- exists (mkErr (transaction_id r) msg now). split; [|reflexivity].
           apply (entries_of_elem (transaction_id r)). rewrite He.
           apply elem_of_app. right. left.
        -- apply earliest_violation_None in Hev. congruence.
  - intros v Hv. rewrite Hrows in Hv.
    apply list_elem_of_filter in Hv as [_ Hv]. apply elem_of_drop_duplicates in Hv.
    apply list_elem_of_fmap in Hv as (r & -> & Hr). eauto.
  - intros e He. rewrite Herrs in He.
    apply list_elem_of_fmap in He as ([k msg] & -> & He). cbn [err_transaction_id fst].
    apply elem_of_app in He as [He|He].
    + apply list_elem_of_fmap in He as (v & [= -> _] & Hv).
      apply list_elem_of_filter in Hv as [_ Hv].
      apply list_elem_of_fmap in Hv as (r & -> & Hr). eauto.
    + apply chain_errors_origin in He as (v & Hv & Hkv). simpl in Hkv.
      apply elem_of_drop_duplicates in Hv.
      apply list_elem_of_fmap in Hv as (r & -> & Hr). eauto.
  - exact Hboth.
  - intros Hnd. split.
    + intros r Hr [Hacc Hrej].
      specialize (Hboth r Hr Hacc Hrej).
      apply NoDup_occurrences with (k := transaction_id r) in Hnd. lia.
    + rewrite Hrows, Herrs. unfold error_frame. rewrite length_fmap.
      rewrite <- normalize_status_keys in Hnd.
      rewrite (duplicate_entries_NoDup _ Hnd), (drop_duplicates_NoDup _ Hnd), app_nil_l.
      rewrite rule_chain_count, length_fmap. reflexivity.
Qed.

Lemma not_null_prefix_chain st pre :
  foldl (λ st c, removal_pass (not_null_check c) st) st pre
  = run_chain (not_null_check <$> pre) st.
Proof.
  revert st. induction pre as [|c pre IH]; intros st; [reflexivity|].
  simpl. rewrite IH. reflexivity.
Qed.

Lemma passes_app ch1 ch2 r : passes (ch1 ++ ch2) r = passes ch1 r && passes ch2 r.
Proof. unfold passes. apply forallb_app. Qed.

Lemma passes_not_null products_set v c :
  passes (rule_chain products_set) v = true → c ∈ NOT_NULL_COLUMNS → isnull c v = false.
Proof.
  unfold rule_chain. rewrite passes_app. intros [Hp _]%andb_true_iff Hc.
  unfold passes in Hp. rewrite forallb_forall in Hp.
  specialize (Hp (not_null_check c)).
  cbn [keep not_null_check] in Hp. unfold notnull in Hp.
  apply negb_true_iff, Hp, list_elem_of_In, list_elem_of_fmap. eauto.
Qed.

(** C4, as the code has it.  For each column of [NOT_NULL_COLUMNS]
    (transaction_id, customer_id, product_id, amount, transaction_date), a
    candidate that reaches the NOT NULL block of that column with a null there
    is reported with the message "NULL value in <column>" and is not accepted;
    and no accepted row has a null in a column of [NOT_NULL_COLUMNS]. *)
Theorem not_null_rejected now df products_set pre col post r :
  EXPECTED_COLUMNS ⊆ columns df →
  NOT_NULL_COLUMNS = pre ++ col :: post →
  r ∈ (foldl (λ st c, removal_pass (not_null_check c) st)
             (duplicate_check (normalize_status <$> rows df)) pre).1 →
  isnull col r = true →
  ∃ valid errors,
    apply_data_quality_checks now df products_set = Ok (valid, errors) ∧
    mkErr (transaction_id r) ("NULL value in " +:+ col) now ∈ errors ∧
    (r ∉ rows valid) ∧
    (∀ v c, v ∈ rows valid → c ∈ NOT_NULL_COLUMNS → isnull c v = false).
Proof.
  intros Hs Hsplit Hr Hnull.
  destruct (gate_by_key now df products_set Hs) as (valid & errors & Hrun & Hrows & Herrs & _).
  exists valid, errors. split; [exact Hrun|].
  rewrite not_null_prefix_chain in Hr. unfold duplicate_check in Hr.
  rewrite run_chain_spec in Hr. cbn [fst] in Hr.
  assert (Hch : ∃ rest, rule_chain products_set =
                  (not_null_check <$> pre) ++ not_null_check col :: rest).
  { unfold rule_chain. rewrite Hsplit, fmap_app, fmap_cons, <- app_assoc.
    eexists. reflexivity. }
  destruct Hch as [rest Hch]. repeat split.
  - rewrite Herrs. unfold error_frame. apply list_elem_of_fmap.
    exists (transaction_id r, "NULL value in " +:+ col). split; [reflexivity|].
    apply elem_of_app. right. rewrite Hch, chain_errors_app.
    apply elem_of_app. right. cbn [chain_errors]. apply elem_of_app. left.
    apply list_elem_of_fmap. exists r. split; [reflexivity|].
    apply list_elem_of_filter. split; [|exact Hr].
    cbn [reject not_null_check]. rewrite Hnull. exact I.
  - rewrite Hrows. intros [Hp _]%list_elem_of_filter.
    apply Is_true_true in Hp. rewrite Hch, passes_app in Hp.
    apply andb_true_iff in Hp as [_ Hp]. rewrite passes_cons in Hp.
    cbn [keep not_null_check] in Hp. unfold notnull in Hp. rewrite Hnull in Hp.
    discriminate.
  - intros v c Hv Hc. rewrite Hrows in Hv.
    apply list_elem_of_filter in Hv as [Hp _]. apply Is_true_true in Hp.
    exact (passes_not_null products_set v c Hp Hc).
Qed.

(** *** The gate on the sample frames *)

Ltac by_computation := apply (bool_decide_unpack _); vm_compute; exact I.

Lemma schema_has_expected_columns l :
  EXPECTED_COLUMNS ⊆ columns (mkDF Samples.schema l).
Proof. intros c Hc. exact Hc. Qed.

Example test_valid_record_passes :
  apply_data_quality_checks 0 (mkDF Samples.schema [Samples.row_t1]) Samples.products
  = Ok (mkDF Samples.schema [normalize_status Samples.row_t1], []).
Proof. vm_compute. reflexivity. Qed.

(** Scenario 1 of the specification, and tests/test_data_quality.py. *)
Example test_invalid_amount_fails :
  apply_data_quality_checks 0 (mkDF Samples.schema [Samples.row_t2]) Samples.products
  = Ok (mkDF Samples.schema [], [mkErr (Some "t2") "Amount must be > 0" 0]).
Proof. vm_compute. reflexivity. Qed.

(** Scenario 5: "SUCCESS" is lowered to "success" and passes the status rule. *)
Example status_normalized :
  status (normalize_status Samples.row_t1) = Some "success" ∧
  status_isin (normalize_status Samples.row_t1) = true.
Proof. split; vm_compute; reflexivity. Qed.

(** Two rows share the key "dup": both are reported, with the message
    "Duplicate transaction_id", and the first of them is accepted. *)
Lemma duplicate_first_copy_accepted :
  (1 < length (occurrences (Some "dup") [Samples.row_dup_first; Samples.row_dup_second]))%nat ∧
  apply_data_quality_checks 0
    (mkDF Samples.schema [Samples.row_dup_first; Samples.row_dup_second]) Samples.products
  = Ok (mkDF Samples.schema [normalize_status Samples.row_dup_first],
        [mkErr (Some "dup") "Duplicate transaction_id" 0;
         mkErr (Some "dup") "Duplicate transaction_id" 0]) ∧
  transaction_id (normalize_status Samples.row_dup_first) = Some "dup".
Proof. split; [vm_compute; lia|]. split; vm_compute; reflexivity. Qed.

Lemma duplicates_reported_first_kept_witness :
  ∃ valid errors first,
    apply_data_quality_checks 0
      (mkDF Samples.schema [Samples.row_dup_first; Samples.row_dup_second])
      Samples.products = Ok (valid, errors) ∧
    head (occurrences (Some "dup") [Samples.row_dup_first; Samples.row_dup_second])
      = Some first ∧
    (∃ rest,
       entries_of (Some "dup") errors =
         replicate (length (occurrences (Some "dup")
                              [Samples.row_dup_first; Samples.row_dup_second]))
                   (mkErr (Some "dup") "Duplicate transaction_id" 0) ++ rest ∧
       (length rest ≤ 1)%nat) ∧
    occurrences (Some "dup") (rows valid) =
      if passes (rule_chain Samples.products) (normalize_status first)
      then [normalize_status first] else [].
Proof.
  apply (duplicates_reported_first_kept 0
           (mkDF Samples.schema [Samples.row_dup_first; Samples.row_dup_second])
           Samples.products (Some "dup")).
  - apply schema_has_expected_columns.
  - vm_compute. lia.
Defined.

(** The first row of a repeated key is accepted and has an entry in the error
    frame. *)
Lemma duplicate_accepted_and_rejected :
  ∃ valid errors,
    apply_data_quality_checks 0
      (mkDF Samples.schema [Samples.row_dup_first; Samples.row_dup_second])
      Samples.products = Ok (valid, errors) ∧
    Samples.row_dup_first ∈ [Samples.row_dup_first; Samples.row_dup_second] ∧
    accepted valid Samples.row_dup_first ∧
    rejected errors Samples.row_dup_first.
Proof.
  eexists _, _. split; [vm_compute; reflexivity|].
  split; [left|]. split.
  - unfold accepted. cbn [rows]. left.
  - eexists. split; [left|]. reflexivity.
Qed.

Lemma gate_partition_witness :
  ∃ valid errors,
    apply_data_quality_checks 0
      (mkDF Samples.schema [Samples.row_t1; Samples.row_t2]) Samples.products
    = Ok (valid, errors) ∧
    (∀ r, r ∈ [Samples.row_t1; Samples.row_t2] → accepted valid r ∨ rejected errors r) ∧
    (∀ v, v ∈ rows valid →
       ∃ r, r ∈ [Samples.row_t1; Samples.row_t2] ∧ v = normalize_status r) ∧
    (∀ e, e ∈ errors →
       ∃ r, r ∈ [Samples.row_t1; Samples.row_t2] ∧
            err_transaction_id e = transaction_id r) ∧
    (∀ r, r ∈ [Samples.row_t1; Samples.row_t2] → accepted valid r → rejected errors r →
       (1 < length (occurrences (transaction_id r) [Samples.row_t1; Samples.row_t2]))%nat) ∧
    (NoDup (transaction_id <$> [Samples.row_t1; Samples.row_t2]) →
       (∀ r, r ∈ [Samples.row_t1; Samples.row_t2] →
             ¬ (accepted valid r ∧ rejected errors r)) ∧
       (length (rows valid) + length errors)%nat
       = length [Samples.row_t1; Samples.row_t2]).
Proof.
  apply (gate_partition 0 (mkDF Samples.schema [Samples.row_t1; Samples.row_t2])
           Samples.products).
  apply schema_has_expected_columns.
Defined.

(** The first row of a repeated key violates the amount rule as well: it has
    two entries, and the frame of two records has three. *)
Lemma duplicate_first_copy_two_entries :
  apply_data_quality_checks 0
    (mkDF Samples.schema [Samples.row_dup_negative; Samples.row_dup_second])
    Samples.products
  = Ok (mkDF Samples.schema [],
        [mkErr (Some "dup") "Duplicate transaction_id" 0;
         mkErr (Some "dup") "Duplicate transaction_id" 0;
         mkErr (Some "dup") "Amount must be > 0" 0]) ∧
  (length [Samples.row_dup_negative; Samples.row_dup_second] < 3)%nat.
Proof. split; [vm_compute; reflexivity | simpl; lia]. Qed.

Lemma rejection_entries_by_key_witness :
  ∃ valid errors,
    apply_data_quality_checks 0
      (mkDF Samples.schema [Samples.row_t1; Samples.row_t2]) Samples.products
    = Ok (valid, errors) ∧
    entries_of (Some "t2") errors =
      (if bool_decide (1 < length (occurrences (Some "t2")
                                     [Samples.row_t1; Samples.row_t2]))%nat
       then replicate (length (occurrences (Some "t2")
                                 [Samples.row_t1; Samples.row_t2]))
                      (mkErr (Some "t2") "Duplicate transaction_id" 0)
       else []) ++
      match head (occurrences (Some "t2") [Samples.row_t1; Samples.row_t2]) with
      | Some r =>
          match earliest_violation (rule_chain Samples.products) (normalize_status r) with
          | Some msg => [mkErr (Some "t2") msg 0]
          | None => []
          end
      | None => []
      end ∧
    ∀ r, occurrences (Some "t2") [Samples.row_t1; Samples.row_t2] = [r] →
      entries_of (Some "t2") errors =
        match earliest_violation (rule_chain Samples.products) (normalize_status r) with
        | Some msg => [mkErr (Some "t2") msg 0]
        | None => []
        end.
Proof.
  apply (rejection_entries_by_key 0
           (mkDF Samples.schema [Samples.row_t1; Samples.row_t2])
           Samples.products (Some "t2")).
  apply schema_has_expected_columns.
Defined.

(** A null [updated_at] is accepted, a null [status] is reported by the status
    rule, and the message of the NOT NULL blocks is "NULL value in <column>". *)
Lemma null_updated_at_accepted :
  isnull "updated_at" Samples.row_no_updated_at = true ∧
  apply_data_quality_checks 0 (mkDF Samples.schema [Samples.row_no_updated_at])
    Samples.products
  = Ok (mkDF Samples.schema [normalize_status Samples.row_no_updated_at], []) ∧
  isnull "status" Samples.row_no_status = true ∧
  apply_data_quality_checks 0 (mkDF Samples.schema [Samples.row_no_status])
    Samples.products
  = Ok (mkDF Samples.schema [], [mkErr (Some "t4") "Invalid status value" 0]) ∧
  apply_data_quality_checks 0 (mkDF Samples.schema [Samples.row_no_customer])
    Samples.products
  = Ok (mkDF Samples.schema [], [mkErr (Some "t5") "NULL value in customer_id" 0]) ∧
  "NULL value in customer_id" ≠ "null value in customer_id".
Proof. repeat split; try (vm_compute; reflexivity). discriminate. Qed.

Lemma not_null_rejected_witness :
  ∃ valid errors,
    apply_data_quality_checks 0 (mkDF Samples.schema [Samples.row_no_customer])
      Samples.products = Ok (valid, errors) ∧
    mkErr (transaction_id (normalize_status Samples.row_no_customer))
          ("NULL value in " +:+ "customer_id") 0 ∈ errors ∧
    (normalize_status Samples.row_no_customer ∉ rows valid) ∧
    (∀ v c, v ∈ rows valid → c ∈ NOT_NULL_COLUMNS → isnull c v = false).
Proof.
  apply (not_null_rejected 0 (mkDF Samples.schema [Samples.row_no_customer])
           Samples.products ["transaction_id"] "customer_id"
           ["product_id"; "amount"; "transaction_date"]
           (normalize_status Samples.row_no_customer)).
  - apply schema_has_expected_columns.
  - reflexivity.
  - by_computation.
  - vm_compute. reflexivity.
Defined.

End Gate.

(** ** Claims on the ingestion *)

Module IngestFacts.
Import Ingest.

Lemma df_empty_false df : df_empty df = false → rows df ≠ [] ∧ columns df ≠ [].
Proof. unfold df_empty. intros H%bool_decide_eq_false. tauto. Qed.

Lemma drop_duplicates_subset_Ok df :
  "transaction_id" ∈ columns df →
  drop_duplicates_subset df = Ok (mkDF (columns df) (drop_duplicates (rows df))).
Proof.
  intros Ht. unfold drop_duplicates_subset. destruct (df_empty df) eqn:He.
  - unfold df_empty in He. apply bool_decide_eq_true in He as [Hc|Hr].
    + rewrite Hc in Ht. inversion Ht.
    + destruct df as [cols rs]. cbn [columns rows] in *. subst rs. reflexivity.
  - rewrite (bool_decide_eq_true_2 _ Ht). reflexivity.
Qed.

Lemma drop_duplicates_subset_inv df out :
  columns df ≠ [] →
  drop_duplicates_subset df = Ok out →
  columns out = columns df ∧ rows out = drop_duplicates (rows df).
Proof.
  intros Hc. unfold drop_duplicates_subset. destruct (df_empty df) eqn:He.
  - unfold df_empty in He. apply bool_decide_eq_true in He as [He|He]; [contradiction|].
    intros [= <-]. rewrite He. split; reflexivity.
  - destruct (bool_decide ("transaction_id" ∈ columns df)); [|discriminate].
    intros [= <-]. split; reflexivity.
Qed.

(** What the function returns on a batch with rows and the two columns it
    reads. *)
Lemma filter_incremental_Ok df max_updated_at :
  df_empty df = false →
  "updated_at" ∈ columns df → "transaction_id" ∈ columns df →
  filter_incremental df max_updated_at =
  Ok (mkDF (columns df)
        (drop_duplicates
           match max_updated_at with
           | None => rows df
           | Some w => filter (λ r, newer_than w r) (rows df)
           end)).
Proof.
  intros He Hu Ht. unfold filter_incremental.
  rewrite He, (bool_decide_eq_true_2 _ Hu).
  destruct max_updated_at; apply drop_duplicates_subset_Ok; exact Ht.
Qed.

(** When the function returns on a batch with rows, it returns these rows. *)
Lemma filter_incremental_inv df max_updated_at out :
  df_empty df = false →
  filter_incremental df max_updated_at = Ok out →
  rows out =
    drop_duplicates
      match max_updated_at with
      | None => rows df
      | Some w => filter (λ r, newer_than w r) (rows df)
      end.
Proof.
  intros He. unfold filter_incremental. rewrite He.
  destruct (bool_decide ("updated_at" ∈ columns df)); [|discriminate].
  apply df_empty_false in He as [_ Hc].
  destruct max_updated_at; intros Hout; apply drop_duplicates_subset_inv in Hout;
    try exact Hc; apply Hout.
Qed.

Lemma newer_than_spec w r :
  newer_than w r = true ↔ ∃ t, updated_at r = Some t ∧ w < t.
Proof.
  unfold newer_than. destruct (updated_at r) as [t|].
  - rewrite bool_decide_eq_true. split; [eauto|]. intros (t' & [= <-] & Hlt). exact Hlt.
  - split; [discriminate|]. intros (t & Hn & _). discriminate.
Qed.

(** C5.  With a watermark, every row that the filter returns is strictly
    newer than the watermark: a row at or before the watermark, ties included,
    is not returned.  The filter does return when the batch has the columns
    [updated_at] and [transaction_id]. *)
Theorem filter_incremental_newer df w :
  df_empty df = false →
  (∀ out, filter_incremental df (Some w) = Ok out →
     (∀ r, r ∈ rows out → ∃ t, updated_at r = Some t ∧ w < t) ∧
     (∀ r t, updated_at r = Some t → t ≤ w → r ∉ rows out)) ∧
  ("updated_at" ∈ columns df → "transaction_id" ∈ columns df →
   ∃ out, filter_incremental df (Some w) = Ok out).
Proof.
  intros He. split.
  - intros out Hrun. apply filter_incremental_inv in Hrun; [|exact He].
    assert (Hnew : ∀ r, r ∈ rows out → ∃ t, updated_at r = Some t ∧ w < t).
    { intros r Hr. rewrite Hrun in Hr. apply KeyFacts.elem_of_drop_duplicates in Hr.
      apply list_elem_of_filter in Hr as [Hr _].
      apply newer_than_spec, Is_true_true, Hr. }
    split; [exact Hnew|].
    intros r t Ht Hle Hr. destruct (Hnew r Hr) as (t' & Ht' & Hlt).
    rewrite Ht in Ht'. injection Ht' as <-. lia.
  - intros Hu Ht. eexists. apply filter_incremental_Ok; assumption.
Qed.

Lemma filter_incremental_newer_witness :
  (∀ out, filter_incremental (mkDF Samples.ingest_columns [Samples.row_i1; Samples.row_i2])
            (Some Samples.jan_1) = Ok out →
     (∀ r, r ∈ rows out → ∃ t, updated_at r = Some t ∧ Samples.jan_1 < t) ∧
     (∀ r t, updated_at r = Some t → t ≤ Samples.jan_1 → r ∉ rows out)) ∧
  ("updated_at" ∈ Samples.ingest_columns → "transaction_id" ∈ Samples.ingest_columns →
   ∃ out, filter_incremental (mkDF Samples.ingest_columns [Samples.row_i1; Samples.row_i2])
            (Some Samples.jan_1) = Ok out).
Proof.
  apply (filter_incremental_newer
           (mkDF Samples.ingest_columns [Samples.row_i1; Samples.row_i2]) Samples.jan_1).
  vm_compute. reflexivity.
Defined.

(** Scenario 3 of the specification, and tests/test_ingest.py. *)
Example test_filter_incremental_new_records :
  filter_incremental (mkDF Samples.ingest_columns [Samples.row_i1; Samples.row_i2])
    (Some Samples.jan_1)
  = Ok (mkDF Samples.ingest_columns [Samples.row_i2]).
Proof. vm_compute. reflexivity. Qed.

Example test_filter_incremental_empty :
  filter_incremental (mkDF [] []) None = Ok (mkDF [] []).
Proof. vm_compute. reflexivity. Qed.

(** C6.  Without a watermark the filter returns the batch with, for each
    key, its first row and nothing else removed, whatever the timestamps are:
    a batch with pairwise distinct keys comes back as it is, and so do two
    records with distinct keys. *)
Theorem filter_incremental_full_load df :
  df_empty df = false →
  "updated_at" ∈ columns df → "transaction_id" ∈ columns df →
  ∃ out,
    filter_incremental df None = Ok out ∧
    columns out = columns df ∧
    rows out `sublist_of` rows df ∧
    (∀ k, occurrences k (rows out) = take 1 (occurrences k (rows df))) ∧
    (NoDup (transaction_id <$> rows df) → rows out = rows df) ∧
    (∀ r1 r2, rows df = [r1; r2] → transaction_id r1 ≠ transaction_id r2 →
       rows out = [r1; r2]).
Proof.
  intros He Hu Ht. eexists. split; [apply filter_incremental_Ok; assumption|].
  cbn [columns rows]. split; [reflexivity|]. split; [|split; [|split]].
  - apply drop_duplicates_from_sublist.
  - intros k. apply occurrences_drop_duplicates.
  - apply drop_duplicates_NoDup.
  - intros r1 r2 Hrows Hne. rewrite Hrows. apply drop_duplicates_NoDup.
    simpl. apply NoDup_cons. split; [|apply NoDup_singleton].
    intros Hin%list_elem_of_singleton. contradiction.
Qed.

Lemma filter_incremental_full_load_witness :
  ∃ out,
    filter_incremental (mkDF Samples.ingest_columns [Samples.row_i1; Samples.row_i2]) None
      = Ok out ∧
    columns out = Samples.ingest_columns ∧
    rows out `sublist_of` [Samples.row_i1; Samples.row_i2] ∧
    (∀ k, occurrences k (rows out)
          = take 1 (occurrences k [Samples.row_i1; Samples.row_i2])) ∧
    (NoDup (transaction_id <$> [Samples.row_i1; Samples.row_i2]) →
       rows out = [Samples.row_i1; Samples.row_i2]) ∧
    (∀ r1 r2, [Samples.row_i1; Samples.row_i2] = [r1; r2] →
       transaction_id r1 ≠ transaction_id r2 → rows out = [r1; r2]).
Proof.
  apply (filter_incremental_full_load
           (mkDF Samples.ingest_columns [Samples.row_i1; Samples.row_i2])).
  - vm_compute. reflexivity.
  - apply (bool_decide_unpack _). vm_compute. exact I.
  - apply (bool_decide_unpack _). vm_compute. exact I.
Defined.

(** Scenario 2 of the specification. *)
Example full_load_two_records :
  filter_incremental (mkDF Samples.ingest_columns [Samples.row_i1; Samples.row_i2]) None
  = Ok (mkDF Samples.ingest_columns [Samples.row_i1; Samples.row_i2]).
Proof. vm_compute. reflexivity. Qed.

#[local] Instance path_le_total : Total path_le.
Proof. intros a b. apply String.leb_total. Qed.

Lemma comprehension_Ok {A B} (f : A → result B) l ys :
  comprehension f l = Ok ys ↔ Forall2 (λ x y, f x = Ok y) l ys.
Proof.
  revert ys. induction l as [|x l IH]; intros ys; cbn [comprehension].
  - split; [intros [= <-]; constructor|]. intros H. inversion H. reflexivity.
  - destruct (f x) as [y|e] eqn:Hx.
    + destruct (comprehension f l) as [ys'|e] eqn:Hl.
      * split.
        -- intros [= <-]. constructor; [exact Hx|]. apply IH. reflexivity.
        -- intros H. inversion H as [|? y' ? ys'' Hy Hys]. subst.
           rewrite Hx in Hy. injection Hy as <-.
           apply IH in Hys. injection Hys as <-. reflexivity.
      * split; [discriminate|]. intros H. inversion H as [|? y' ? ys'' Hy Hys]. subst.
        apply IH in Hys. discriminate.
    + split; [discriminate|]. intros H. inversion H as [|? y' ? ys'' Hy Hys]. subst.
      rewrite Hx in Hy. discriminate.
Qed.

Lemma comprehension_Raise {A B} (f : A → result B) l e :
  comprehension f l = Raise e → ∃ x, x ∈ l ∧ f x = Raise e.
Proof.
  induction l as [|x l IH]; cbn [comprehension]; [discriminate|].
  destruct (f x) as [y|e'] eqn:Hx.
  - destruct (comprehension f l) as [ys|e'']; [discriminate|].
    intros [= ->]. destruct IH as (x' & Hin & Hx'); [reflexivity|].
    exists x'. split; [right; exact Hin|exact Hx'].
  - intros [= ->]. exists x. split; [left|exact Hx].
Qed.

Lemma comprehension_total {A B} (f : A → result B) l :
  (∀ x, x ∈ l → ∃ y, f x = Ok y) → ∃ ys, comprehension f l = Ok ys.
Proof.
  intros Hall. destruct (comprehension f l) as [ys|e] eqn:Hc; [eauto|].
  apply comprehension_Raise in Hc as (x & Hin & Hx).
  destruct (Hall x Hin) as [y Hy]. congruence.
Qed.

(** [parse_csv] returns the table of the file, when that has the columns to
    parse; otherwise it raises a [ValueError]. *)
Lemma parse_csv_Ok cols df :
  columns df ≠ [] → (∀ c, c ∈ cols → c ∈ columns df) → parse_csv cols df = Ok df.
Proof.
  intros Hc Hall. unfold parse_csv. rewrite (bool_decide_eq_false_2 _ Hc).
  rewrite filter_none; [reflexivity|].
  intros c Hin Hnot. apply Hnot, Hall.
  unfold sorted in Hin. rewrite merge_sort_Permutation in Hin. exact Hin.
Qed.

Lemma parse_csv_inv cols df out :
  parse_csv cols df = Ok out →
  out = df ∧ columns df ≠ [] ∧ ∀ c, c ∈ cols → c ∈ columns df.
Proof.
  unfold parse_csv. destruct (decide (columns df = [])) as [Hc|Hc].
  - rewrite (bool_decide_eq_true_2 _ Hc). discriminate.
  - rewrite (bool_decide_eq_false_2 _ Hc).
    destruct (filter (λ c, c ∉ columns df) (sorted cols)) as [|m ms] eqn:Hf; [|discriminate].
    intros [= <-]. split; [reflexivity|]. split; [exact Hc|].
    intros c Hin. destruct (decide (c ∈ columns df)) as [Hd|Hd]; [exact Hd|exfalso].
    apply (filter_nil_not_elem_of _ _ c Hf Hd).
    unfold sorted. rewrite merge_sort_Permutation. exact Hin.
Qed.

Lemma parse_csv_Raise cols df e : parse_csv cols df = Raise e → ∃ msg, e = ValueError msg.
Proof.
  unfold parse_csv. destruct (bool_decide (columns df = [])); [intros [= <-]; eauto|].
  destruct (filter (λ c, c ∉ columns df) (sorted cols)); [discriminate|].
  intros [= <-]. eauto.
Qed.

Lemma append_inj_l s a b : s +:+ a = s +:+ b → a = b.
Proof. induction s as [|c s IH]; simpl; [tauto|]. intros [= H]. apply IH, H. Qed.

Lemma path_join_inj d a b : path_join d a = path_join d b → a = b.
Proof. unfold path_join. intros H%append_inj_l%append_inj_l. exact H. Qed.

(** Reading a batch by its path parses the table of that batch. *)
Lemma read_csv_lookup (dir : gmap string DataFrame) name df :
  dir !! name = Some df →
  read_csv dir (path_join DATA_DIR name) = parse_csv ["updated_at"; "transaction_date"] df.
Proof.
  intros Hl. unfold read_csv.
  destruct (list_find (λ e, path_join DATA_DIR e.1 = path_join DATA_DIR name)
              (map_to_list dir)) as [[i [n f]]|] eqn:Hfind.
  - apply list_find_Some in Hfind as (Hi & Hp & _). cbn [fst] in Hp.
    apply path_join_inj in Hp. subst n.
    apply list_elem_of_lookup_2, elem_of_map_to_list in Hi. congruence.
  - exfalso. apply list_find_None in Hfind. rewrite Forall_forall in Hfind.
    apply (Hfind (name, df)); [apply elem_of_map_to_list, Hl|reflexivity].
Qed.

Lemma elem_of_csv_files (dir : gmap string DataFrame) p :
  p ∈ csv_files dir ↔
  ∃ name, p = path_join DATA_DIR name ∧ name ∈ dom dir ∧ endswith name ".csv" = true.
Proof.
  unfold csv_files, sorted, listdir. rewrite merge_sort_Permutation, list_elem_of_fmap.
  split.
  - intros (name & -> & Hin). apply list_elem_of_filter in Hin as [He Hin].
    exists name. split; [reflexivity|]. split; [apply elem_of_elements, Hin|].
    apply Is_true_true, He.
  - intros (name & -> & Hin & He). exists name. split; [reflexivity|].
    apply list_elem_of_filter. split; [rewrite He; exact I|apply elem_of_elements, Hin].
Qed.

(** A path of [files] is the path of a batch, and reading it gives the table
    of that batch or raises a [ValueError]. *)
Lemma read_csv_file (dir : gmap string DataFrame) p :
  p ∈ csv_files dir →
  ∃ name df, p = path_join DATA_DIR name ∧ dir !! name = Some df ∧
             endswith name ".csv" = true ∧
             read_csv dir p = parse_csv ["updated_at"; "transaction_date"] df.
Proof.
  intros (name & -> & Hin & He)%elem_of_csv_files.
  apply elem_of_dom in Hin as [df Hdf]. exists name, df.
  split; [reflexivity|]. split; [exact Hdf|]. split; [exact He|].
  apply read_csv_lookup, Hdf.
Qed.

(** The batches of a directory can be parsed: each has the two date
    columns. *)
Lemma parsable_files (dir : gmap string DataFrame) :
  (∀ name df, dir !! name = Some df → endswith name ".csv" = true →
     "updated_at" ∈ columns df ∧ "transaction_date" ∈ columns df) ↔
  ∀ p, p ∈ csv_files dir → ∃ df, read_csv dir p = Ok df.
Proof.
  split.
  - intros Hall p Hp. apply read_csv_file in Hp as (name & df & -> & Hdf & He & ->).
    exists df. destruct (Hall name df Hdf He) as [Hu Hd]. apply parse_csv_Ok.
    + intros Hnil. rewrite Hnil in Hu. inversion Hu.
    + intros c Hc. apply elem_of_cons in Hc as [Hc|Hc]; [subst c; exact Hu|].
      apply elem_of_cons in Hc as [Hc|Hc]; [subst c; exact Hd|]. inversion Hc.
  - intros Hall name df Hdf He.
    destruct (Hall (path_join DATA_DIR name)) as [f Hf].
    { apply elem_of_csv_files. exists name. split; [reflexivity|].
      split; [apply elem_of_dom; eauto|exact He]. }
    rewrite (read_csv_lookup _ _ _ Hdf) in Hf.
    apply parse_csv_inv in Hf as (_ & _ & Hcols).
    split; apply Hcols; [left|right; left].
Qed.

Lemma elem_of_concat_columns c frames acc :
  c ∈ foldl (λ acc df, acc ++ filter (λ c, c ∉ acc) (columns df)) acc frames ↔
  c ∈ acc ∨ ∃ df, df ∈ frames ∧ c ∈ columns df.
Proof.
  revert acc. induction frames as [|f frames IH]; intros acc; cbn [foldl].
  - split; [auto|]. intros [H|(df & Hin & _)]; [exact H|inversion Hin].
  - rewrite IH, elem_of_app, list_elem_of_filter. split.
    + intros [[H|[_ H]]|(df & Hin & Hc)]; [left; exact H|right|right].
      * exists f. split; [left|exact H].
      * exists df. split; [right; exact Hin|exact Hc].
    + intros [H|(df & [->|Hin]%elem_of_cons & Hc)]; [left; left; exact H| |].
      * left. destruct (decide (c ∈ acc)) as [Ha|Ha]; [left; exact Ha|right; auto].
      * right. exists df. auto.
Qed.

(** What the collector returns: the frames it read, one per path of [files]
    and in that order, one after the other. *)
Lemma load_csv_files_inv dir batch :
  load_csv_files dir = Ok batch →
  ∃ frames,
    Forall2 (λ path df, read_csv dir path = Ok df) (csv_files dir) frames ∧
    rows batch = concat (rows <$> frames) ∧
    (∀ c, c ∈ columns batch ↔ ∃ df, df ∈ frames ∧ c ∈ columns df) ∧
    (csv_files dir = [] → batch = mkDF [] []).
Proof.
  unfold load_csv_files. cbv zeta.
  destruct (decide (csv_files dir = [])) as [Hnil|Hne].
  - rewrite (bool_decide_eq_true_2 _ Hnil). intros [= <-]. exists [].
    rewrite Hnil. split; [constructor|]. split; [reflexivity|]. split; [|reflexivity].
    intros c. cbn [columns]. split; [inversion 1|]. intros (df & Hin & _). inversion Hin.
  - rewrite (bool_decide_eq_false_2 _ Hne).
    destruct (comprehension (read_csv dir) (csv_files dir)) as [frames|e] eqn:Hc;
      [|discriminate].
    intros [= <-]. exists frames. split; [apply comprehension_Ok, Hc|].
    split; [reflexivity|]. split; [|contradiction].
    intros c. unfold concat_frames. cbn [columns]. rewrite elem_of_concat_columns.
    split; [intros [H|H]; [inversion H|exact H]|auto].
Qed.

Lemma load_csv_files_Ok dir :
  (∀ p, p ∈ csv_files dir → ∃ df, read_csv dir p = Ok df) →
  ∃ batch, load_csv_files dir = Ok batch.
Proof.
  intros Hall. unfold load_csv_files. cbv zeta.
  destruct (bool_decide (csv_files dir = [])); [eauto|].
  destruct (comprehension_total _ _ Hall) as [frames ->]. eauto.
Qed.

Lemma load_csv_files_Raise dir e :
  load_csv_files dir = Raise e →
  ∃ p msg, p ∈ csv_files dir ∧ read_csv dir p = Raise e ∧ e = ValueError msg.
Proof.
  unfold load_csv_files. cbv zeta.
  destruct (bool_decide (csv_files dir = [])); [discriminate|].
  destruct (comprehension (read_csv dir) (csv_files dir)) as [frames|e'] eqn:Hc;
    [discriminate|].
  intros [= ->]. apply comprehension_Raise in Hc as (p & Hp & Hr).
  destruct (read_csv_file _ _ Hp) as (name & df & _ & _ & _ & Hread).
  rewrite Hread in Hr. destruct (parse_csv_Raise _ _ _ Hr) as [msg ->].
  exists p, msg. rewrite Hread. auto.
Qed.

(** A batch that the collector read has the timestamp column, and so has
    what the collector returns. *)
Lemma load_csv_files_updated_at dir batch :
  load_csv_files dir = Ok batch →
  columns batch ≠ [] → "updated_at" ∈ columns batch.
Proof.
  intros Hload Hne.
  assert (Hin : ∃ c, c ∈ columns batch).
  { destruct (columns batch) as [|c cs]; [contradiction|]. exists c. left. }
  destruct Hin as [c Hin].
  apply load_csv_files_inv in Hload as (frames & Hread & _ & Hcols & _).
  apply Hcols in Hin as (f & Hf & _). apply Hcols. exists f.
  split; [exact Hf|].
  apply list_elem_of_lookup in Hf as [i Hi].
  destruct (Forall2_lookup_r _ _ _ _ _ Hread Hi) as (p & Hp & Hr).
  apply list_elem_of_lookup_2 in Hp.
  destruct (read_csv_file _ _ Hp) as (name & df & _ & _ & _ & Hread').
  rewrite Hread' in Hr. apply parse_csv_inv in Hr as (-> & _ & Hall).
  apply Hall. left.
Qed.

(** The collector returns the rows of the batch it reads unchanged, both rows
    of a repeated key included; batches are read in the order of their
    paths. *)
Lemma load_csv_files_keeps_duplicates :
  load_csv_files Samples.dir_one_batch
    = Ok (mkDF Samples.schema [Samples.row_dup_first; Samples.row_dup_second]) ∧
  transaction_id Samples.row_dup_first = transaction_id Samples.row_dup_second ∧
  ¬ NoDup (transaction_id
             <$> rows (mkDF Samples.schema [Samples.row_dup_first; Samples.row_dup_second])).
Proof.
  split; [vm_compute; reflexivity|]. split; [reflexivity|].
  cbn [rows]. intros Hnd.
  apply NoDup_cons in Hnd as [Hnin _]. apply Hnin. left.
Qed.

Example load_csv_files_sorted_order :
  load_csv_files Samples.dir_two_batches
  = Ok (mkDF Samples.schema
          [Samples.row_t1; Samples.row_dup_first; Samples.row_t2; Samples.row_dup_second]).
Proof. vm_compute. reflexivity. Qed.

Example load_csv_files_no_batch : load_csv_files ∅ = Ok (mkDF [] []).
Proof. vm_compute. reflexivity. Qed.

(** A batch without one of the two date columns stops the collector. *)
Example load_csv_files_no_date_column :
  load_csv_files {[ "a.csv" := mkDF Samples.ingest_columns [Samples.row_i1] ]}
  = Raise (ValueError "Missing column provided to 'parse_dates': 'transaction_date'").
Proof. vm_compute. reflexivity. Qed.

(** C7, as the code has it.  On batches that have the two date columns the
    collector returns: it reads the batches in ascending order of their
    paths and returns their rows one batch after the other, without removing
    any; the filter that follows it removes the repeated keys: no two rows of
    its output share a transaction_id, and the row it returns for a key is
    the first one among the rows that pass the watermark. *)
Theorem ingest_deduplicates dir max_updated_at :
  (∀ name df, dir !! name = Some df → endswith name ".csv" = true →
     "updated_at" ∈ columns df ∧ "transaction_date" ∈ columns df) →
  ∃ batch frames,
    load_csv_files dir = Ok batch ∧
    Sorted path_le (csv_files dir) ∧
    Forall2 (λ path df, read_csv dir path = Ok df) (csv_files dir) frames ∧
    rows batch = concat (rows <$> frames) ∧
    ("transaction_id" ∈ columns batch →
     (∀ out, filter_incremental batch max_updated_at = Ok out →
        NoDup (transaction_id <$> rows out) ∧
        ∀ k, occurrences k (rows out) =
             take 1 (occurrences k
                       match max_updated_at with
                       | None => rows batch
                       | Some w => filter (λ r, newer_than w r) (rows batch)
                       end)) ∧
     ∃ out, filter_incremental batch max_updated_at = Ok out).
Proof.
  intros Hparse. pose proof (proj1 (parsable_files dir) Hparse) as Hfiles.
  destruct (load_csv_files_Ok _ Hfiles) as [batch Hload].
  destruct (load_csv_files_inv _ _ Hload) as (frames & Hread & Hrows & _ & _).
  exists batch, frames. split; [exact Hload|].
  split; [apply Sorted_merge_sort, _|]. split; [exact Hread|]. split; [exact Hrows|].
  intros Ht.
  assert (Hu : "updated_at" ∈ columns batch).
  { apply (load_csv_files_updated_at _ _ Hload). intros Hnil.
    rewrite Hnil in Ht. inversion Ht. }
  destruct (df_empty batch) eqn:He.
  - assert (Hnorows : rows batch = []).
    { unfold df_empty in He. apply bool_decide_eq_true in He as [Hc|Hr]; [|exact Hr].
      rewrite Hc in Ht. inversion Ht. }
    assert (Hrun : filter_incremental batch max_updated_at = Ok batch).
    { unfold filter_incremental. rewrite He. reflexivity. }
    split; [|eauto].
    intros out Hout. rewrite Hrun in Hout. injection Hout as <-.
    rewrite Hnorows. split; [constructor|].
    intros k. destruct max_updated_at; reflexivity.
  - split.
    + intros out Hout. apply filter_incremental_inv in Hout; [|exact He].
      rewrite Hout. split; [apply NoDup_drop_duplicates|].
      intros k. apply occurrences_drop_duplicates.
    + eexists. apply filter_incremental_Ok; assumption.
Qed.

Lemma ingest_deduplicates_witness :
  ∃ batch frames,
    load_csv_files Samples.dir_two_batches = Ok batch ∧
    Sorted path_le (csv_files Samples.dir_two_batches) ∧
    Forall2 (λ path df, read_csv Samples.dir_two_batches path = Ok df)
      (csv_files Samples.dir_two_batches) frames ∧
    rows batch = concat (rows <$> frames) ∧
    ("transaction_id" ∈ columns batch →
     (∀ out, filter_incremental batch None = Ok out →
        NoDup (transaction_id <$> rows out) ∧
        ∀ k, occurrences k (rows out) = take 1 (occurrences k (rows batch))) ∧
     ∃ out, filter_incremental batch None = Ok out).
Proof.
  apply (ingest_deduplicates Samples.dir_two_batches None).
  change (map_Forall (λ name df, endswith name ".csv" = true →
            "updated_at" ∈ columns df ∧ "transaction_date" ∈ columns df)
            Samples.dir_two_batches).
  apply (bool_decide_unpack _). vm_compute. exact I.
Defined.

Example ingest_two_batches :
  filter_incremental
    (mkDF Samples.schema
       [Samples.row_t1; Samples.row_dup_first; Samples.row_t2; Samples.row_dup_second]) None
  = Ok (mkDF Samples.schema [Samples.row_t1; Samples.row_dup_first; Samples.row_t2]).
Proof. vm_compute. reflexivity. Qed.

End IngestFacts.

(** ** Claims on the fact merger *)

Module LoadFactFacts.
Import LoadFact.

Lemma on_conflict_update_excluded stored excluded :
  on_conflict_update stored excluded = excluded.
Proof. destruct excluded. reflexivity. Qed.

(** On a table with its unique key, the statement's effect for one row is to
    put the row under its key. *)
Lemma upsert_row_insert x t : upsert_row x t = <[x.1 := x.2]> t.
Proof.
  unfold upsert_row. destruct (t !! x.1); [rewrite on_conflict_update_excluded|];
    reflexivity.
Qed.

Lemma upsert_rows_cons x xs t : upsert_rows (x :: xs) t = upsert_rows xs (upsert_row x t).
Proof. reflexivity. Qed.

Lemma upsert_rows_app xs ys t : upsert_rows (xs ++ ys) t = upsert_rows ys (upsert_rows xs t).
Proof. apply foldl_app. Qed.

(** The row of a key after the rows [xs] went in: that of the last of them
    with this key, and the stored one when there is none. *)
Lemma upsert_rows_lookup xs t k :
  upsert_rows xs t !! k =
  match last (filter (λ x, x.1 = k) xs) with
  | Some x => Some x.2
  | None => t !! k
  end.
Proof.
  revert t. induction xs as [|x xs IH]; intros t; [reflexivity|].
  rewrite upsert_rows_cons, IH, filter_cons, upsert_row_insert.
  destruct (decide (x.1 = k)) as [Hk|Hk].
  - rewrite last_cons. destruct (last (filter (λ x, x.1 = k) xs)); [reflexivity|].
    rewrite Hk, lookup_insert_eq. reflexivity.
  - destruct (last (filter (λ x, x.1 = k) xs)); [reflexivity|].
    apply lookup_insert_ne, Hk.
Qed.

Lemma upsert_rows_twice xs t : upsert_rows xs (upsert_rows xs t) = upsert_rows xs t.
Proof.
  apply map_eq. intros k. rewrite (upsert_rows_lookup xs (upsert_rows xs t)).
  rewrite (upsert_rows_lookup xs t).
  destruct (last (filter (λ x, x.1 = k) xs)); reflexivity.
Qed.

Lemma upsert_rows_other xs t k : k ∉ xs.*1 → upsert_rows xs t !! k = t !! k.
Proof.
  intros Hk. rewrite upsert_rows_lookup, filter_none; [reflexivity|].
  intros x Hx Heq. apply Hk, list_elem_of_fmap. eauto.
Qed.

Lemma upsert_rows_origin xs t k p :
  upsert_rows xs t !! k = Some p → t !! k = Some p ∨ (k, p) ∈ xs.
Proof.
  rewrite upsert_rows_lookup.
  destruct (last (filter (λ x, x.1 = k) xs)) as [x|] eqn:Hl; [|auto].
  intros [= <-]. right. apply last_Some_elem_of, list_elem_of_filter in Hl as [Hk Hx].
  destruct x as [k' p']. cbn [fst snd] in *. subst k'. exact Hx.
Qed.

Lemma upsert_rows_covered xs t x : x ∈ xs → is_Some (upsert_rows xs t !! x.1).
Proof.
  intros Hx. rewrite upsert_rows_lookup.
  destruct (last (filter (λ y, y.1 = x.1) xs)) as [y|] eqn:Hl; [eauto|].
  apply last_None in Hl. exfalso.
  apply (filter_nil_not_elem_of _ _ x Hl); [reflexivity|exact Hx].
Qed.

(** In a list with distinct keys, the rows of a key are one row. *)
Lemma filter_key_NoDup {A B} `{EqDecision A} (l : list (A * B)) (x : A * B) :
  NoDup l.*1 → x ∈ l → filter (λ y, y.1 = x.1) l = [x].
Proof.
  induction l as [|y l IH]; [inversion 2|].
  rewrite fmap_cons, NoDup_cons. intros [Hy Hnd] Hin. rewrite filter_cons.
  destruct (decide (y.1 = x.1)) as [Hk|Hk].
  - assert (Hxy : x = y).
    { apply elem_of_cons in Hin as [Hxy|Hin]; [exact Hxy|].
      exfalso. apply Hy. rewrite Hk. apply list_elem_of_fmap. eauto. }
    subst y. f_equal. apply filter_none.
    intros z Hz Heq. apply Hy. rewrite <- Heq. apply list_elem_of_fmap. eauto.
  - apply IH; [exact Hnd|].
    apply elem_of_cons in Hin as [Hxy|Hin]; [subst y; contradiction|exact Hin].
Qed.

Lemma upsert_rows_member xs t x :
  NoDup xs.*1 → x ∈ xs → upsert_rows xs t !! x.1 = Some x.2.
Proof.
  intros Hnd Hx. rewrite upsert_rows_lookup, (filter_key_NoDup _ _ Hnd Hx). reflexivity.
Qed.

(** A table lists one row for each of its keys. *)
Lemma table_rows_keys (t : Table) : NoDup (table_rows t).*1.
Proof. apply NoDup_fst_map_to_list. Qed.

Lemma table_rows_one (t : Table) k :
  is_Some (t !! k) → length (filter (λ y, y.1 = k) (table_rows t)) = 1%nat.
Proof.
  intros [p Hp]. apply elem_of_map_to_list in Hp.
  unfold table_rows. rewrite (filter_key_NoDup _ (k, p)); [reflexivity| |exact Hp].
  apply NoDup_fst_map_to_list.
Qed.

(** The rows that are sent for the rows of a frame. *)
Lemma sent_key r x : sent r = Some x → key r = (x.1.1, Some x.1.2).
Proof.
  unfold sent, key. destruct (transaction_date r), (updated_at r); try discriminate.
  intros [= <-]. reflexivity.
Qed.

Lemma sent_is_Some r :
  is_Some (sent r) ↔ transaction_date r ≠ None ∧ updated_at r ≠ None.
Proof.
  unfold sent. destruct (transaction_date r), (updated_at r); split;
    try (intros [x Hx]; discriminate); try (intros [? ?]; congruence); eauto.
Qed.

Lemma sent_keys page xs :
  mapM sent page = Some xs → key <$> page = (λ k, (k.1, Some k.2)) <$> xs.*1.
Proof.
  intros H%mapM_Some. induction H as [|r x page xs Hx _ IH]; [reflexivity|].
  rewrite !fmap_cons, IH, (sent_key _ _ Hx). reflexivity.
Qed.

Lemma sent_keys_NoDup page xs :
  mapM sent page = Some xs → NoDup (key <$> page) → NoDup xs.*1.
Proof. intros Hs Hnd. rewrite (sent_keys _ _ Hs) in Hnd. apply NoDup_fmap_1 in Hnd. exact Hnd. Qed.

Lemma mapM_sent_elem_of page xs r :
  mapM sent page = Some xs → r ∈ page → ∃ x, sent r = Some x ∧ x ∈ xs.
Proof.
  intros H%mapM_Some Hr. apply list_elem_of_lookup in Hr as [i Hi].
  destruct (Forall2_lookup_l _ _ _ _ _ H Hi) as (x & Hx & Hs).
  exists x. split; [exact Hs|]. apply list_elem_of_lookup_2 in Hx. exact Hx.
Qed.

Lemma mapM_sent_origin page xs x :
  mapM sent page = Some xs → x ∈ xs → ∃ r, r ∈ page ∧ sent r = Some x.
Proof.
  intros H%mapM_Some Hx. apply list_elem_of_lookup in Hx as [i Hi].
  destruct (Forall2_lookup_r _ _ _ _ _ H Hi) as (r & Hr & Hs).
  exists r. split; [|exact Hs]. apply list_elem_of_lookup_2 in Hr. exact Hr.
Qed.

Lemma mapM_sent_app l1 l2 xs1 xs2 :
  mapM sent l1 = Some xs1 → mapM sent l2 = Some xs2 →
  mapM sent (l1 ++ l2) = Some (xs1 ++ xs2).
Proof. rewrite !mapM_Some. apply Forall2_app. Qed.

Lemma page_size_pos : (0 < page_size)%nat.
Proof. unfold page_size. lia. Qed.

Lemma paginate_S fuel r l :
  paginate (S fuel) (r :: l) =
  take page_size (r :: l) :: paginate fuel (drop page_size (r :: l)).
Proof. reflexivity. Qed.

Lemma paginate_nil fuel : paginate fuel [] = [].
Proof. destruct fuel; reflexivity. Qed.

(** The pages are the values, cut. *)
Lemma paginate_concat fuel l : (length l ≤ fuel)%nat → concat (paginate fuel l) = l.
Proof.
  revert l. induction fuel as [|fuel IH]; intros l Hlen.
  - destruct l; [reflexivity | simpl in Hlen; lia].
  - destruct l as [|r l]; [reflexivity|].
    rewrite paginate_S. cbn [concat]. rewrite IH; [apply take_drop|].
    rewrite length_drop. pose proof page_size_pos. simpl in *. lia.
Qed.

Lemma paginate_sublist fuel l page : page ∈ paginate fuel l → page `sublist_of` l.
Proof.
  revert l. induction fuel as [|fuel IH]; intros l; [inversion 1|].
  destruct l as [|r l]; [inversion 1|].
  rewrite paginate_S. intros [->|Hin]%elem_of_cons; [apply sublist_take|].
  etrans; [apply IH, Hin|apply sublist_drop].
Qed.

(** Whether a statement goes through depends on its page alone. *)
Lemma execute_statement_cases page :
  (mapM sent page = None ∧
   ∀ t, execute_statement page t = Raise (DatabaseError "InvalidDatetimeFormat")) ∨
  (∃ xs, mapM sent page = Some xs ∧ ¬ NoDup xs.*1 ∧
         ∀ t, execute_statement page t = Raise (DatabaseError "CardinalityViolation")) ∨
  (∃ xs, mapM sent page = Some xs ∧ NoDup xs.*1 ∧
         ∀ t, execute_statement page t = Ok (upsert_rows xs t)).
Proof.
  unfold execute_statement. destruct (mapM sent page) as [xs|]; [|left; auto].
  right. destruct (decide (NoDup xs.*1)) as [Hnd|Hnd].
  - right. exists xs. rewrite (bool_decide_eq_true_2 _ Hnd). auto.
  - left. exists xs. rewrite (bool_decide_eq_false_2 _ Hnd). auto.
Qed.

Lemma execute_pages_cases pages :
  (∃ e page, page ∈ pages ∧ (∀ t, execute_pages pages t = Raise e) ∧
     (mapM sent page = None ∧ e = DatabaseError "InvalidDatetimeFormat" ∨
      ∃ xs, mapM sent page = Some xs ∧ ¬ NoDup xs.*1 ∧
            e = DatabaseError "CardinalityViolation")) ∨
  (∃ xs, mapM sent (concat pages) = Some xs ∧
         ∀ t, execute_pages pages t = Ok (upsert_rows xs t)).
Proof.
  induction pages as [|page pages IH]; [right; exists []; auto|].
  cbn [execute_pages concat].
  destruct (execute_statement_cases page)
    as [[Hs Hrun]|[(xs & Hs & Hnd & Hrun)|(xs & Hs & Hnd & Hrun)]].
  - left. exists (DatabaseError "InvalidDatetimeFormat"), page.
    split; [left|]. split; [intros t; rewrite Hrun; reflexivity|]. auto.
  - left. exists (DatabaseError "CardinalityViolation"), page.
    split; [left|]. split; [intros t; rewrite Hrun; reflexivity|]. right. eauto.
  - destruct IH as [(e & page' & Hin & Hrun' & He)|(xs' & Hs' & Hrun')].
    + left. exists e, page'. split; [right; exact Hin|].
      split; [intros t; rewrite Hrun; apply Hrun'|exact He].
    + right. exists (xs ++ xs'). split; [apply mapM_sent_app; assumption|].
      intros t. rewrite Hrun, Hrun', upsert_rows_app. reflexivity.
Qed.

(** What the function returns does not depend on the table; the table it
    leaves is the old one, or the old one with the rows of the frame put
    in. *)
Lemma upsert_fact_table_cases df :
  (Ingest.df_empty df = true ∧ ∀ t, upsert_fact_table df t = (Ok 0%nat, t)) ∨
  (Ingest.df_empty df = false ∧
   ∃ c, DataQuality.first_missing (columns df) insert_columns = Some c ∧
        ∀ t, upsert_fact_table df t = (Raise (KeyError c), t)) ∨
  (Ingest.df_empty df = false ∧ insert_columns ⊆ columns df ∧
   ∃ e page, page `sublist_of` rows df ∧
     (∀ t, upsert_fact_table df t = (Raise e, t)) ∧
     (mapM sent page = None ∧ e = DatabaseError "InvalidDatetimeFormat" ∨
      ∃ xs, mapM sent page = Some xs ∧ ¬ NoDup xs.*1 ∧
            e = DatabaseError "CardinalityViolation")) ∨
  (Ingest.df_empty df = false ∧ insert_columns ⊆ columns df ∧
   ∃ xs, mapM sent (rows df) = Some xs ∧
         ∀ t, upsert_fact_table df t = (Ok (length (rows df)), upsert_rows xs t)).
Proof.
  unfold upsert_fact_table.
  destruct (Ingest.df_empty df) eqn:He; [left; auto|right].
  destruct (DataQuality.first_missing (columns df) insert_columns) as [col|] eqn:Hfm.
  { left. split; [reflexivity|]. exists col. auto. }
  right. apply Gate.first_missing_None in Hfm. unfold execute_values.
  destruct (execute_pages_cases (paginate (length (rows df)) (rows df)))
    as [(e & page & Hin & Hrun & Hcase)|(xs & Hs & Hrun)].
  - left. split; [reflexivity|]. split; [exact Hfm|]. exists e, page.
    split; [apply (paginate_sublist _ _ _ Hin)|].
    split; [intros t; rewrite Hrun; reflexivity|exact Hcase].
  - right. split; [reflexivity|]. split; [exact Hfm|].
    rewrite paginate_concat in Hs by lia. exists xs. split; [exact Hs|].
    intros t. rewrite Hrun. reflexivity.
Qed.

(** A frame whose records have both dates and pairwise distinct keys goes
    through. *)
Lemma upsert_fact_table_Ok df :
  Ingest.df_empty df = false → insert_columns ⊆ columns df →
  (∀ r, r ∈ rows df → transaction_date r ≠ None ∧ updated_at r ≠ None) →
  NoDup (key <$> rows df) →
  ∃ xs, mapM sent (rows df) = Some xs ∧ NoDup xs.*1 ∧
        ∀ t, upsert_fact_table df t = (Ok (length (rows df)), upsert_rows xs t).
Proof.
  intros He Hcols Hdates Hnd.
  destruct (upsert_fact_table_cases df)
    as [[He' _]|[(_ & c & Hc & _)|[(_ & _ & e & page & Hsub & _ & Hcase)|(_ & _ & xs & Hs & Hrun)]]].
  - congruence.
  - apply Gate.first_missing_None in Hcols. congruence.
  - exfalso. destruct Hcase as [[Hs _]|(xs & Hs & Hdup & _)].
    + apply mapM_None, Exists_exists in Hs as (r & Hr & Hs).
      destruct (proj2 (sent_is_Some r)) as [x Hx]; [|congruence].
      apply Hdates. revert Hr. apply sublist_subseteq, Hsub.
    + apply Hdup, (sent_keys_NoDup _ _ Hs).
      apply (sublist_NoDup _ (key <$> rows df)); [exact Hnd|apply fmap_sublist, Hsub].
  - exists xs. split; [exact Hs|]. split; [apply (sent_keys_NoDup _ _ Hs Hnd)|exact Hrun].
Qed.

Lemma upsert_fact_table_merges df t :
  insert_columns ⊆ columns df →
  (∀ r, r ∈ rows df → transaction_date r ≠ None ∧ updated_at r ≠ None) →
  NoDup (key <$> rows df) →
  ∃ t', upsert_fact_table df t = (Ok (length (rows df)), t') ∧
        ∀ r, r ∈ rows df → ∃ x, sent r = Some x ∧ t' !! x.1 = Some x.2.
Proof.
  intros Hcols Hdates Hnd. destruct (Ingest.df_empty df) eqn:He.
  - assert (Hrows : rows df = []).
    { unfold Ingest.df_empty in He. apply bool_decide_eq_true in He as [Hc|Hr]; [|exact Hr].
      assert (Hin : "transaction_id" ∈ columns df) by (apply Hcols; left).
      rewrite Hc in Hin. inversion Hin. }
    exists t. unfold upsert_fact_table. rewrite He, Hrows. split; [reflexivity|]. inversion 1.
  - destruct (upsert_fact_table_Ok df He Hcols Hdates Hnd) as (xs & Hs & Hxs & Hrun).
    exists (upsert_rows xs t). split; [apply Hrun|]. intros r Hr.
    destruct (mapM_sent_elem_of _ _ _ Hs Hr) as (x & Hx & Hin). exists x.
    split; [exact Hx|]. apply upsert_rows_member; assumption.
Qed.

(** A record without one of its dates stops the merge. *)
Lemma upsert_fact_table_NaT df r :
  insert_columns ⊆ columns df → r ∈ rows df →
  transaction_date r = None ∨ updated_at r = None →
  ∃ msg, ∀ t, upsert_fact_table df t = (Raise (DatabaseError msg), t).
Proof.
  intros Hcols Hr Hnull.
  destruct (upsert_fact_table_cases df)
    as [[He _]|[(_ & c & Hc & _)|[(_ & _ & e & page & _ & Hrun & Hcase)|(_ & _ & xs & Hs & _)]]].
  - exfalso. unfold Ingest.df_empty in He. apply bool_decide_eq_true in He as [Hc|Hn].
    + assert (Hin : "transaction_id" ∈ columns df) by (apply Hcols; left).
      rewrite Hc in Hin. inversion Hin.
    + rewrite Hn in Hr. inversion Hr.
  - apply Gate.first_missing_None in Hcols. congruence.
  - destruct Hcase as [[_ ->]|(_ & _ & _ & ->)]; eauto.
  - exfalso. destruct (mapM_sent_elem_of _ _ _ Hs Hr) as (x & Hx & _).
    assert (Hsome : is_Some (sent r)) by eauto.
    apply sent_is_Some in Hsome. tauto.
Qed.

(** C9, as the code has it.  Calling the merger a second time with the same
    frame gives the same outcome and leaves the table as the first call left
    it, whatever the frame and the table.  The table lists one row per
    composite key, and after a call that returned it has exactly one row for
    the key of each record of the frame.  On records that have both dates and
    pairwise distinct keys the call does return, with the number of records,
    and the table holds each record.  A record without one of its dates makes
    the call raise and leave the table as it was. *)
Theorem upsert_idempotent df t :
  upsert_fact_table df (upsert_fact_table df t).2 = upsert_fact_table df t ∧
  NoDup (table_rows (upsert_fact_table df t).2).*1 ∧
  (insert_columns ⊆ columns df →
   ∀ n, (upsert_fact_table df t).1 = Ok n →
     n = length (rows df) ∧
     ∀ r, r ∈ rows df →
       ∃ x, sent r = Some x ∧
            length (filter (λ y, y.1 = x.1)
                      (table_rows (upsert_fact_table df t).2)) = 1%nat) ∧
  (insert_columns ⊆ columns df →
   (∀ r, r ∈ rows df → transaction_date r ≠ None ∧ updated_at r ≠ None) →
   NoDup (key <$> rows df) →
   (upsert_fact_table df t).1 = Ok (length (rows df)) ∧
   ∀ r, r ∈ rows df →
     ∃ x, sent r = Some x ∧ (upsert_fact_table df t).2 !! x.1 = Some x.2) ∧
  (insert_columns ⊆ columns df →
   ∀ r, r ∈ rows df → transaction_date r = None ∨ updated_at r = None →
   ∃ msg, upsert_fact_table df t = (Raise (DatabaseError msg), t)).
Proof.
  assert (Hnorows : Ingest.df_empty df = true → insert_columns ⊆ columns df → rows df = []).
  { unfold Ingest.df_empty. intros [Hc|Hr]%bool_decide_eq_true Hcols; [|exact Hr].
    assert (Hin : "transaction_id" ∈ columns df) by (apply Hcols; left).
    rewrite Hc in Hin. inversion Hin. }
  split; [|split; [apply table_rows_keys|split; [|split]]].
  - destruct (upsert_fact_table_cases df)
      as [[_ Hrun]|[(_ & c & _ & Hrun)|[(_ & _ & e & page & _ & Hrun & _)|(_ & _ & xs & _ & Hrun)]]];
      rewrite (Hrun t); cbn [snd]; rewrite ?Hrun; try reflexivity.
    rewrite upsert_rows_twice. reflexivity.
  - intros Hcols n Hn.
    destruct (upsert_fact_table_cases df)
      as [[He Hrun]|[(_ & c & _ & Hrun)|[(_ & _ & e & page & _ & Hrun & _)|(_ & _ & xs & Hs & Hrun)]]];
      rewrite (Hrun t) in Hn |- *; cbn [fst snd] in Hn |- *; try discriminate.
    + injection Hn as <-. rewrite (Hnorows He Hcols). split; [reflexivity|]. inversion 1.
    + injection Hn as <-. split; [reflexivity|]. intros r Hr.
      destruct (mapM_sent_elem_of _ _ _ Hs Hr) as (x & Hx & Hin). exists x.
      split; [exact Hx|]. apply table_rows_one, upsert_rows_covered, Hin.
  - intros Hcols Hdates Hnd.
    destruct (upsert_fact_table_merges df t Hcols Hdates Hnd) as (t' & Hrun & Hin).
    rewrite Hrun. cbn [fst snd]. split; [reflexivity|exact Hin].
  - intros Hcols r Hr Hnull.
    destruct (upsert_fact_table_NaT df r Hcols Hr Hnull) as [msg Hrun].
    exists msg. apply Hrun.
Qed.

Lemma upsert_idempotent_witness :
  upsert_fact_table (mkDF Samples.schema [Samples.row_t1; Samples.row_t2])
    (upsert_fact_table (mkDF Samples.schema [Samples.row_t1; Samples.row_t2]) ∅).2
  = upsert_fact_table (mkDF Samples.schema [Samples.row_t1; Samples.row_t2]) ∅.
Proof.
  apply (upsert_idempotent (mkDF Samples.schema [Samples.row_t1; Samples.row_t2]) ∅).
Defined.

(** A record that the quality gate accepts, with no [updated_at]: the merger
    raises on it, the second time as the first, and the table has no row for
    its key. *)
Lemma accepted_record_not_merged :
  DataQuality.apply_data_quality_checks 0
    (mkDF Samples.schema [Samples.row_no_updated_at]) Samples.products
  = Ok (mkDF Samples.schema [DataQuality.normalize_status Samples.row_no_updated_at], []) ∧
  upsert_fact_table
    (mkDF Samples.schema [DataQuality.normalize_status Samples.row_no_updated_at]) ∅
  = (Raise (DatabaseError "InvalidDatetimeFormat"), ∅) ∧
  filter (λ y, y.1 = ("t3", 20454))
    (table_rows
       (upsert_fact_table
          (mkDF Samples.schema [DataQuality.normalize_status Samples.row_no_updated_at])
          (upsert_fact_table
             (mkDF Samples.schema [DataQuality.normalize_status Samples.row_no_updated_at])
             ∅).2).2)
  = [].
Proof. split; [|split]; vm_compute; reflexivity. Qed.

(** Scenario 6 of the specification: the same record merged twice. *)
Example merged_twice_one_row :
  upsert_fact_table (mkDF Samples.schema [Samples.row_t1]) ∅
    = (Ok 1%nat,
       {[ ("t1", 20454) := mkPayload "c1" "p1" (Number (Q2Qc 100)) "SUCCESS" Samples.jan_1 ]}) ∧
  table_rows
    (upsert_fact_table (mkDF Samples.schema [Samples.row_t1])
       (upsert_fact_table (mkDF Samples.schema [Samples.row_t1]) ∅).2).2
    = [(("t1", 20454), mkPayload "c1" "p1" (Number (Q2Qc 100)) "SUCCESS" Samples.jan_1)].
Proof. split; vm_compute; reflexivity. Qed.

(** A stored row is overwritten by a proposal with its key. *)
Example merge_overwrites :
  (upsert_fact_table (mkDF Samples.schema [Samples.row_dup_second])
     (upsert_fact_table
        (mkDF Samples.schema [Samples.row_t1; Samples.row_dup_first]) ∅).2).2
  !! ("dup", 20454)
  = Some (mkPayload "c2" "p1" (Number (Q2Qc 250)) "pending" Samples.jan_2).
Proof. vm_compute. reflexivity. Qed.

(** Two proposals for one key in one statement: the call raises and the table
    stays as it was. *)
Example merge_same_key_twice_fails :
  upsert_fact_table (mkDF Samples.schema [Samples.row_dup_first; Samples.row_dup_second]) ∅
  = (Raise (DatabaseError "CardinalityViolation"), ∅).
Proof. vm_compute. reflexivity. Qed.

(** A null cell of a text column goes in as the text NaN. *)
Example merge_null_customer :
  (upsert_fact_table (mkDF Samples.schema [Samples.row_no_customer]) ∅).2
  !! ("t5", 20454)
  = Some (mkPayload "NaN" "p1" (Number (Q2Qc 100)) "SUCCESS" Samples.jan_1).
Proof. vm_compute. reflexivity. Qed.

End LoadFactFacts.

(** ** Claims on the objects *)

Module HeapFacts.
Import Heap.

Lemma preserved_refl h : preserved h h.
Proof. intros l df H. exact H. Qed.

Lemma preserved_trans h1 h2 h3 : preserved h1 h2 → preserved h2 h3 → preserved h1 h3.
Proof. intros H12 H23 l df H. apply H23, H12, H. Qed.

Lemma preserved_new h (df : DataFrame) : preserved h (h ++ [df]).
Proof. intros l x H. apply lookup_app_l_Some, H. Qed.

Lemma preserved_fresh h h' (l : loc) : preserved h h' → h' !! l = None → h !! l = None.
Proof.
  intros Hp Hn. destruct (h !! l) as [df|] eqn:Hl; [|reflexivity].
  apply Hp in Hl. congruence.
Qed.

Lemma lookup_new h (df : DataFrame) : (h ++ [df]) !! length h = Some df.
Proof. apply list_lookup_middle. reflexivity. Qed.

Lemma lookup_fresh (h : list DataFrame) : h !! length h = None.
Proof. apply lookup_ge_None. lia. Qed.

Lemma run_bind_Ok {A B} (m : M A) (k : A → M B) h a h1 :
  m h = (Ok a, h1) → bind m k h = k a h1.
Proof. intros H. unfold bind. rewrite H. reflexivity. Qed.

Lemma run_get h l df : h !! l = Some df → get l h = (Ok df, h).
Proof. intros H. unfold get. rewrite H. reflexivity. Qed.

Lemma run_copy h l df : h !! l = Some df → copy l h = (Ok (length h), h ++ [df]).
Proof. intros H. unfold copy. rewrite (run_bind_Ok _ _ _ _ _ (run_get h l df H)). reflexivity. Qed.

Lemma run_select h l df mask :
  h !! l = Some df →
  select l mask h =
  (Ok (length h), h ++ [mkDF (columns df) (filter (λ r, mask (rows df) r) (rows df))]).
Proof. intros H. unfold select. rewrite (run_bind_Ok _ _ _ _ _ (run_get h l df H)). reflexivity. Qed.

Lemma run_drop_duplicates_first h l df :
  h !! l = Some df →
  drop_duplicates_first l h =
  (Ok (length h), h ++ [mkDF (columns df) (drop_duplicates (rows df))]).
Proof.
  intros H. unfold drop_duplicates_first.
  rewrite (run_bind_Ok _ _ _ _ _ (run_get h l df H)). reflexivity.
Qed.

Lemma run_report h l df msg errors :
  h !! l = Some df →
  report l msg errors h = (Ok (errors ++ ((λ r, (transaction_id r, msg)) <$> rows df)), h).
Proof. intros H. unfold report. rewrite (run_bind_Ok _ _ _ _ _ (run_get h l df H)). reflexivity. Qed.

(** The assignment to the status column changes the object it is made on. *)
Lemma run_setitem_status_lower h l df :
  h !! l = Some df →
  setitem_status_lower l h =
  (Ok (), <[l := mkDF (columns df) (DataQuality.normalize_status <$> rows df)]> h).
Proof.
  intros H. unfold setitem_status_lower.
  rewrite (run_bind_Ok _ _ _ _ _ (run_get h l df H)). reflexivity.
Qed.

Lemma setitem_status_lower_in_place h l df :
  h !! l = Some df →
  (setitem_status_lower l h).2 !! l
  = Some (mkDF (columns df) (DataQuality.normalize_status <$> rows df)).
Proof.
  intros H. rewrite (run_setitem_status_lower h l df H). cbn [snd].
  apply list_lookup_insert_eq. apply lookup_lt_Some in H. exact H.
Qed.

(** One block of the function on objects: the frames it selects are new
    objects, and it computes what the block computes on values. *)
Lemma run_removal_pass p v errors h cols rws :
  h !! v = Some (mkDF cols rws) →
  ∃ v' h',
    removal_pass p (v, errors) h
      = (Ok (v', (DataQuality.removal_pass p (rws, errors)).2), h') ∧
    h' !! v' = Some (mkDF cols (DataQuality.removal_pass p (rws, errors)).1) ∧
    h !! v' = None ∧ preserved h h'.
Proof.
  intros Hv. unfold removal_pass. cbn [fst snd].
  rewrite (run_bind_Ok _ _ _ _ _ (run_select h v _ _ Hv)).
  rewrite (run_bind_Ok _ _ _ _ _ (run_report _ _ _ _ _ (lookup_new h _))).
  assert (Hv1 := preserved_new h (mkDF (columns (mkDF cols rws))
              (filter (λ r, DataQuality.reject p r) (rows (mkDF cols rws)))) _ _ Hv).
  rewrite (run_bind_Ok _ _ _ _ _ (run_select _ v _ _ Hv1)).
  eexists _, _. split; [reflexivity|]. split; [apply lookup_new|]. split.
  - apply lookup_ge_None. rewrite length_app. lia.
  - eapply preserved_trans; apply preserved_new.
Qed.

Lemma run_not_null_checks cols_todo v errors h cols rws :
  h !! v = Some (mkDF cols rws) →
  ∃ v' h',
    foldM (λ st col, removal_pass (DataQuality.not_null_check col) st) (v, errors) cols_todo h
      = (Ok (v', (foldl (λ st col, DataQuality.removal_pass (DataQuality.not_null_check col) st)
                        (rws, errors) cols_todo).2), h') ∧
    h' !! v' = Some (mkDF cols
                  (foldl (λ st col, DataQuality.removal_pass (DataQuality.not_null_check col) st)
                         (rws, errors) cols_todo).1) ∧
    (v' = v ∨ h !! v' = None) ∧ preserved h h'.
Proof.
  revert v errors h rws. induction cols_todo as [|c cols_todo IH]; intros v errors h rws Hv.
  - exists v, h. split; [reflexivity|]. split; [exact Hv|]. split; [left; reflexivity|].
    apply preserved_refl.
  - destruct (run_removal_pass (DataQuality.not_null_check c) v errors h cols rws Hv)
      as (v1 & h1 & Hrun & Hv1 & Hfresh & Hp).
    cbn [foldM foldl]. rewrite (run_bind_Ok _ _ _ _ _ Hrun).
    destruct (IH v1 (DataQuality.removal_pass (DataQuality.not_null_check c) (rws, errors)).2
                 h1 _ Hv1) as (v' & h' & Hrun' & Hv' & Hfresh' & Hp').
    exists v', h'. split.
    + rewrite Hrun'. unfold DataQuality.removal_pass. reflexivity.
    + split; [exact Hv'|]. split; [|eapply preserved_trans; eassumption].
      right. destruct Hfresh' as [->|Hn]; [exact Hfresh|].
      eapply preserved_fresh; eassumption.
Qed.

Lemma removal_pass_stands_for p cols h st vst :
  stands_for cols h st vst →
  ∃ st' h',
    removal_pass p st h = (Ok st', h') ∧
    stands_for cols h' st' (DataQuality.removal_pass p vst) ∧
    h !! st'.1 = None ∧ preserved h h'.
Proof.
  destruct st as [v errors], vst as [rws errors']. intros [Hv Herr].
  cbn [fst snd] in Hv, Herr. subst errors'.
  destruct (run_removal_pass p v errors h cols rws Hv) as (v' & h' & Hrun & Hv' & Hn & Hp).
  eexists (_, _), h'. split; [exact Hrun|]. split; [|split; assumption].
  split; [exact Hv' | reflexivity].
Qed.

Lemma not_null_checks_stands_for cols h st vst :
  stands_for cols h st vst →
  ∃ st' h',
    foldM (λ st col, removal_pass (DataQuality.not_null_check col) st) st
          DataQuality.NOT_NULL_COLUMNS h = (Ok st', h') ∧
    stands_for cols h' st' (DataQuality.not_null_checks vst) ∧
    (st'.1 = st.1 ∨ h !! st'.1 = None) ∧ preserved h h'.
Proof.
  destruct st as [v errors], vst as [rws errors']. intros [Hv Herr].
  cbn [fst snd] in Hv, Herr. subst errors'.
  destruct (run_not_null_checks DataQuality.NOT_NULL_COLUMNS v errors h cols rws Hv)
    as (v' & h' & Hrun & Hv' & Hn & Hp).
  eexists (_, _), h'. split; [exact Hrun|]. split; [|split; assumption].
  split; [exact Hv' | reflexivity].
Qed.

(** C10.  The function works on a copy: whatever it returns or raises, the
    frame object it was given holds afterwards what it held before, the
    original casing of the status column included, and so does every other
    object of the caller.  The accepted frame it returns is a new object, and
    it holds the frame computed by [DataQuality.apply_data_quality_checks]. *)
Theorem input_frame_unchanged now h l df products_set :
  h !! l = Some df →
  ∃ res h',
    apply_data_quality_checks now l products_set h = (res, h') ∧
    h' !! l = Some df ∧ preserved h h' ∧
    match res, DataQuality.apply_data_quality_checks now df products_set with
    | Ok (l', errors), Ok (valid, errors') =>
        h' !! l' = Some valid ∧ h !! l' = None ∧ errors = errors'
    | Raise e, Raise e' => e = e'
    | _, _ => False
    end.
Proof.
  intros Hl.
  enough (∃ res h',
    apply_data_quality_checks now l products_set h = (res, h') ∧ preserved h h' ∧
    match res, DataQuality.apply_data_quality_checks now df products_set with
    | Ok (l', errors), Ok (valid, errors') =>
        h' !! l' = Some valid ∧ h !! l' = None ∧ errors = errors'
    | Raise e, Raise e' => e = e'
    | _, _ => False
    end) as (res & h' & Hrun & Hp & Hres).
  { exists res, h'. split; [exact Hrun|]. split; [apply Hp, Hl|]. split; assumption. }
  unfold apply_data_quality_checks, DataQuality.apply_data_quality_checks.
  rewrite (run_bind_Ok _ _ _ _ _ (run_copy h l df Hl)).
  rewrite (run_bind_Ok _ _ _ _ _ (run_get _ _ _ (lookup_new h df))).
  destruct (DataQuality.first_missing (columns df) DataQuality.EXPECTED_COLUMNS) as [col|].
  { eexists _, _. split; [reflexivity|]. split; [apply preserved_new | reflexivity]. }
  rewrite (run_bind_Ok _ _ _ _ _ (run_setitem_status_lower _ _ _ (lookup_new h df))).
  set (nd := mkDF (columns df) (DataQuality.normalize_status <$> rows df)).
  set (h2 := <[length h := nd]> (h ++ [df])).
  assert (Hnd : h2 !! length h = Some nd).
  { apply list_lookup_insert_eq. rewrite length_app. simpl. lia. }
  assert (Hp2 : preserved h h2).
  { intros l0 x Hx. unfold h2. rewrite list_lookup_insert_ne.
    - apply lookup_app_l_Some, Hx.
    - apply lookup_lt_Some in Hx. lia. }
  assert (Hlen2 : length h2 = S (length h)).
  { unfold h2. rewrite length_insert, length_app. simpl. lia. }
  rewrite (run_bind_Ok _ _ _ _ _ (run_select h2 _ nd duplicated Hnd)).
  rewrite (run_bind_Ok _ _ _ _ _ (run_report _ _ _ _ _ (lookup_new h2 _))).
  set (h3 := h2 ++ [_]).
  assert (Hnd3 : h3 !! length h = Some nd) by (apply preserved_new, Hnd).
  rewrite (run_bind_Ok _ _ _ _ _ (run_drop_duplicates_first h3 _ nd Hnd3)).
  set (h4 := h3 ++ [_]).
  assert (Hp4 : preserved h h4).
  { eapply preserved_trans; [exact Hp2|].
    eapply preserved_trans; apply preserved_new. }
  assert (Hs0 : stands_for (columns df) h4 (length h3, [] ++ ((λ r, (transaction_id r, "Duplicate transaction_id")) <$> rows (mkDF (columns nd) (filter (λ r, duplicated (rows nd) r) (rows nd)))))
                  (DataQuality.duplicate_check (DataQuality.normalize_status <$> rows df))).
  { split; [apply lookup_new | reflexivity]. }
  destruct (not_null_checks_stands_for _ _ _ _ Hs0) as (st1 & h5 & Hrun1 & Hs1 & _ & Hp5).
  rewrite (run_bind_Ok _ _ _ _ _ Hrun1).
  destruct (removal_pass_stands_for DataQuality.amount_check _ _ _ _ Hs1)
    as (st2 & h6 & Hrun2 & Hs2 & _ & Hp6).
  rewrite (run_bind_Ok _ _ _ _ _ Hrun2).
  destruct (removal_pass_stands_for DataQuality.status_check _ _ _ _ Hs2)
    as (st3 & h7 & Hrun3 & Hs3 & Hn3 & Hp7).
  rewrite (run_bind_Ok _ _ _ _ _ Hrun3).
  assert (Hp06 : preserved h h6).
  { exact (preserved_trans _ _ _ Hp4 (preserved_trans _ _ _ Hp5 Hp6)). }
  assert (Hp07 : preserved h h7) by exact (preserved_trans _ _ _ Hp06 Hp7).
  assert (Hfresh3 : h !! st3.1 = None) by exact (preserved_fresh _ _ _ Hp06 Hn3).
  unfold DataQuality.referential_check.
  destruct (bool_decide (products_set = ∅)).
  - unfold bind, ret. eexists _, h7. split; [reflexivity|].
    split; [exact Hp07|].
    destruct Hs3 as [Hv3 He3]. split; [exact Hv3|]. split; [exact Hfresh3|].
    rewrite He3. reflexivity.
  - destruct (removal_pass_stands_for (DataQuality.product_check products_set) _ _ _ _ Hs3)
      as (st4 & h8 & Hrun4 & Hs4 & Hn4 & Hp8).
    rewrite (run_bind_Ok _ _ _ _ _ Hrun4). unfold ret.
    eexists _, h8. split; [reflexivity|].
    split; [exact (preserved_trans _ _ _ Hp07 Hp8)|].
    destruct Hs4 as [Hv4 He4]. split; [exact Hv4|]. split.
    + exact (preserved_fresh _ _ _ Hp07 Hn4).
    + rewrite He4. reflexivity.
Qed.

Lemma input_frame_unchanged_witness :
  ∃ res h',
    apply_data_quality_checks 0 0%nat Samples.products [mkDF Samples.schema [Samples.row_t1]]
      = (res, h') ∧
    h' !! 0%nat = Some (mkDF Samples.schema [Samples.row_t1]) ∧
    preserved [mkDF Samples.schema [Samples.row_t1]] h' ∧
    match res, DataQuality.apply_data_quality_checks 0
                 (mkDF Samples.schema [Samples.row_t1]) Samples.products with
    | Ok (l', errors), Ok (valid, errors') =>
        h' !! l' = Some valid ∧
        [mkDF Samples.schema [Samples.row_t1]] !! l' = None ∧ errors = errors'
    | Raise e, Raise e' => e = e'
    | _, _ => False
    end.
Proof.
  apply (input_frame_unchanged 0 [mkDF Samples.schema [Samples.row_t1]] 0%nat
           (mkDF Samples.schema [Samples.row_t1]) Samples.products).
  reflexivity.
Defined.

(** The caller's frame keeps "SUCCESS"; the accepted frame, another object,
    has "success". *)
Example status_casing_kept :
  let run := apply_data_quality_checks 0 0%nat Samples.products
               [mkDF Samples.schema [Samples.row_t1]] in
  run.2 !! 0%nat = Some (mkDF Samples.schema [Samples.row_t1]) ∧
  ∃ l', run.1 = Ok (l', []) ∧ l' ≠ 0%nat ∧
        run.2 !! l' = Some (mkDF Samples.schema [DataQuality.normalize_status Samples.row_t1]).
Proof.
  split; [vm_compute; reflexivity|].
  eexists. split; [vm_compute; reflexivity|]. split; [discriminate|].
  vm_compute. reflexivity.
Qed.

End HeapFacts.

(** ** More on the quality gate *)

Module GateMore.
Import DataQuality ChainFacts GateFacts KeyFacts.

Ltac by_elem := unfold NOT_NULL_COLUMNS; repeat first [left | right].

Lemma gate_returns_inv now df products_set valid errors :
  apply_data_quality_checks now df products_set = Ok (valid, errors) →
  EXPECTED_COLUMNS ⊆ columns df ∧
  valid = mkDF (columns df)
            (filter (λ r, passes (rule_chain products_set) r)
                    (drop_duplicates (normalize_status <$> rows df))) ∧
  errors = error_frame now
             (duplicate_entries (normalize_status <$> rows df) ++
              chain_errors (rule_chain products_set)
                           (drop_duplicates (normalize_status <$> rows df))).
Proof.
  intros Hrun.
  assert (Hs : EXPECTED_COLUMNS ⊆ columns df).
  { apply Gate.first_missing_None. unfold apply_data_quality_checks in Hrun.
    destruct (first_missing (columns df) EXPECTED_COLUMNS); [discriminate|reflexivity]. }
  split; [exact Hs|].
  pose proof (Gate.gate_Ok now df products_set Hs) as Hok.
  rewrite Hrun in Hok. split; congruence.
Qed.

Lemma isnull_false_transaction_id v : isnull "transaction_id" v = false → transaction_id v ≠ None.
Proof. unfold isnull. simpl. apply bool_decide_eq_false. Qed.

Lemma isnull_false_customer_id v : isnull "customer_id" v = false → customer_id v ≠ None.
Proof. unfold isnull. simpl. apply bool_decide_eq_false. Qed.

Lemma isnull_false_product_id v : isnull "product_id" v = false → product_id v ≠ None.
Proof. unfold isnull. simpl. apply bool_decide_eq_false. Qed.

Lemma isnull_false_transaction_date v :
  isnull "transaction_date" v = false → transaction_date v ≠ None.
Proof. unfold isnull. simpl. apply bool_decide_eq_false. Qed.

(** The rows that pass the chain, rule by rule. *)
Lemma passes_rule_chain products_set v :
  passes (rule_chain products_set) v = true ↔
  (∀ c, c ∈ NOT_NULL_COLUMNS → isnull c v = false) ∧
  amount_gt_0 v = true ∧ status_isin v = true ∧
  (products_set ≠ ∅ → product_isin products_set v = true).
Proof.
  unfold rule_chain. rewrite !Gate.passes_app, !andb_true_iff.
  assert (Hnn : passes (not_null_check <$> NOT_NULL_COLUMNS) v = true
                ↔ ∀ c, c ∈ NOT_NULL_COLUMNS → isnull c v = false).
  { unfold passes. rewrite forallb_forall. split.
    - intros Hall c Hc. apply negb_true_iff.
      apply (Hall (not_null_check c)), list_elem_of_In, list_elem_of_fmap. eauto.
    - intros Hall p (c & -> & Hc)%list_elem_of_In%list_elem_of_fmap.
      cbn [keep not_null_check]. unfold notnull. rewrite (Hall c Hc). reflexivity. }
  rewrite Hnn. rewrite !passes_cons. cbn [keep amount_check status_check].
  change (passes [] v) with true. rewrite andb_true_r, andb_true_iff.
  destruct (decide (products_set = ∅)) as [He|Hne].
  - rewrite bool_decide_eq_true_2 by exact He. change (passes [] v) with true.
    split; [intros (? & (? & ?) & _)|intros (? & ? & ? & _)]; tauto.
  - rewrite bool_decide_eq_false_2 by exact Hne.
    rewrite passes_cons. cbn [keep product_check]. change (passes [] v) with true.
    rewrite andb_true_r. split; [intros (? & (? & ?) & ?)|intros (? & ? & ? & Hp)]; auto.
Qed.

Lemma accepted_frame_shape now df products_set valid errors :
  apply_data_quality_checks now df products_set = Ok (valid, errors) →
  columns valid = columns df ∧
  rows valid `sublist_of` (normalize_status <$> rows df) ∧
  NoDup (transaction_id <$> rows valid) ∧
  ∀ v, v ∈ rows valid → passes (rule_chain products_set) v = true.
Proof.
  intros (_ & -> & _)%gate_returns_inv. cbn [columns rows].
  assert (Hsub : filter (λ r, passes (rule_chain products_set) r)
                   (drop_duplicates (normalize_status <$> rows df))
                 `sublist_of` drop_duplicates (normalize_status <$> rows df))
    by apply sublist_filter.
  split; [reflexivity|]. split; [|split].
  - etrans; [exact Hsub|]. apply drop_duplicates_from_sublist.
  - eapply sublist_NoDup; [apply NoDup_drop_duplicates|].
    apply fmap_sublist, Hsub.
  - intros v [Hp _]%list_elem_of_filter. apply Is_true_true, Hp.
Qed.

(** X1.  Whatever the input, the accepted frame has the columns of the input
    and its rows are rows of the input with the status lower-cased, in input
    order; no two of them share a transaction_id, and each of them has its
    five NOT NULL columns filled, a positive amount, a status of
    [VALID_STATUS] and, when a product set is given, a product of that
    set. *)
Theorem accepted_rows_are_valid now df products_set valid errors :
  apply_data_quality_checks now df products_set = Ok (valid, errors) →
  columns valid = columns df ∧
  rows valid `sublist_of` (normalize_status <$> rows df) ∧
  NoDup (transaction_id <$> rows valid) ∧
  ∀ v, v ∈ rows valid →
    transaction_id v ≠ None ∧ customer_id v ≠ None ∧ product_id v ≠ None ∧
    transaction_date v ≠ None ∧
    (∃ a, amount v = Some a ∧ (0 < a)%Qc) ∧
    (∃ s, status v = Some s ∧ s ∈ VALID_STATUS) ∧
    (products_set ≠ ∅ → ∃ p, product_id v = Some p ∧ p ∈ products_set).
Proof.
  intros (Hcols & Hsub & Hnd & Hpass)%accepted_frame_shape.
  split; [exact Hcols|]. split; [exact Hsub|]. split; [exact Hnd|].
  intros v Hp%Hpass.
  apply passes_rule_chain in Hp as (Hnn & Ha & Hst & Hpr).
  split; [apply isnull_false_transaction_id, Hnn; by_elem|].
  split; [apply isnull_false_customer_id, Hnn; by_elem|].
  split; [apply isnull_false_product_id, Hnn; by_elem|].
  split; [apply isnull_false_transaction_date, Hnn; by_elem|].
  split; [|split].
  - unfold amount_gt_0 in Ha. destruct (amount v) as [a|]; [|discriminate].
    exists a. split; [reflexivity|]. apply bool_decide_eq_true in Ha. exact Ha.
  - unfold status_isin in Hst. destruct (status v) as [s|]; [|discriminate].
    exists s. split; [reflexivity|]. apply bool_decide_eq_true in Hst. exact Hst.
  - intros Hne. specialize (Hpr Hne). unfold product_isin in Hpr.
    destruct (product_id v) as [p|]; [|discriminate].
    exists p. split; [reflexivity|]. apply bool_decide_eq_true in Hpr. exact Hpr.
Qed.

(** The accepted rows have their composite key filled. *)
Lemma accepted_keys_notnull now df products_set valid errors v :
  apply_data_quality_checks now df products_set = Ok (valid, errors) →
  v ∈ rows valid → transaction_id v ≠ None ∧ transaction_date v ≠ None.
Proof.
  intros (_ & _ & _ & Hpass)%accepted_frame_shape Hp%Hpass.
  apply passes_rule_chain in Hp as (Hnn & _).
  split; [apply isnull_false_transaction_id|apply isnull_false_transaction_date];
    apply Hnn; by_elem.
Qed.

Lemma accepted_rows_are_valid_witness :
  NoDup (transaction_id <$> [normalize_status Samples.row_t1]).
Proof.
  apply (accepted_rows_are_valid 0
           (mkDF Samples.schema [Samples.row_t1; Samples.row_t2]) Samples.products
           (mkDF Samples.schema [normalize_status Samples.row_t1])
           [mkErr (Some "t2") "Amount must be > 0" 0]).
  vm_compute. reflexivity.
Defined.

Lemma ascii_lower_idempotent c : ascii_lower (ascii_lower c) = ascii_lower c.
Proof. destruct c as [[] [] [] [] [] [] [] []]; reflexivity. Qed.

Lemma str_lower_idempotent s : str_lower (str_lower s) = str_lower s.
Proof.
  induction s as [|c s IH]; [reflexivity|].
  simpl. rewrite ascii_lower_idempotent, IH. reflexivity.
Qed.

Lemma normalize_status_idempotent r :
  normalize_status (normalize_status r) = normalize_status r.
Proof.
  unfold normalize_status. cbn [transaction_id customer_id product_id amount
    transaction_date status updated_at].
  destruct (status r) as [s|]; cbn [fmap option_fmap option_map];
    [rewrite str_lower_idempotent|]; reflexivity.
Qed.

Lemma chain_errors_all_pass products_set l :
  (∀ r, r ∈ l → passes (rule_chain products_set) r = true) →
  chain_errors (rule_chain products_set) l = [].
Proof.
  intros Hall. apply nil_length_inv.
  pose proof (rule_chain_count products_set l) as Hcount.
  rewrite filter_all in Hcount; [lia|].
  intros r Hr. rewrite (Hall r Hr). exact I.
Qed.

(** X2.  The gate accepts what it has accepted: run on its own accepted
    frame, at any time and with the same product set, it returns that frame
    and no entry. *)
Theorem gate_idempotent_on_accepted now now' df products_set valid errors :
  apply_data_quality_checks now df products_set = Ok (valid, errors) →
  apply_data_quality_checks now' valid products_set = Ok (valid, []).
Proof.
  intros Hrun. destruct (gate_returns_inv _ _ _ _ _ Hrun) as (Hs & Hv & _).
  pose proof (accepted_frame_shape _ _ _ _ _ Hrun) as (Hcols & Hsub & Hnd & _).
  assert (Hpass : ∀ v, v ∈ rows valid → passes (rule_chain products_set) v = true).
  { intros v Hin. rewrite Hv in Hin. cbn [rows] in Hin.
    apply list_elem_of_filter in Hin as [Hp _]. apply Is_true_true, Hp. }
  assert (Hnorm : normalize_status <$> rows valid = rows valid).
  { rewrite <- (list_fmap_id (rows valid)) at 2. apply list_fmap_ext.
    intros i v Hi. apply list_elem_of_lookup_2 in Hi.
    eapply sublist_subseteq in Hi; [|exact Hsub].
    apply list_elem_of_fmap in Hi as (r & -> & _). apply normalize_status_idempotent. }
  rewrite Gate.gate_Ok by (rewrite Hcols; exact Hs).
  rewrite Hnorm, (drop_duplicates_NoDup _ Hnd).
  rewrite (duplicate_entries_NoDup _ Hnd), (chain_errors_all_pass _ _ Hpass).
  rewrite filter_all by (intros v Hin; rewrite (Hpass v Hin); exact I).
  destruct valid. reflexivity.
Qed.

Lemma gate_idempotent_on_accepted_witness :
  apply_data_quality_checks 5 (mkDF Samples.schema [normalize_status Samples.row_t1])
    Samples.products
  = Ok (mkDF Samples.schema [normalize_status Samples.row_t1], []).
Proof.
  apply (gate_idempotent_on_accepted 0 5
           (mkDF Samples.schema [Samples.row_t1; Samples.row_t2]) Samples.products
           (mkDF Samples.schema [normalize_status Samples.row_t1])
           [mkErr (Some "t2") "Amount must be > 0" 0]).
  vm_compute. reflexivity.
Defined.

Lemma occurrences_app k l1 l2 :
  occurrences k (l1 ++ l2) = occurrences k l1 ++ occurrences k l2.
Proof. unfold occurrences. apply filter_app. Qed.

(** A row whose key was seen before, or comes again, is under the mask of
    the duplicate block. *)
Lemma dropped_rows_are_reported seen pre l :
  (∀ k, k ∈ seen → k ∈ transaction_id <$> pre) →
  (length l ≤ length (filter (λ r, duplicated (pre ++ l) r) l) +
              length (drop_duplicates_from seen l))%nat.
Proof.
  revert seen pre. induction l as [|r l IH]; intros seen pre Hseen; [simpl; lia|].
  assert (Hpre : pre ++ r :: l = (pre ++ [r]) ++ l) by (rewrite <- app_assoc; reflexivity).
  rewrite filter_cons. cbn [drop_duplicates_from].
  destruct (decide (transaction_id r ∈ seen)) as [Hin|Hnin].
  - rewrite bool_decide_eq_true_2 by exact Hin.
    specialize (IH seen (pre ++ [r])). rewrite <- Hpre in IH.
    assert (Hdup : duplicated (pre ++ r :: l) r = true).
    { unfold duplicated. apply bool_decide_eq_true.
      apply Hseen, list_elem_of_fmap in Hin as (x & Hk & Hx).
      apply elem_of_occurrences in Hx. rewrite <- Hk in Hx.
      rewrite occurrences_app, occurrences_cons, decide_True by reflexivity.
      rewrite length_app. cbn [length].
      destruct (occurrences (transaction_id r) pre); [inversion Hx | simpl; lia]. }
    rewrite Hdup. rewrite decide_True by exact I. cbn [length].
    assert (length l ≤ length (filter (λ r0, duplicated (pre ++ r :: l) r0) l) +
                       length (drop_duplicates_from seen l))%nat; [|lia].
    apply IH. intros k Hk. rewrite fmap_app. apply elem_of_app. left. apply Hseen, Hk.
  - rewrite bool_decide_eq_false_2 by exact Hnin. cbn [length].
    specialize (IH (transaction_id r :: seen) (pre ++ [r])). rewrite <- Hpre in IH.
    assert (length l ≤ length (filter (λ r0, duplicated (pre ++ r :: l) r0) l) +
                       length (drop_duplicates_from (transaction_id r :: seen) l))%nat.
    { apply IH. intros k [->|Hk]%elem_of_cons; rewrite fmap_app; apply elem_of_app.
      - right. left.
      - left. apply Hseen, Hk. }
    destruct (decide (duplicated (pre ++ r :: l) r)); cbn [length]; lia.
Qed.

(** X3.  No record goes unaccounted for: the accepted rows and the entries of
    the error frame are together at least as many as the input rows. *)
Theorem gate_accounts_for_every_row now df products_set valid errors :
  apply_data_quality_checks now df products_set = Ok (valid, errors) →
  (length (rows df) ≤ length (rows valid) + length errors)%nat.
Proof.
  intros (_ & -> & ->)%gate_returns_inv. cbn [rows].
  unfold error_frame. rewrite length_fmap, length_app.
  pose proof (rule_chain_count products_set
                (drop_duplicates (normalize_status <$> rows df))) as Hcount.
  pose proof (dropped_rows_are_reported [] [] (normalize_status <$> rows df)) as Hdrop.
  unfold duplicate_entries. rewrite length_fmap.
  rewrite app_nil_l, length_fmap in Hdrop. unfold drop_duplicates.
  unfold drop_duplicates in Hcount.
  assert (Hseen : ∀ k : option string, k ∈ [] → k ∈ transaction_id <$> []) by (inversion 1).
  specialize (Hdrop Hseen). lia.
Qed.

Lemma gate_accounts_for_every_row_witness :
  (length [Samples.row_dup_negative; Samples.row_dup_second] ≤ 0 + 3)%nat.
Proof.
  apply (gate_accounts_for_every_row 0
           (mkDF Samples.schema [Samples.row_dup_negative; Samples.row_dup_second])
           Samples.products (mkDF Samples.schema [])
           [mkErr (Some "dup") "Duplicate transaction_id" 0;
            mkErr (Some "dup") "Duplicate transaction_id" 0;
            mkErr (Some "dup") "Amount must be > 0" 0]).
  vm_compute. reflexivity.
Defined.

Lemma rule_chain_with_products products_set :
  products_set ≠ ∅ →
  rule_chain products_set = rule_chain ∅ ++ [product_check products_set].
Proof.
  intros Hne. unfold rule_chain.
  rewrite (bool_decide_eq_false_2 _ Hne), bool_decide_eq_true_2 by reflexivity.
  rewrite app_nil_r, <- !app_assoc. reflexivity.
Qed.

Lemma chain_errors_reason ch l e :
  e ∈ chain_errors ch l → ∃ p, p ∈ ch ∧ e.2 = reason p.
Proof.
  revert l. induction ch as [|p ch IH]; intros l; cbn [chain_errors]; [inversion 1|].
  rewrite elem_of_app. intros [Hin|Hin].
  - apply list_elem_of_fmap in Hin as (r & -> & _). exists p. split; [left|reflexivity].
  - apply IH in Hin as (q & Hq & He). exists q. split; [right; exact Hq|exact He].
Qed.

Lemma rule_chain_without_products_reasons p :
  p ∈ rule_chain ∅ → reason p ≠ "Invalid product_id".
Proof.
  unfold rule_chain, NOT_NULL_COLUMNS.
  rewrite bool_decide_eq_true_2 by reflexivity. cbn [fmap list_fmap app].
  intros Hin. repeat (apply elem_of_cons in Hin as [->|Hin]; [discriminate|]).
  inversion Hin.
Qed.

Lemma gate_without_products_messages now df valid errors e :
  apply_data_quality_checks now df ∅ = Ok (valid, errors) →
  e ∈ errors → error_message e ≠ "Invalid product_id".
Proof.
  intros (_ & _ & ->)%gate_returns_inv (x & -> & Hx)%list_elem_of_fmap.
  cbn [error_message]. apply elem_of_app in Hx as [Hx|Hx].
  - apply list_elem_of_fmap in Hx as (r & -> & _). discriminate.
  - apply chain_errors_reason in Hx as (p & Hp & ->).
    apply rule_chain_without_products_reasons, Hp.
Qed.

(** X4.  The referential rule only adds to the outcome.  Without a product
    set no entry has the message "Invalid product_id"; with one, the gate
    returns what it returns without it, with the accepted rows cut down to
    those whose product is in the set, and with one "Invalid product_id"
    entry for each of the others at the end of the error frame. *)
Theorem referential_check_only_adds now df products_set valid errors :
  apply_data_quality_checks now df ∅ = Ok (valid, errors) →
  products_set ≠ ∅ →
  (∀ e, e ∈ errors → error_message e ≠ "Invalid product_id") ∧
  apply_data_quality_checks now df products_set =
  Ok (mkDF (columns df) (filter (λ r, product_isin products_set r) (rows valid)),
      errors ++ ((λ r, mkErr (transaction_id r) "Invalid product_id" now) <$>
                 filter (λ r, negb (product_isin products_set r)) (rows valid))).
Proof.
  intros Hrun Hne. split.
  - intros e. apply (gate_without_products_messages _ _ _ _ _ Hrun).
  - apply gate_returns_inv in Hrun as (Hs & -> & ->).
    rewrite (Gate.gate_Ok now df products_set Hs). cbn [rows].
    rewrite (rule_chain_with_products _ Hne), chain_errors_app.
    cbn [chain_errors reject keep reason product_check].
    rewrite app_nil_r. f_equal. f_equal.
    + f_equal. rewrite list_filter_filter. apply list_filter_iff. intros r.
      rewrite Gate.passes_app, passes_cons. cbn [keep product_check].
      change (passes [] r) with true. rewrite andb_true_r.
      destruct (passes (rule_chain ∅) r), (product_isin products_set r); simpl; tauto.
    + unfold error_frame. rewrite !fmap_app, <- !list_fmap_compose.
      rewrite <- app_assoc. reflexivity.
Qed.

Lemma referential_check_only_adds_witness :
  apply_data_quality_checks 0 (mkDF Samples.schema [Samples.row_t1]) {[ "p9" ]} =
  Ok (mkDF Samples.schema
        (filter (λ r, product_isin {[ "p9" ]} r) [normalize_status Samples.row_t1]),
      [] ++ ((λ r, mkErr (transaction_id r) "Invalid product_id" 0) <$>
             filter (λ r, negb (product_isin {[ "p9" ]} r))
                    [normalize_status Samples.row_t1])).
Proof.
  apply (referential_check_only_adds 0 (mkDF Samples.schema [Samples.row_t1]) {[ "p9" ]}
           (mkDF Samples.schema [normalize_status Samples.row_t1]) []).
  - vm_compute. reflexivity.
  - apply (bool_decide_unpack _). vm_compute. exact I.
Defined.

End GateMore.

(** ** More on the ingestion *)

Module IngestMore.
Import Ingest IngestFacts.

Lemma df_empty_true df :
  df_empty df = true → "transaction_id" ∈ columns df → rows df = [].
Proof.
  unfold df_empty. intros [Hc|Hr]%bool_decide_eq_true Hin; [|exact Hr].
  rewrite Hc in Hin. inversion Hin.
Qed.

Lemma filter_incremental_empty df max_updated_at :
  df_empty df = true → filter_incremental df max_updated_at = Ok df.
Proof. intros He. unfold filter_incremental. rewrite He. reflexivity. Qed.

Lemma filter_incremental_out_columns df max_updated_at out :
  filter_incremental df max_updated_at = Ok out → columns out = columns df.
Proof.
  intros Hrun. destruct (df_empty df) eqn:He.
  - rewrite (filter_incremental_empty _ _ He) in Hrun. injection Hrun as <-. reflexivity.
  - unfold filter_incremental in Hrun. rewrite He in Hrun.
    destruct (bool_decide ("updated_at" ∈ columns df)); [|discriminate].
    apply df_empty_false in He as [_ Hc].
    destruct max_updated_at; apply drop_duplicates_subset_inv in Hrun;
      try exact Hc; apply Hrun.
Qed.

(** A batch with rows, from which the filter returns rows, has the two
    columns. *)
Lemma filter_incremental_columns df w out :
  df_empty df = false → df_empty out = false → filter_incremental df w = Ok out →
  "updated_at" ∈ columns df ∧ "transaction_id" ∈ columns df.
Proof.
  intros He He' Hrun. pose proof (filter_incremental_inv _ _ _ He Hrun) as Hrows.
  unfold filter_incremental in Hrun. rewrite He in Hrun.
  destruct (decide ("updated_at" ∈ columns df)) as [Hu|Hu];
    [|rewrite (bool_decide_eq_false_2 _ Hu) in Hrun; discriminate].
  split; [exact Hu|]. rewrite (bool_decide_eq_true_2 _ Hu) in Hrun.
  apply df_empty_false in He' as [Hrs _]. rewrite Hrows in Hrs.
  destruct (decide ("transaction_id" ∈ columns df)) as [Ht|Ht]; [exact Ht|exfalso].
  unfold drop_duplicates_subset in Hrun.
  destruct w as [w|].
  - destruct (df_empty (mkDF (columns df) (filter (λ r, newer_than w r) (rows df))))
      eqn:Hf.
    + unfold df_empty in Hf. cbn [columns rows] in Hf.
      apply bool_decide_eq_true in Hf as [Hf|Hf].
      * rewrite Hf in Hu. inversion Hu.
      * rewrite Hf in Hrs. apply Hrs. reflexivity.
    + cbn [columns] in Hrun. rewrite (bool_decide_eq_false_2 _ Ht) in Hrun.
      discriminate.
  - rewrite He, (bool_decide_eq_false_2 _ Ht) in Hrun. discriminate.
Qed.

(** X5.  Whatever the watermark, the filter neither adds nor reorders: the
    frame it returns has the columns of the batch and its rows are rows of
    the batch, in batch order; when the batch has a transaction_id column, no
    two of them share a transaction_id. *)
Theorem filter_incremental_selects df max_updated_at out :
  filter_incremental df max_updated_at = Ok out →
  columns out = columns df ∧
  rows out `sublist_of` rows df ∧
  ("transaction_id" ∈ columns df → NoDup (transaction_id <$> rows out)).
Proof.
  intros Hrun. split; [exact (filter_incremental_out_columns _ _ _ Hrun)|].
  destruct (df_empty df) eqn:He.
  - rewrite (filter_incremental_empty _ _ He) in Hrun. injection Hrun as <-.
    split; [reflexivity|].
    intros Hin. rewrite (df_empty_true _ He Hin). constructor.
  - pose proof (filter_incremental_inv _ _ _ He Hrun) as Hrows. split.
    + rewrite Hrows. etrans; [apply drop_duplicates_from_sublist|].
      destruct max_updated_at; [apply sublist_filter|reflexivity].
    + intros _. rewrite Hrows. apply NoDup_drop_duplicates.
Qed.

Lemma filter_incremental_selects_witness :
  rows (mkDF Samples.ingest_columns [Samples.row_i2])
    `sublist_of` [Samples.row_i1; Samples.row_i2].
Proof.
  apply (filter_incremental_selects
           (mkDF Samples.ingest_columns [Samples.row_i1; Samples.row_i2])
           (Some Samples.jan_1) (mkDF Samples.ingest_columns [Samples.row_i2])).
  vm_compute. reflexivity.
Defined.

(** X6.  Filtering twice is filtering once: the filter, run with the same
    watermark on the frame it returned, returns that frame. *)
Theorem filter_incremental_idempotent df max_updated_at out :
  filter_incremental df max_updated_at = Ok out →
  filter_incremental out max_updated_at = Ok out.
Proof.
  intros Hrun. destruct (df_empty df) eqn:He.
  { rewrite (filter_incremental_empty _ _ He) in Hrun. injection Hrun as <-.
    apply filter_incremental_empty, He. }
  destruct (df_empty out) eqn:He'; [apply filter_incremental_empty, He'|].
  pose proof (filter_incremental_out_columns _ _ _ Hrun) as Hcols.
  pose proof (filter_incremental_inv _ _ _ He Hrun) as Hrows.
  pose proof (filter_incremental_columns _ _ _ He He' Hrun) as Hu.
  rewrite filter_incremental_Ok by (rewrite ?Hcols; tauto).
  rewrite Hcols. destruct out as [cols rws]. cbn [columns rows] in *. subst cols.
  do 2 f_equal. rewrite Hrows.
  assert (Hdd : ∀ l, drop_duplicates (drop_duplicates l) = drop_duplicates l)
    by (intros l; apply drop_duplicates_NoDup, NoDup_drop_duplicates).
  destruct max_updated_at as [w|]; [|apply Hdd].
  rewrite filter_all; [apply Hdd|].
  intros r Hr%KeyFacts.elem_of_drop_duplicates.
  apply list_elem_of_filter in Hr as [Hr _]. exact Hr.
Qed.

Lemma filter_incremental_idempotent_witness :
  filter_incremental (mkDF Samples.ingest_columns [Samples.row_i2]) (Some Samples.jan_1)
  = Ok (mkDF Samples.ingest_columns [Samples.row_i2]).
Proof.
  apply (filter_incremental_idempotent
           (mkDF Samples.ingest_columns [Samples.row_i1; Samples.row_i2])).
  vm_compute. reflexivity.
Defined.

(** X7.  The filter raises only on a batch with rows and columns that lacks a
    column it reads, and then it is a [KeyError] for that column:
    [updated_at] first, and [transaction_id] when a row is left to
    deduplicate, that is, without a watermark or with a row newer than the
    watermark.  An empty batch comes back as it is, and so does an empty
    selection. *)
Theorem filter_incremental_raises df max_updated_at e :
  filter_incremental df max_updated_at = Raise e ↔
  df_empty df = false ∧
  (("updated_at" ∉ columns df) ∧ e = KeyError "updated_at" ∨
   "updated_at" ∈ columns df ∧ ("transaction_id" ∉ columns df) ∧
   (∀ w, max_updated_at = Some w → ∃ r, r ∈ rows df ∧ newer_than w r = true) ∧
   e = KeyError "transaction_id").
Proof.
  unfold filter_incremental.
  destruct (df_empty df) eqn:He; [split; [discriminate|intros [? _]; discriminate]|].
  destruct (decide ("updated_at" ∈ columns df)) as [Hu|Hu].
  - rewrite (bool_decide_eq_true_2 _ Hu). unfold drop_duplicates_subset.
    destruct max_updated_at as [w|].
    + destruct (filter (λ r, newer_than w r) (rows df)) as [|r rs] eqn:Hf.
      * unfold df_empty at 1. cbn [columns rows].
        rewrite bool_decide_eq_true_2 by (right; reflexivity).
        split; [discriminate|]. intros [_ [[? _]|(_ & _ & Hnew & _)]]; [contradiction|].
        destruct (Hnew w eq_refl) as (r & Hr & Hn). exfalso.
        apply (filter_nil_not_elem_of _ _ r Hf); [rewrite Hn; exact I|exact Hr].
      * assert (Hr : r ∈ rows df ∧ newer_than w r = true).
        { assert (Hin : r ∈ filter (λ r, newer_than w r) (rows df)) by (rewrite Hf; left).
          apply list_elem_of_filter in Hin as [Hn Hin]. split; [exact Hin|].
          apply Is_true_true, Hn. }
        unfold df_empty at 1. cbn [columns rows].
        rewrite bool_decide_eq_false_2.
        2:{ intros [Hc|Hc]; [|discriminate]. rewrite Hc in Hu. inversion Hu. }
        destruct (decide ("transaction_id" ∈ columns df)) as [Ht|Ht].
        -- rewrite (bool_decide_eq_true_2 _ Ht).
           split; [discriminate|intros [_ [[? _]|(_ & ? & _)]]; contradiction].
        -- rewrite (bool_decide_eq_false_2 _ Ht). split.
           ++ intros [= <-]. split; [reflexivity|]. right.
              split; [exact Hu|]. split; [exact Ht|]. split; [|reflexivity].
              intros w' [= <-]. exists r. exact Hr.
           ++ intros [_ [[? _]|(_ & _ & _ & ->)]]; [contradiction|reflexivity].
    + rewrite He. destruct (decide ("transaction_id" ∈ columns df)) as [Ht|Ht].
      * rewrite (bool_decide_eq_true_2 _ Ht).
        split; [discriminate|intros [_ [[? _]|(_ & ? & _)]]; contradiction].
      * rewrite (bool_decide_eq_false_2 _ Ht). split.
        -- intros [= <-]. split; [reflexivity|]. right.
           split; [exact Hu|]. split; [exact Ht|]. split; [discriminate|reflexivity].
        -- intros [_ [[? _]|(_ & _ & _ & ->)]]; [contradiction|reflexivity].
  - rewrite (bool_decide_eq_false_2 _ Hu). split.
    + intros [= <-]. auto.
    + intros [_ [[_ ->]|(? & _)]]; [reflexivity|contradiction].
Qed.

(** A batch without a transaction_id column whose rows are all at or before
    the watermark: the selection is empty and comes back as it is. *)
Example filter_incremental_nothing_newer :
  filter_incremental (mkDF ["updated_at"] [Samples.row_i1]) (Some Samples.jan_1)
  = Ok (mkDF ["updated_at"] []).
Proof. vm_compute. reflexivity. Qed.

Lemma sublist_concat {A} (x : list A) (ls : list (list A)) :
  x ∈ ls → x `sublist_of` concat ls.
Proof.
  induction ls as [|y ls IH]; [inversion 1|].
  intros [->|Hin]%elem_of_cons; cbn [concat].
  - apply sublist_inserts_r. reflexivity.
  - apply sublist_inserts_l, IH, Hin.
Qed.

(** X8.  The collector returns exactly when each batch (each file whose name
    ends in ".csv") has the two date columns, and otherwise raises a
    [ValueError].  When it returns, it has read every batch and nothing
    else: the rows of each batch are in its output, in their order; every row
    of its output is a row of a batch; and a directory without a batch gives
    the empty frame. *)
Theorem load_csv_files_reads_every_batch (dir : gmap string DataFrame) :
  ((∃ batch, load_csv_files dir = Ok batch) ↔
   ∀ name df, dir !! name = Some df → endswith name ".csv" = true →
     "updated_at" ∈ columns df ∧ "transaction_date" ∈ columns df) ∧
  (∀ e, load_csv_files dir = Raise e → ∃ msg, e = ValueError msg) ∧
  (∀ batch, load_csv_files dir = Ok batch →
     (∀ name df, dir !! name = Some df → endswith name ".csv" = true →
        rows df `sublist_of` rows batch) ∧
     (∀ r, r ∈ rows batch →
        ∃ name df, dir !! name = Some df ∧ endswith name ".csv" = true ∧ r ∈ rows df) ∧
     ((∀ name, name ∈ dom dir → endswith name ".csv" = false) → batch = mkDF [] [])).
Proof.
  split; [|split].
  - rewrite parsable_files. split; [|apply load_csv_files_Ok].
    intros [batch Hload] p Hp.
    apply load_csv_files_inv in Hload as (frames & Hread & _).
    apply list_elem_of_lookup in Hp as [i Hi].
    destruct (Forall2_lookup_l _ _ _ _ _ Hread Hi) as (f & _ & Hf). eauto.
  - intros e (p & msg & _ & _ & ->)%load_csv_files_Raise. eauto.
  - intros batch Hload.
    destruct (load_csv_files_inv _ _ Hload) as (frames & Hread & Hrows & _ & Hnil).
    split; [|split].
    + intros name df Hdf He. rewrite Hrows. apply sublist_concat.
      apply list_elem_of_fmap. exists df. split; [reflexivity|].
      assert (Hp : path_join DATA_DIR name ∈ csv_files dir).
      { apply elem_of_csv_files. exists name. split; [reflexivity|].
        split; [apply elem_of_dom; eauto|exact He]. }
      apply list_elem_of_lookup in Hp as [i Hi].
      destruct (Forall2_lookup_l _ _ _ _ _ Hread Hi) as (f & Hf & Hr).
      rewrite (read_csv_lookup _ _ _ Hdf) in Hr. apply parse_csv_inv in Hr as [-> _].
      apply list_elem_of_lookup_2 in Hf. exact Hf.
    + intros r Hr. rewrite Hrows in Hr.
      apply list_elem_of_In, in_concat in Hr as (l & Hl & Hr).
      apply list_elem_of_In, list_elem_of_fmap in Hl as (f & -> & Hf).
      apply list_elem_of_lookup in Hf as [i Hi].
      destruct (Forall2_lookup_r _ _ _ _ _ Hread Hi) as (p & Hp & Hread').
      apply list_elem_of_lookup_2 in Hp.
      destruct (read_csv_file _ _ Hp) as (name & df & _ & Hdf & He & Heq).
      rewrite Heq in Hread'. apply parse_csv_inv in Hread' as [-> _].
      exists name, df. split; [exact Hdf|]. split; [exact He|].
      apply list_elem_of_In, Hr.
    + intros Hnone. apply Hnil.
      destruct (csv_files dir) as [|p ps] eqn:Hc; [reflexivity|exfalso].
      assert (Hp : p ∈ csv_files dir) by (rewrite Hc; left).
      apply elem_of_csv_files in Hp as (name & _ & Hin & He).
      rewrite (Hnone name Hin) in He. discriminate.
Qed.

End IngestMore.

(** ** The ingestion on the staging table *)

Module IngestRunFacts.
Import Store Ingest IngestFacts IngestRun.

Lemma sql_max_upper column m t : sql_max column = Some m → Some t ∈ column → t ≤ m.
Proof.
  revert m. induction column as [|c column IH]; intros m Hm Hin; [inversion Hin|].
  cbn [sql_max foldr] in Hm. fold (sql_max column) in Hm.
  apply elem_of_cons in Hin as [<-|Hin].
  - destruct (sql_max column) as [m'|]; injection Hm as <-; lia.
  - destruct c as [t'|].
    + destruct (sql_max column) as [m'|] eqn:Hm'.
      * injection Hm as <-. specialize (IH m' eq_refl Hin). lia.
      * exfalso. clear -Hm' Hin. induction column as [|c column IH]; [inversion Hin|].
        cbn [sql_max foldr] in Hm'. fold (sql_max column) in Hm'.
        apply elem_of_cons in Hin as [<-|Hin].
        -- destruct (sql_max column); discriminate.
        -- destruct c; [destruct (sql_max column); discriminate|]. apply IH; assumption.
    + apply IH; assumption.
Qed.

Lemma sql_max_attained column m : sql_max column = Some m → Some m ∈ column.
Proof.
  revert m. induction column as [|c column IH]; intros m Hm; [discriminate|].
  cbn [sql_max foldr] in Hm. fold (sql_max column) in Hm.
  destruct c as [t|]; [|right; apply IH, Hm].
  destruct (sql_max column) as [m'|]; injection Hm as <-; [|left].
  destruct (Z.max_spec t m') as [[_ ->]|[_ ->]]; [right; apply IH; reflexivity|left].
Qed.

Lemma sql_max_None column : sql_max column = None → ∀ c, c ∈ column → c = None.
Proof.
  intros Hm c Hin. destruct c as [t|]; [exfalso|reflexivity].
  induction column as [|c column IH]; [inversion Hin|].
  cbn [sql_max foldr] in Hm. fold (sql_max column) in Hm.
  apply elem_of_cons in Hin as [<-|Hin].
  - destruct (sql_max column); discriminate.
  - destruct c; [destruct (sql_max column); discriminate|]. apply IH; assumption.
Qed.

Lemma sql_max_app column more m :
  sql_max column = Some m → ∃ m', sql_max (column ++ more) = Some m' ∧ m ≤ m'.
Proof.
  intros Hm. apply sql_max_attained in Hm.
  destruct (sql_max (column ++ more)) as [m'|] eqn:Hm'.
  - exists m'. split; [reflexivity|]. apply (sql_max_upper _ _ _ Hm').
    apply elem_of_app. left. exact Hm.
  - apply sql_max_None with (c := Some m) in Hm'; [discriminate|].
    apply elem_of_app. left. exact Hm.
Qed.

(** X9.  The watermark is the latest timestamp of the staging table: it is
    the [updated_at] of a staged row and no staged row is newer; there is none
    exactly when the table does not exist or no staged row has a
    timestamp. *)
Theorem get_max_updated_at_is_latest db w :
  get_max_updated_at db = Ok w →
  match w with
  | Some m =>
      (∃ r, r ∈ staged db ∧ updated_at r = Some m) ∧
      (∀ r t, r ∈ staged db → updated_at r = Some t → t ≤ m)
  | None => ∀ r, r ∈ staged db → updated_at r = None
  end.
Proof.
  unfold get_max_updated_at, staged. destruct (staging db) as [t|].
  - destruct (bool_decide ("updated_at" ∈ columns t)); [|discriminate].
    intros [= <-]. destruct (sql_max (updated_at <$> rows t)) as [m|] eqn:Hm.
    + split.
      * apply sql_max_attained, list_elem_of_fmap in Hm as (r & Hr & Hin). eauto.
      * intros r u Hin Hu. apply (sql_max_upper _ _ _ Hm).
        apply list_elem_of_fmap. exists r. split; [congruence|exact Hin].
    + intros r Hin. apply (sql_max_None _ Hm). apply list_elem_of_fmap. eauto.
  - intros [= <-] r Hin. inversion Hin.
Qed.

Lemma get_max_updated_at_is_latest_witness :
  (∃ r, r ∈ staged RunSamples.db_staged ∧ updated_at r = Some Samples.jan_1) ∧
  (∀ r t, r ∈ staged RunSamples.db_staged → updated_at r = Some t → t ≤ Samples.jan_1).
Proof.
  apply (get_max_updated_at_is_latest RunSamples.db_staged (Some Samples.jan_1)).
  vm_compute. reflexivity.
Defined.

Lemma main_inv dir db n db' :
  main dir db = (Ok n, db') →
  ∃ w batch inc,
    get_max_updated_at db = Ok w ∧
    load_csv_files dir = Ok batch ∧
    filter_incremental batch w = Ok inc ∧
    load_to_staging inc db = (Ok n, db').
Proof.
  unfold main.
  destruct (get_max_updated_at db) as [w|e] eqn:Hw; [|discriminate].
  destruct (load_csv_files dir) as [batch|e] eqn:Hb; [|discriminate].
  destruct (filter_incremental batch w) as [inc|e] eqn:Hf; [|discriminate].
  intros Hl. exists w, batch, inc. auto.
Qed.

Lemma to_sql_append_inv df table t :
  to_sql_append df table = Ok t →
  rows t = match table with Some old => rows old | None => [] end ++
           (restrict (columns df) <$> rows df) ∧
  columns t = match table with Some old => columns old | None => columns df end.
Proof.
  unfold to_sql_append. destruct table as [old|].
  - destruct (bool_decide (columns df ⊆ columns old)); [|discriminate].
    intros [= <-]. split; reflexivity.
  - intros [= <-]. split; reflexivity.
Qed.

Lemma load_to_staging_inv df db n db' :
  load_to_staging df db = (Ok n, db') →
  df_empty df = true ∧ n = 0%nat ∧ db' = db ∨
  df_empty df = false ∧ n = length (rows df) ∧
  ∃ t, to_sql_append df (staging db) = Ok t ∧
       db' = mkDB (Some t) (products db) (quarantine db) (fact db).
Proof.
  unfold load_to_staging. destruct (df_empty df).
  - intros [= <- <-]. left. auto.
  - destruct (to_sql_append df (staging db)) as [t|e]; [|discriminate].
    intros [= <- <-]. right. eauto.
Qed.

Lemma restrict_updated_at cols r :
  "updated_at" ∈ cols → updated_at (restrict cols r) = updated_at r.
Proof. intros H. unfold restrict. cbn [updated_at]. rewrite (bool_decide_eq_true_2 _ H). reflexivity. Qed.

Lemma restrict_transaction_id cols r :
  "transaction_id" ∈ cols → transaction_id (restrict cols r) = transaction_id r.
Proof. intros H. unfold restrict. cbn [transaction_id]. rewrite (bool_decide_eq_true_2 _ H). reflexivity. Qed.

(** X10.  A run of the ingestion only adds to the staging table, and leaves
    the other tables alone: the staged rows are the old ones followed by the
    rows it reports as inserted, no two of which share a transaction_id; each
    of them is strictly newer than the watermark it started from, and the
    watermark does not go back. *)
Theorem ingest_main_appends dir db n db' :
  main dir db = (Ok n, db') →
  products db' = products db ∧ quarantine db' = quarantine db ∧ fact db' = fact db ∧
  (n = 0%nat → db' = db) ∧
  ∃ inserted,
    staged db' = staged db ++ inserted ∧ length inserted = n ∧
    NoDup (transaction_id <$> inserted) ∧
    ∀ m, get_max_updated_at db = Ok (Some m) →
      (∀ r, r ∈ inserted → ∃ t, updated_at r = Some t ∧ m < t) ∧
      ∃ m', get_max_updated_at db' = Ok (Some m') ∧ m ≤ m'.
Proof.
  intros (w & batch & inc & Hw & Hb & Hf & Hl)%main_inv.
  apply load_to_staging_inv in Hl as [(He & -> & ->)|(He & -> & t & Ht & ->)].
  { do 3 (split; [reflexivity|]). split; [reflexivity|].
    exists []. rewrite app_nil_r. split; [reflexivity|]. split; [reflexivity|].
    split; [constructor|]. intros m Hm. split; [inversion 1|].
    exists m. split; [exact Hm|lia]. }
  cbn [products quarantine fact]. do 3 (split; [reflexivity|]).
  assert (Hne : df_empty batch = false).
  { destruct (df_empty batch) eqn:Hbe; [|reflexivity].
    rewrite (IngestMore.filter_incremental_empty _ _ Hbe) in Hf. congruence. }
  destruct (IngestMore.filter_incremental_columns _ _ _ Hne He Hf) as [Hcu Hct].
  pose proof (IngestMore.filter_incremental_out_columns _ _ _ Hf) as Hcols.
  assert (Hnd : NoDup (transaction_id <$> rows inc))
    by (rewrite (filter_incremental_inv _ _ _ Hne Hf); apply NoDup_drop_duplicates).
  rewrite <- Hcols in Hcu, Hct.
  destruct (to_sql_append_inv _ _ _ Ht) as [Hrows Hcolst].
  split.
  { intros Hn. apply df_empty_false in He as [Hr _].
    destruct (rows inc); [contradiction|discriminate]. }
  exists (restrict (columns inc) <$> rows inc).
  split; [unfold staged; cbn [staging]; exact Hrows|].
  split; [apply length_fmap|]. split.
  { rewrite <- list_fmap_compose.
    assert (Heq : transaction_id ∘ restrict (columns inc) <$> rows inc
                  = transaction_id <$> rows inc).
    { apply list_fmap_ext. intros i r _. apply restrict_transaction_id, Hct. }
    rewrite Heq. exact Hnd. }
  intros m Hm. rewrite Hw in Hm. injection Hm as ->. split.
  - intros r (x & -> & Hx)%list_elem_of_fmap.
    rewrite (restrict_updated_at _ _ Hcu).
    rewrite (filter_incremental_inv _ _ _ Hne Hf) in Hx.
    apply KeyFacts.elem_of_drop_duplicates, list_elem_of_filter in Hx as [Hx _].
    apply newer_than_spec, Is_true_true, Hx.
  - unfold get_max_updated_at in Hw |- *. cbn [staging].
    destruct (staging db) as [old|]; [|discriminate].
    rewrite Hcolst.
    destruct (bool_decide ("updated_at" ∈ columns old)); [|discriminate].
    injection Hw as Hw. rewrite Hrows, fmap_app.
    destruct (sql_max_app _ (updated_at <$> (restrict (columns inc) <$> rows inc)) _ Hw)
      as (m' & Hm' & Hle).
    exists m'. rewrite Hm'. split; [reflexivity|exact Hle].
Qed.

Lemma ingest_main_appends_witness :
  products (main RunSamples.dir_next RunSamples.db_staged).2
  = products RunSamples.db_staged.
Proof.
  apply (ingest_main_appends RunSamples.dir_next RunSamples.db_staged 1%nat
           (main RunSamples.dir_next RunSamples.db_staged).2).
  vm_compute. reflexivity.
Defined.

(** The staged row stays, the newer row of the batch is added. *)
Example ingest_next_batch :
  main RunSamples.dir_next RunSamples.db_staged
  = (Ok 1%nat,
     mkDB (Some (mkDF Samples.schema [Samples.row_t1; Samples.row_t2]))
          (Some ["p1"]) None ∅).
Proof. vm_compute. reflexivity. Qed.

Lemma load_to_staging_no_rows cols db : load_to_staging (mkDF cols []) db = (Ok 0%nat, db).
Proof.
  unfold load_to_staging, df_empty. cbn [rows].
  rewrite bool_decide_eq_true_2 by (right; reflexivity). reflexivity.
Qed.

(** X11.  A second run over the same landing directory inserts nothing, when
    no two rows of the batches share a transaction_id and every row has a
    timestamp: the run returns 0 and leaves the stores as the first run left
    them. *)
Theorem ingest_main_rerun dir db n db' batch :
  main dir db = (Ok n, db') →
  load_csv_files dir = Ok batch →
  NoDup (transaction_id <$> rows batch) →
  (∀ r, r ∈ rows batch → updated_at r ≠ None) →
  main dir db' = (Ok 0%nat, db').
Proof.
  intros Hmain Hb Hnd Hts.
  destruct (main_inv _ _ _ _ Hmain) as (w & batch' & inc & Hw & Hb' & Hf & Hl).
  rewrite Hb in Hb'. injection Hb' as <-.
  apply load_to_staging_inv in Hl as [(He & -> & ->)|(He & -> & t & Ht & ->)];
    [exact Hmain|].
  assert (Hne : df_empty batch = false).
  { destruct (df_empty batch) eqn:Hbe; [|reflexivity].
    rewrite (IngestMore.filter_incremental_empty _ _ Hbe) in Hf. congruence. }
  destruct (IngestMore.filter_incremental_columns _ _ _ Hne He Hf) as [Hcu Hct].
  pose proof (IngestMore.filter_incremental_out_columns _ _ _ Hf) as Hcols.
  destruct (to_sql_append_inv _ _ _ Ht) as [Hrows Hcolst].
  assert (Hinc : rows inc = match w with
                            | None => rows batch
                            | Some m => filter (λ r, newer_than m r) (rows batch)
                            end).
  { rewrite (filter_incremental_inv _ _ _ Hne Hf). apply drop_duplicates_NoDup.
    destruct w; [|exact Hnd].
    eapply sublist_NoDup; [exact Hnd|]. apply fmap_sublist, sublist_filter. }
  assert (Hcol' : "updated_at" ∈ columns t).
  { rewrite Hcolst. unfold get_max_updated_at in Hw.
    destruct (staging db) as [old|]; [|rewrite Hcols; exact Hcu].
    destruct (decide ("updated_at" ∈ columns old)) as [Hin|Hin]; [exact Hin|].
    rewrite (bool_decide_eq_false_2 _ Hin) in Hw. discriminate. }
  set (column := updated_at <$> rows t).
  assert (Hins : ∀ r, r ∈ rows inc → updated_at r ∈ column).
  { intros r Hr. unfold column. rewrite Hrows, fmap_app. apply elem_of_app. right.
    apply list_elem_of_fmap. exists (restrict (columns inc) r).
    split; [|apply list_elem_of_fmap; eauto].
    symmetry. apply restrict_updated_at. rewrite Hcols. exact Hcu. }
  assert (Hsome : ∃ m', sql_max column = Some m').
  { destruct (sql_max column) as [m'|] eqn:Hm; [eauto|exfalso].
    apply df_empty_false in He as [Hr _].
    destruct (rows inc) as [|r0 rest] eqn:Hri; [contradiction|].
    assert (Hr0 : r0 ∈ rows batch).
    { assert (Hin : r0 ∈ r0 :: rest) by left. rewrite Hinc in Hin.
      destruct w; [apply list_elem_of_filter in Hin as [_ Hin]|]; exact Hin. }
    apply (Hts r0 Hr0). apply (sql_max_None _ Hm), Hins. left. }
  destruct Hsome as [m' Hm'].
  assert (Hold : ∀ r, r ∈ rows batch → newer_than m' r = false).
  { intros r Hr. unfold newer_than. destruct (updated_at r) as [u|] eqn:Hu; [|reflexivity].
    apply bool_decide_eq_false. apply Z.le_ngt.
    destruct (decide (r ∈ rows inc)) as [Hin|Hnin].
    - apply (sql_max_upper _ _ _ Hm'). rewrite <- Hu. apply Hins, Hin.
    - rewrite Hinc in Hnin. destruct w as [m|]; [|contradiction].
      assert (Hnew : newer_than m r = false).
      { destruct (newer_than m r) eqn:Hn; [|reflexivity]. exfalso. apply Hnin.
        apply list_elem_of_filter. split; [rewrite Hn; exact I|exact Hr]. }
      unfold newer_than in Hnew. rewrite Hu in Hnew. apply bool_decide_eq_false in Hnew.
      assert (m ≤ m'); [|lia].
      apply (sql_max_upper _ _ _ Hm'). unfold column. rewrite Hrows, fmap_app.
      apply elem_of_app. left.
      unfold get_max_updated_at in Hw. destruct (staging db) as [old|]; [|discriminate].
      destruct (bool_decide ("updated_at" ∈ columns old)); [|discriminate].
      injection Hw as Hw. apply sql_max_attained, Hw. }
  unfold main. unfold get_max_updated_at. cbn [staging].
  rewrite (bool_decide_eq_true_2 _ Hcol'). fold column. rewrite Hm', Hb.
  rewrite (filter_incremental_Ok _ _ Hne Hcu Hct).
  rewrite filter_none by (intros r Hr Hn; rewrite (Hold r Hr) in Hn; exact Hn).
  apply load_to_staging_no_rows.
Qed.

Lemma ingest_main_rerun_witness :
  main RunSamples.dir_next (main RunSamples.dir_next RunSamples.db_staged).2
  = (Ok 0%nat, (main RunSamples.dir_next RunSamples.db_staged).2).
Proof.
  apply (ingest_main_rerun RunSamples.dir_next RunSamples.db_staged 1%nat
           (main RunSamples.dir_next RunSamples.db_staged).2
           (mkDF Samples.schema [Samples.row_t1; Samples.row_t2])).
  - vm_compute. reflexivity.
  - vm_compute. reflexivity.
  - apply (bool_decide_unpack _). vm_compute. exact I.
  - intros r Hr Hn.
    assert (Hall : Forall (λ r, updated_at r ≠ None)
                     (rows (mkDF Samples.schema [Samples.row_t1; Samples.row_t2])))
      by (apply (bool_decide_unpack _); vm_compute; exact I).
    rewrite Forall_forall in Hall. exact (Hall r Hr Hn).
Defined.

(** The later copy of a repeated key is newer than the first: the first run
    stages the first copy only, and the second run stages the later one. *)
Example ingest_rerun_repeated_key :
  main Samples.dir_one_batch RunSamples.db_new
  = (Ok 1%nat, mkDB (Some (mkDF Samples.schema [Samples.row_dup_first])) None None ∅) ∧
  main Samples.dir_one_batch
    (mkDB (Some (mkDF Samples.schema [Samples.row_dup_first])) None None ∅)
  = (Ok 1%nat,
     mkDB (Some (mkDF Samples.schema [Samples.row_dup_first; Samples.row_dup_second]))
          None None ∅).
Proof. split; vm_compute; reflexivity. Qed.

End IngestRunFacts.

(** ** The quality gate on the stores *)

Module DataQualityRunFacts.
Import Store DataQuality DataQualityRun.

Lemma load_quarantine_spec error_df db :
  load_quarantine error_df db =
  (length error_df,
   if bool_decide (error_df = []) then db
   else mkDB (staging db) (products db)
             (Some (quarantined_entries db ++ error_df)) (fact db)).
Proof.
  unfold load_quarantine, quarantined_entries.
  destruct (decide (error_df = [])) as [->|Hne].
  - reflexivity.
  - rewrite !(bool_decide_eq_false_2 _ Hne). reflexivity.
Qed.

(** The run, case by case. *)
Lemma main_cases now db :
  (∃ e, main now db = (Raise e, ensure_quarantine db) ∧
        (load_staging db = Raise e ∨
         ∃ t, load_staging db = Ok t ∧
              apply_data_quality_checks now t (load_products db) = Raise e)) ∨
  (∃ t valid errors,
     load_staging db = Ok t ∧
     apply_data_quality_checks now t (load_products db) = Ok (valid, errors) ∧
     main now db =
       (Ok (mkReport valid (length (rows valid)) (length errors)),
        mkDB (staging db) (products db) (Some (quarantined_entries db ++ errors))
             (fact db))).
Proof.
  unfold main. cbv zeta.
  change (load_staging (ensure_quarantine db)) with (load_staging db).
  change (load_products (ensure_quarantine db)) with (load_products db).
  destruct (load_staging db) as [t|e] eqn:Hl; [|left; eauto].
  destruct (apply_data_quality_checks now t (load_products db)) as [[valid errors]|e] eqn:Hg.
  - right. exists t, valid, errors. split; [reflexivity|].
    split; [first [reflexivity | exact Hg]|].
    rewrite load_quarantine_spec. f_equal.
    unfold ensure_quarantine, quarantined_entries. cbn [staging products quarantine fact].
    destruct (decide (errors = [])) as [->|Hne].
    + rewrite bool_decide_eq_true_2 by reflexivity. rewrite app_nil_r. reflexivity.
    + rewrite (bool_decide_eq_false_2 _ Hne). reflexivity.
  - left. exists e. split; [reflexivity|]. right. exists t.
    split; [reflexivity | first [reflexivity | exact Hg]].
Qed.

Lemma load_staging_Ok db t : load_staging db = Ok t → staging db = Some t.
Proof.
  unfold load_staging. destruct (staging db) as [t'|]; [|discriminate].
  destruct (bool_decide ("updated_at" ∈ columns t')); [|discriminate].
  destruct (bool_decide ("transaction_date" ∈ columns t')); [|discriminate].
  congruence.
Qed.

(** X12.  A run of the quality script leaves the staging, product and fact
    tables alone and only adds to the quarantine table: the old entries stay
    in place, and a run that returns adds exactly the error frame of the gate
    on the whole staging table, writes the accepted frame, and logs the
    sizes of both. *)
Theorem quality_main_appends now db :
  staging (main now db).2 = staging db ∧
  products (main now db).2 = products db ∧
  fact (main now db).2 = fact db ∧
  quarantined_entries db `prefix_of` quarantined_entries (main now db).2 ∧
  ∀ report, (main now db).1 = Ok report →
    ∃ t errors,
      staging db = Some t ∧
      apply_data_quality_checks now t (load_products db) = Ok (written report, errors) ∧
      quarantined_entries (main now db).2 = quarantined_entries db ++ errors ∧
      valid_records report = length (rows (written report)) ∧
      quarantined report = length errors.
Proof.
  destruct (main_cases now db) as [(e & -> & _)|(t & valid & errors & Hl & Hg & ->)];
    cbn [fst snd staging products fact].
  - do 3 (split; [reflexivity|]). split; [|discriminate].
    unfold quarantined_entries, ensure_quarantine. cbn [quarantine]. reflexivity.
  - do 3 (split; [reflexivity|]).
    unfold quarantined_entries at 2 3. cbn [quarantine].
    split; [apply prefix_app_r; reflexivity|].
    intros report [= <-]. exists t, errors. cbn [written valid_records quarantined].
    split; [apply load_staging_Ok, Hl|]. split; [exact Hg|].
    split; [reflexivity|]. split; reflexivity.
Qed.

(** The gate at another time: the same outcome, with the entries stamped
    anew. *)
Lemma gate_at_another_time now now' df products_set valid errors :
  apply_data_quality_checks now df products_set = Ok (valid, errors) →
  apply_data_quality_checks now' df products_set =
  Ok (valid, (λ e, mkErr (err_transaction_id e) (error_message e) now') <$> errors).
Proof.
  intros (Hs & -> & ->)%GateMore.gate_returns_inv.
  rewrite (Gate.gate_Ok _ _ _ Hs). unfold error_frame.
  rewrite <- list_fmap_compose. reflexivity.
Qed.

(** X13.  The quality script does not remember what it has reported: a
    second run reports every rejected record of the staging table again.  It
    writes the same accepted frame and adds as many entries as the first run
    did, the same ones up to their timestamp. *)
Theorem quality_main_rerun_repeats now now' db report :
  (main now db).1 = Ok report →
  ∃ errors,
    quarantined_entries (main now db).2 = quarantined_entries db ++ errors ∧
    (main now' (main now db).2).1
      = Ok (mkReport (written report) (valid_records report) (quarantined report)) ∧
    quarantined_entries (main now' (main now db).2).2
      = quarantined_entries db ++ errors ++
        ((λ e, mkErr (err_transaction_id e) (error_message e) now') <$> errors).
Proof.
  destruct (main_cases now db) as [(e & -> & _)|(t & valid & errors & Hl & Hg & ->)];
    cbn [fst snd]; [discriminate|].
  intros [= <-]. exists errors. cbn [written valid_records quarantined].
  split; [reflexivity|].
  set (db1 := mkDB (staging db) (products db)
                   (Some (quarantined_entries db ++ errors)) (fact db)).
  destruct (main_cases now' db1) as [(e & _ & [He|(t' & Hl' & He)])
                                    |(t' & valid' & errors' & Hl' & Hg' & ->)].
  - change (load_staging db1) with (load_staging db) in He. congruence.
  - change (load_staging db1) with (load_staging db) in Hl'.
    change (load_products db1) with (load_products db) in He.
    rewrite Hl in Hl'. injection Hl' as <-.
    rewrite (gate_at_another_time _ now' _ _ _ _ Hg) in He. discriminate.
  - change (load_staging db1) with (load_staging db) in Hl'.
    change (load_products db1) with (load_products db) in Hg'.
    rewrite Hl in Hl'. injection Hl' as <-.
    rewrite (gate_at_another_time _ now' _ _ _ _ Hg) in Hg'.
    injection Hg' as <- <-. cbn [fst snd]. rewrite length_fmap.
    split; [reflexivity|].
    unfold quarantined_entries at 1. cbn [quarantine].
    change (quarantined_entries db1) with (quarantined_entries db ++ errors).
    rewrite <- app_assoc. reflexivity.
Qed.

Lemma quality_main_rerun_repeats_witness :
  ∃ errors,
    quarantined_entries (main 0 RunSamples.db_staged).2
      = quarantined_entries RunSamples.db_staged ++ errors ∧
    (main 5 (main 0 RunSamples.db_staged).2).1
      = Ok (mkReport (mkDF Samples.schema [normalize_status Samples.row_t1]) 1 0) ∧
    quarantined_entries (main 5 (main 0 RunSamples.db_staged).2).2
      = quarantined_entries RunSamples.db_staged ++ errors ++
        ((λ e, mkErr (err_transaction_id e) (error_message e) 5) <$> errors).
Proof.
  apply (quality_main_rerun_repeats 0 5 RunSamples.db_staged
           (mkReport (mkDF Samples.schema [normalize_status Samples.row_t1]) 1 0)).
  vm_compute. reflexivity.
Defined.

(** A staged row with a negative amount is quarantined once per run. *)
Example quality_two_runs :
  quarantined_entries
    (main 5 (main 0 (mkDB (Some (mkDF Samples.schema [Samples.row_t2])) None None ∅)).2).2
  = [mkErr (Some "t2") "Amount must be > 0" 0; mkErr (Some "t2") "Amount must be > 0" 5].
Proof. vm_compute. reflexivity. Qed.

(** X14.  On a staging table that is missing or lacks a column of the schema
    the quality script raises: a missing table is a database error, a missing
    [updated_at] or [transaction_date] is a [KeyError] of the loading step,
    and only then a missing column is the [ValueError] of the gate, for the
    first one in the order of [EXPECTED_COLUMNS].  A run that raises has
    created the quarantine table and added no entry. *)
Theorem quality_main_raises now db :
  (staging db = None → (main now db).1 = Raise (DatabaseError "SELECT failed")) ∧
  (∀ t, staging db = Some t →
     (("updated_at" ∉ columns t) → (main now db).1 = Raise (KeyError "updated_at")) ∧
     ("updated_at" ∈ columns t → ("transaction_date" ∉ columns t) →
      (main now db).1 = Raise (KeyError "transaction_date")) ∧
     ("updated_at" ∈ columns t → "transaction_date" ∈ columns t →
      ∀ c, first_missing (columns t) EXPECTED_COLUMNS = Some c →
        (main now db).1 = Raise (ValueError ("Missing required column: " +:+ c)))) ∧
  (∀ e, (main now db).1 = Raise e →
     (main now db).2 = ensure_quarantine db ∧
     quarantined_entries (main now db).2 = quarantined_entries db).
Proof.
  split; [|split].
  - intros Hs. unfold main. cbv zeta.
    change (load_staging (ensure_quarantine db)) with (load_staging db).
    unfold load_staging. rewrite Hs. reflexivity.
  - intros t Hs. unfold main. cbv zeta.
    change (load_staging (ensure_quarantine db)) with (load_staging db).
    change (load_products (ensure_quarantine db)) with (load_products db).
    unfold load_staging. rewrite Hs. split; [|split].
    + intros Hu. rewrite (bool_decide_eq_false_2 _ Hu). reflexivity.
    + intros Hu Hd.
      rewrite (bool_decide_eq_true_2 _ Hu), (bool_decide_eq_false_2 _ Hd). reflexivity.
    + intros Hu Hd c Hc.
      rewrite (bool_decide_eq_true_2 _ Hu), (bool_decide_eq_true_2 _ Hd).
      unfold apply_data_quality_checks. rewrite Hc. reflexivity.
  - intros e.
    destruct (main_cases now db) as [(e' & -> & _)|(t & valid & errors & _ & _ & ->)];
      cbn [fst snd]; [|discriminate].
    intros _. split; [reflexivity|].
    unfold quarantined_entries, ensure_quarantine. cbn [quarantine]. reflexivity.
Qed.

(** A staging table without its [status] column. *)
Example quality_main_missing_status :
  main 0 (mkDB (Some (mkDF ["transaction_id"; "customer_id"; "product_id"; "amount";
                             "transaction_date"; "updated_at"] [])) None None ∅)
  = (Raise (ValueError "Missing required column: status"),
     mkDB (Some (mkDF ["transaction_id"; "customer_id"; "product_id"; "amount";
                       "transaction_date"; "updated_at"] [])) None (Some []) ∅).
Proof. vm_compute. reflexivity. Qed.

End DataQualityRunFacts.

(** ** More on the fact merger *)

Module LoadFactMore.
Import Store LoadFact LoadFactFacts.

Lemma upsert_rows_dom (xs : list (Key * Payload)) (t : Table) (k : Key) :
  is_Some (t !! k) → is_Some (upsert_rows xs t !! k).
Proof.
  intros Hk. rewrite upsert_rows_lookup.
  destruct (last (filter (λ x, x.1 = k) xs)); [eauto|exact Hk].
Qed.

(** X15.  A merge never loses a stored row: every key of the table is still
    there, and the table has no fewer rows; a stored row whose key no record
    of the frame has is left as it is; and every row of the table afterwards
    is a stored row or a record of the frame, as it was sent. *)
Theorem upsert_keeps_other_rows df t n t' :
  upsert_fact_table df t = (Ok n, t') →
  (∀ k, is_Some (t !! k) → is_Some (t' !! k)) ∧
  (size t ≤ size t')%nat ∧
  (∀ k, (∀ r, r ∈ rows df → key r ≠ (k.1, Some k.2)) → t' !! k = t !! k) ∧
  (∀ k p, t' !! k = Some p →
     t !! k = Some p ∨ ∃ r, r ∈ rows df ∧ sent r = Some (k, p)).
Proof.
  intros Hrun.
  assert (Hkeys : (∀ k, is_Some (t !! k) → is_Some (t' !! k)) →
                  (size t ≤ size t')%nat).
  { intros Hsub. rewrite <- !size_dom. apply subseteq_size.
    intros k. rewrite !elem_of_dom. apply Hsub. }
  destruct (upsert_fact_table_cases df)
    as [[_ Hr]|[(_ & c & _ & Hr)|[(_ & _ & e & page & _ & Hr & _)|(_ & _ & xs & Hs & Hr)]]];
    rewrite (Hr t) in Hrun; try discriminate; injection Hrun as <- <-.
  - split; [auto|]. split; [lia|]. split; [reflexivity|]. auto.
  - assert (Hsub : ∀ k, is_Some (t !! k) → is_Some (upsert_rows xs t !! k))
      by (intros k; apply upsert_rows_dom).
    split; [exact Hsub|]. split; [apply Hkeys, Hsub|]. split.
    + intros k Hk. apply upsert_rows_other.
      intros (x & -> & Hx)%list_elem_of_fmap.
      destruct (mapM_sent_origin _ _ _ Hs Hx) as (r & Hr' & Hsent).
      apply (Hk r Hr'), sent_key, Hsent.
    + intros k p [Hold|Hnew]%upsert_rows_origin; [left; exact Hold|right].
      apply (mapM_sent_origin _ _ _ Hs), Hnew.
Qed.

Lemma upsert_keeps_other_rows_witness :
  (size ({[ ("t1", 20454%Z) := mkPayload "c1" "p1" (Number (Q2Qc 100)) "success" Samples.jan_1 ]}
           : Table)
   ≤ size (upsert_fact_table (mkDF Samples.schema [Samples.row_dup_second])
             {[ ("t1", 20454%Z) :=
                  mkPayload "c1" "p1" (Number (Q2Qc 100)) "success" Samples.jan_1 ]}).2)%nat.
Proof.
  apply (upsert_keeps_other_rows (mkDF Samples.schema [Samples.row_dup_second])
           {[ ("t1", 20454%Z) := mkPayload "c1" "p1" (Number (Q2Qc 100)) "success" Samples.jan_1 ]}
           1%nat).
  vm_compute. reflexivity.
Defined.

(** X16.  A merge that raises left the table as it was, and its frame has
    rows.  It raises a [KeyError] for the first column of the insert list
    that the frame lacks; with the columns there, it raises on an invalid
    timestamp only when a record lacks one of its two dates, and on a row
    affected a second time only when two records have the same composite
    key. *)
Theorem upsert_fact_table_raises df t e :
  (upsert_fact_table df t).1 = Raise e →
  (upsert_fact_table df t).2 = t ∧
  Ingest.df_empty df = false ∧
  ((∃ c, DataQuality.first_missing (columns df) insert_columns = Some c ∧ e = KeyError c) ∨
   insert_columns ⊆ columns df ∧
   (e = DatabaseError "InvalidDatetimeFormat" ∧
      (∃ r, r ∈ rows df ∧ (transaction_date r = None ∨ updated_at r = None)) ∨
    e = DatabaseError "CardinalityViolation" ∧ ¬ NoDup (key <$> rows df))).
Proof.
  destruct (upsert_fact_table_cases df)
    as [[_ Hr]|[(He & c & Hc & Hr)|[(He & Hcols & e' & page & Hsub & Hr & Hcase)|(_ & _ & xs & _ & Hr)]]];
    rewrite (Hr t); cbn [fst snd]; try discriminate; intros [= <-].
  - split; [reflexivity|]. split; [exact He|]. left. eauto.
  - split; [reflexivity|]. split; [exact He|]. right. split; [exact Hcols|].
    destruct Hcase as [[Hs ->]|(xs & Hs & Hdup & ->)]; [left|right];
      (split; [reflexivity|]).
    + apply mapM_None, Exists_exists in Hs as (r & Hin & Hs). exists r.
      split; [revert Hin; apply sublist_subseteq, Hsub|].
      unfold sent in Hs. destruct (transaction_date r); [|auto].
      destruct (updated_at r); [discriminate|auto].
    + intros Hnd. apply Hdup, (sent_keys_NoDup _ _ Hs).
      apply (sublist_NoDup _ (key <$> rows df)); [exact Hnd|apply fmap_sublist, Hsub].
Qed.

Lemma upsert_fact_table_raises_witness :
  (upsert_fact_table (mkDF Samples.schema [Samples.row_no_updated_at]) ∅).2 = ∅.
Proof.
  apply (upsert_fact_table_raises (mkDF Samples.schema [Samples.row_no_updated_at]) ∅
           (DatabaseError "InvalidDatetimeFormat")).
  vm_compute. reflexivity.
Defined.

(** Distinct transaction_ids, none of them null, make distinct keys. *)
Lemma key_NoDup (l : list Row) :
  (∀ r, r ∈ l → transaction_id r ≠ None) →
  NoDup (transaction_id <$> l) → NoDup (key <$> l).
Proof.
  induction l as [|r l IH]; [constructor|].
  rewrite !fmap_cons, !NoDup_cons. intros Hnn [Hr Hnd]. split.
  - intros (y & Hk & Hy)%list_elem_of_fmap. apply Hr, list_elem_of_fmap.
    exists y. split; [|exact Hy].
    assert (Hrn : transaction_id r ≠ None) by (apply Hnn; left).
    assert (Hyn : transaction_id y ≠ None) by (apply Hnn; right; exact Hy).
    unfold key in Hk. injection Hk as Hk _. unfold text_value in Hk.
    destruct (transaction_id r), (transaction_id y); try contradiction.
    cbn in Hk. congruence.
  - apply IH; [|exact Hnd]. intros y Hy. apply Hnn. right. exact Hy.
Qed.

Lemma main_unchanged db : mkDB (staging db) (products db) (quarantine db) (fact db) = db.
Proof. destruct db. reflexivity. Qed.

(** X17.  What the gate accepts the merger takes, when each accepted record
    has its [updated_at]: with the accepted frame of a run of the gate in the
    file, the load script returns the number of accepted records, the fact
    table holds each of them under its key, and the other tables are left
    alone.  One accepted record without [updated_at], which the gate lets
    through, makes the load script raise a database error and leave the
    stores as they were. *)
Theorem accepted_frame_merges now df products_set valid errors db :
  DataQuality.apply_data_quality_checks now df products_set = Ok (valid, errors) →
  ((∀ v, v ∈ rows valid → updated_at v ≠ None) →
   ∃ db',
     LoadFactRun.main (Some valid) db = (Ok (length (rows valid)), db') ∧
     staging db' = staging db ∧ products db' = products db ∧
     quarantine db' = quarantine db ∧
     ∀ v, v ∈ rows valid → ∃ x, sent v = Some x ∧ fact db' !! x.1 = Some x.2) ∧
  (∀ v, v ∈ rows valid → updated_at v = None →
   ∃ msg, LoadFactRun.main (Some valid) db = (Raise (DatabaseError msg), db)).
Proof.
  intros Hgate.
  destruct (GateMore.accepted_frame_shape _ _ _ _ _ Hgate) as (Hcols & _ & Hnd & _).
  destruct (GateMore.gate_returns_inv _ _ _ _ _ Hgate) as (Hexp & _ & _).
  assert (Hins : insert_columns ⊆ columns valid) by (rewrite Hcols; exact Hexp).
  assert (Hread : LoadFactRun.load_valid_data (Some valid) = Ok valid).
  { unfold LoadFactRun.load_valid_data. apply IngestFacts.parse_csv_Ok.
    - intros Hnil. assert (Hin : "transaction_id" ∈ columns valid) by (apply Hins; left).
      rewrite Hnil in Hin. inversion Hin.
    - intros c Hc. apply Hins.
      apply elem_of_cons in Hc as [->|Hc]; [unfold insert_columns; set_solver|].
      apply elem_of_cons in Hc as [->|Hc]; [unfold insert_columns; set_solver|].
      inversion Hc. }
  unfold LoadFactRun.main. rewrite Hread. split.
  - intros Hupd.
    destruct (upsert_fact_table_merges valid (fact db) Hins) as (t' & Hrun & Hin).
    { intros v Hv. split; [|apply Hupd, Hv].
      apply (GateMore.accepted_keys_notnull _ _ _ _ _ _ Hgate Hv). }
    { apply key_NoDup; [|exact Hnd]. intros v Hv.
      apply (GateMore.accepted_keys_notnull _ _ _ _ _ _ Hgate Hv). }
    rewrite Hrun. eexists. split; [reflexivity|]. cbn [staging products quarantine fact].
    do 3 (split; [reflexivity|]). exact Hin.
  - intros v Hv Hnull.
    destruct (upsert_fact_table_NaT valid v Hins Hv (or_intror Hnull)) as [msg Hrun].
    exists msg. rewrite Hrun, main_unchanged. reflexivity.
Qed.

Lemma accepted_frame_merges_witness :
  ((∀ v, v ∈ rows (mkDF Samples.schema [DataQuality.normalize_status Samples.row_t1]) →
      updated_at v ≠ None) →
   ∃ db',
     LoadFactRun.main (Some (mkDF Samples.schema [DataQuality.normalize_status Samples.row_t1]))
       RunSamples.db_new
     = (Ok (length (rows (mkDF Samples.schema [DataQuality.normalize_status Samples.row_t1]))),
        db') ∧
     staging db' = staging RunSamples.db_new ∧ products db' = products RunSamples.db_new ∧
     quarantine db' = quarantine RunSamples.db_new ∧
     ∀ v, v ∈ rows (mkDF Samples.schema [DataQuality.normalize_status Samples.row_t1]) →
       ∃ x, sent v = Some x ∧ fact db' !! x.1 = Some x.2) ∧
  (∀ v, v ∈ rows (mkDF Samples.schema [DataQuality.normalize_status Samples.row_t1]) →
   updated_at v = None →
   ∃ msg, LoadFactRun.main
            (Some (mkDF Samples.schema [DataQuality.normalize_status Samples.row_t1]))
            RunSamples.db_new
          = (Raise (DatabaseError msg), RunSamples.db_new)).
Proof.
  apply (accepted_frame_merges 0 (mkDF Samples.schema [Samples.row_t1; Samples.row_t2])
           Samples.products
           (mkDF Samples.schema [DataQuality.normalize_status Samples.row_t1])
           [mkErr (Some "t2") "Amount must be > 0" 0]).
  vm_compute. reflexivity.
Defined.

(** The accepted record without [updated_at] stops the load script. *)
Example load_fact_accepted_without_updated_at :
  DataQuality.apply_data_quality_checks 0
    (mkDF Samples.schema [Samples.row_no_updated_at]) Samples.products
  = Ok (mkDF Samples.schema [DataQuality.normalize_status Samples.row_no_updated_at], []) ∧
  LoadFactRun.main
    (Some (mkDF Samples.schema [DataQuality.normalize_status Samples.row_no_updated_at]))
    RunSamples.db_new
  = (Raise (DatabaseError "InvalidDatetimeFormat"), RunSamples.db_new).
Proof. split; vm_compute; reflexivity. Qed.

Example load_fact_no_file db : LoadFactRun.main None db = (Ok 0%nat, db).
Proof. unfold LoadFactRun.main. cbn. rewrite main_unchanged. reflexivity. Qed.

End LoadFactMore.

(** ** The scripts one after the other *)

Module PipelineFacts.
Import Store DataQuality.

(** What a run of the ingestion stages comes after what was staged. *)
Lemma ingest_main_staged dir db n db' :
  IngestRun.main dir db = (Ok n, db') →
  products db' = products db ∧
  ∃ inserted, IngestRun.staged db' = IngestRun.staged db ++ inserted.
Proof.
  intros (w & batch & inc & _ & _ & _ & Hl)%IngestRunFacts.main_inv.
  apply IngestRunFacts.load_to_staging_inv in Hl
    as [(_ & _ & ->)|(_ & _ & t & Ht & ->)].
  - split; [reflexivity|]. exists []. rewrite app_nil_r. reflexivity.
  - split; [reflexivity|].
    destruct (IngestRunFacts.to_sql_append_inv _ _ _ Ht) as [Hrows _].
    eexists. unfold IngestRun.staged at 1. cbn [staging]. exact Hrows.
Qed.

(** X18.  Without a product table, or with an empty one, the quality script
    checks no product: the entries that a run adds to the quarantine table
    are as many as it logs, and none of them has the message
    "Invalid product_id". *)
Theorem quality_main_without_catalog now db report :
  products db = None ∨ products db = Some [] →
  (DataQualityRun.main now db).1 = Ok report →
  ∃ added,
    DataQualityRun.quarantined_entries (DataQualityRun.main now db).2
      = DataQualityRun.quarantined_entries db ++ added ∧
    length added = DataQualityRun.quarantined report ∧
    ∀ e, e ∈ added → error_message e ≠ "Invalid product_id".
Proof.
  intros Hp.
  assert (Hset : DataQualityRun.load_products db = ∅).
  { unfold DataQualityRun.load_products. destruct Hp as [->| ->]; reflexivity. }
  destruct (DataQualityRunFacts.main_cases now db)
    as [(e' & -> & _)|(t & valid & errors & _ & Hg & ->)]; cbn [fst snd]; [discriminate|].
  intros Hr. exists errors. split; [reflexivity|]. split.
  - injection Hr as <-. reflexivity.
  - intros e Hin. rewrite Hset in Hg.
    exact (GateMore.gate_without_products_messages _ _ _ _ _ Hg Hin).
Qed.

Lemma quality_main_without_catalog_witness :
  ∃ added,
    DataQualityRun.quarantined_entries
      (DataQualityRun.main 0
         (mkDB (Some (mkDF Samples.schema [Samples.row_t2])) None None ∅)).2
      = DataQualityRun.quarantined_entries
          (mkDB (Some (mkDF Samples.schema [Samples.row_t2])) None None ∅) ++ added ∧
    length added = 1%nat ∧
    ∀ e, e ∈ added → error_message e ≠ "Invalid product_id".
Proof.
  apply (quality_main_without_catalog 0
           (mkDB (Some (mkDF Samples.schema [Samples.row_t2])) None None ∅)
           (DataQualityRun.mkReport (mkDF Samples.schema []) 0 1)).
  - left. reflexivity.
  - vm_compute. reflexivity.
Defined.

(** X19.  The first staged row of a transaction_id stays the one that the
    gate accepts.  Whatever rows a run of the ingestion adds for a
    transaction_id that is staged already, the quality script that follows
    accepts for it the row that was staged first, when that row passes the
    rules, and no row otherwise: the newer rows are not accepted. *)
Theorem staged_first_row_is_kept dir db n db' now report k first :
  IngestRun.main dir db = (Ok n, db') →
  head (occurrences k (IngestRun.staged db)) = Some first →
  (DataQualityRun.main now db').1 = Ok report →
  occurrences k (rows (DataQualityRun.written report)) =
  if passes (rule_chain (DataQualityRun.load_products db)) (normalize_status first)
  then [normalize_status first] else [].
Proof.
  intros (Hprod & inserted & Hst)%ingest_main_staged Hfirst.
  destruct (DataQualityRunFacts.main_cases now db')
    as [(e' & -> & _)|(t & valid & errors & Hl & Hg & ->)]; cbn [fst snd]; [discriminate|].
  intros [= <-]. cbn [DataQualityRun.written].
  apply DataQualityRunFacts.load_staging_Ok in Hl.
  assert (Hrows : rows t = IngestRun.staged db ++ inserted).
  { rewrite <- Hst. unfold IngestRun.staged. rewrite Hl. reflexivity. }
  assert (Hsame : DataQualityRun.load_products db' = DataQualityRun.load_products db).
  { unfold DataQualityRun.load_products. rewrite Hprod. reflexivity. }
  rewrite Hsame in Hg.
  destruct (GateMore.gate_returns_inv _ _ _ _ _ Hg) as (Hs & _ & _).
  destruct (Gate.gate_by_key now t (DataQualityRun.load_products db) Hs)
    as (valid' & errors' & Hg' & _ & _ & Hk).
  rewrite Hg in Hg'. injection Hg' as <- <-.
  destruct (Hk k) as [Hv _]. rewrite Hv, Hrows, GateMore.occurrences_app.
  destruct (occurrences k (IngestRun.staged db)) as [|x occ]; [discriminate|].
  injection Hfirst as ->. reflexivity.
Qed.

Lemma staged_first_row_is_kept_witness :
  occurrences (Some "dup")
    (rows (DataQualityRun.written
             (DataQualityRun.mkReport
                (mkDF Samples.schema [normalize_status Samples.row_dup_first]) 1 2))) =
  if passes (rule_chain (DataQualityRun.load_products RunSamples.db_first_copy))
            (normalize_status Samples.row_dup_first)
  then [normalize_status Samples.row_dup_first] else [].
Proof.
  apply (staged_first_row_is_kept Samples.dir_one_batch RunSamples.db_first_copy 1%nat
           (IngestRun.main Samples.dir_one_batch RunSamples.db_first_copy).2 0).
  - vm_compute. reflexivity.
  - vm_compute. reflexivity.
  - vm_compute. reflexivity.
Defined.

(** The newer copy is staged by the ingestion, and then reported as a
    duplicate, together with the first copy, which alone is accepted. *)
Example newer_copy_is_quarantined :
  IngestRun.staged (IngestRun.main Samples.dir_one_batch RunSamples.db_first_copy).2
    = [Samples.row_dup_first; Samples.row_dup_second] ∧
  DataQualityRun.main 0 (IngestRun.main Samples.dir_one_batch RunSamples.db_first_copy).2
  = (Ok (DataQualityRun.mkReport
           (mkDF Samples.schema [normalize_status Samples.row_dup_first]) 1 2),
     mkDB (Some (mkDF Samples.schema [Samples.row_dup_first; Samples.row_dup_second]))
          None
          (Some [mkErr (Some "dup") "Duplicate transaction_id" 0;
                 mkErr (Some "dup") "Duplicate transaction_id" 0])
          ∅).
Proof. split; vm_compute; reflexivity. Qed.

End PipelineFacts.
